(** * kiera.js-native: gateway shard and voice connection manager

    A shallow embedding of [lib/gateway/Shard.js] (the shard session state
    machine) and [lib/voice/VoiceConnectionManager.js] (the pending-join table)
    together with the properties of the handshake, heartbeat, close-code,
    member-chunk and voice-join paths.

    Conventions of the embedding.
    - A shard is a record whose fields carry the names of the JavaScript
      properties.  Methods are state transformers [Shard -> Shard]; the few
      methods that can [throw] return a [Result] next to the state.
    - Everything the shard does to the outside world (events emitted, frames
      written to the socket, promises settled, calls into the shard manager)
      is appended to the [log] field, oldest entry first.
    - Timers ([setTimeout], [setInterval]) live in the [timers] table; a
      handle is the number under which the timer is stored and the callback
      is kept as data ([TimerCb]).  [clearTimeout] removes the entry.
    - [Date.now()] is the [now] field; [Math.random()] is read from the
      oracles of [Runtime], indexed by the [draws] counter. *)

From stdpp Require Import base strings list gmap pretty.
From Stdlib Require Import ZArith Lia.

Open Scope Z_scope.

(** ** JavaScript values *)

Module Js.

(** The values that travel in gateway payloads. *)
#[warnings="-register-all"]
Inductive JSON : Type :=
| JUndefined
| JNull
| JBool (b : bool)
| JNum (n : Z)
| JStr (s : string)
| JArr (items : list JSON)
| JObj (fields : list (string * JSON)).

(** [if (v)] *)
Definition truthy (v : JSON) : bool :=
  match v with
  | JUndefined | JNull => false
  | JBool b => b
  | JNum n => negb (n =? 0)
  | JStr s => negb (s =? "")%string
  | JArr _ | JObj _ => true
  end.

(** Plain objects used as string-keyed tables.  Own keys are kept in
    insertion order, which is the order [for (k in o)] visits them. *)
Section Obj.
Context {V : Type}.

Fixpoint get (k : string) (o : list (string * V)) : option V :=
  match o with
  | [] => None
  | (k', v) :: o' => if (k' =? k)%string then Some v else get k o'
  end.

(** [o[k] = v]: an existing key keeps its place, a new key goes last. *)
Fixpoint set (k : string) (v : V) (o : list (string * V)) : list (string * V) :=
  match o with
  | [] => [(k, v)]
  | (k', v') :: o' =>
      if (k' =? k)%string then (k, v) :: o' else (k', v') :: set k v o'
  end.

(** [delete o[k]] *)
Fixpoint del (k : string) (o : list (string * V)) : list (string * V) :=
  match o with
  | [] => []
  | (k', v') :: o' =>
      if (k' =? k)%string then del k o' else (k', v') :: del k o'
  end.

(** [o.hasOwnProperty(k)] *)
Definition has (k : string) (o : list (string * V)) : bool :=
  match get k o with Some _ => true | None => false end.
End Obj.

(** [v.k] for a value that is not [null] or [undefined]; every payload the
    shard builds is a number, an array or an object literal. *)
Definition prop (v : JSON) (k : string) : JSON :=
  match v with
  | JObj o => default JUndefined (get k o)
  | _ => JUndefined
  end.

(** [delete v.k] *)
Definition delete_prop (v : JSON) (k : string) : JSON :=
  match v with
  | JObj o => JObj (del k o)
  | _ => v
  end.

(** [v.k = x] on an object. *)
Definition set_prop (v : JSON) (k : string) (x : JSON) : JSON :=
  match v with
  | JObj o => JObj (set k x o)
  | _ => v
  end.

(** [!!s] and [if (s)] for a string. *)
Definition nonempty (s : string) : bool := negb (s =? "")%string.

(** [if (x)] for a nullable string such as [sessionID]. *)
Definition held (x : option string) : bool :=
  match x with Some s => nonempty s | None => false end.

End Js.

(** ** Constants *)

Module GatewayOPCodes.
(** Modelled from the spec: [lib/Constants.js] is not part of the sources at
    hand; the opcode numbers are the ones the wire-protocol section of the
    specification lists. *)
Definition EVENT : Z := 0.
Definition HEARTBEAT : Z := 1.
Definition IDENTIFY : Z := 2.
Definition STATUS_UPDATE : Z := 3.
Definition VOICE_STATE_UPDATE : Z := 4.
Definition RESUME : Z := 6.
Definition RECONNECT : Z := 7.
Definition GET_CLUB_MEMBERS : Z := 8.
Definition INVALID_SESSION : Z := 9.
Definition HELLO : Z := 10.
Definition HEARTBEAT_ACK : Z := 11.
Definition SYNC_CLUB : Z := 12.
End GatewayOPCodes.

(** ** Bucket *)

Module Bucket.

(** Modelled from the spec: [lib/util/Bucket.js] is not part of the sources
    at hand.  The specification's token bucket: [tokenLimit] executions per
    [interval], of which [reservedTokens] are kept for priority tasks;
    priority tasks queue ahead of the others, first in first out within a
    class; when the budget is used up a wake-up timer is armed and later
    calls wait for it. *)
Section Bucket.
Context {T : Type}.

Record Item := { fn : T; priority : bool }.

Record t := {
  tokenLimit : Z;
  interval : Z;
  reservedTokens : Z;
  lastReset : Z;
  tokens : Z;            (* executions used in the current window *)
  _queue : list Item;
  timeout : option Z     (* delay of the armed wake-up timer *)
}.

Definition new (limit intervalMs reserved : Z) : t :=
  {| tokenLimit := limit; interval := intervalMs; reservedTokens := reserved;
     lastReset := 0; tokens := 0; _queue := []; timeout := None |}.

Fixpoint enqueue (it : Item) (q : list Item) : list Item :=
  match q with
  | [] => [it]
  | x :: q' =>
      if priority it && negb (priority x) then it :: x :: q'
      else x :: enqueue it q'
  end.

(** Run tasks from the head while the budget allows: any task while fewer
    than [limit - reserved] executions are used, a priority task while
    fewer than [limit] are. *)
Fixpoint drain (limit reserved used : Z) (q : list Item)
  : Z * list Item * list T :=
  match q with
  | [] => (used, [], [])
  | it :: q' =>
      if (used <? limit - reserved) || ((used <? limit) && priority it)
      then let '(u, rest, ran) := drain limit reserved (used + 1) q' in
           (u, rest, fn it :: ran)
      else (used, q, [])
  end.

Definition check (now : Z) (b : t) : t * list T :=
  let elapsed := lastReset b + interval b <=? now in
  let start := if elapsed then now else lastReset b in
  let used := if elapsed then 0 else tokens b in
  let '(used', rest, ran) := drain (tokenLimit b) (reservedTokens b) used (_queue b) in
  ({| tokenLimit := tokenLimit b; interval := interval b;
      reservedTokens := reservedTokens b;
      lastReset := start; tokens := used'; _queue := rest;
      timeout := match rest with
                 | [] => None
                 | _ :: _ => Some (interval b - (now - start))
                 end |},
   ran).

(** [queue(func, priority)] returns the tasks to run now, in order. *)
Definition queue (now : Z) (f : T) (prio : bool) (b : t) : t * list T :=
  let b' := {| tokenLimit := tokenLimit b; interval := interval b;
               reservedTokens := reservedTokens b;
               lastReset := lastReset b; tokens := tokens b;
               _queue := enqueue {| fn := f; priority := prio |} (_queue b);
               timeout := timeout b |} in
  match timeout b with
  | Some _ => (b', [])
  | None => check now b'
  end.

(** The wake-up timer fires. *)
Definition wake (now : Z) (b : t) : t * list T :=
  check now {| tokenLimit := tokenLimit b; interval := interval b;
               reservedTokens := reservedTokens b;
               lastReset := lastReset b; tokens := tokens b;
               _queue := _queue b; timeout := None |}.

(** The bucket after one task was queued and run at once. *)
Definition take (now : Z) (b : t) : t :=
  let elapsed := lastReset b + interval b <=? now in
  {| tokenLimit := tokenLimit b; interval := interval b;
     reservedTokens := reservedTokens b;
     lastReset := if elapsed then now else lastReset b;
     tokens := (if elapsed then 0 else tokens b) + 1;
     _queue := []; timeout := None |}.

(** Nothing waits and at least [n] more tasks of any class fit in the
    running window. *)
Definition has_room (n : Z) (b : t) : Prop :=
  _queue b = [] /\ timeout b = None /\ 0 <= tokens b /\
  tokens b + n <= tokenLimit b - reservedTokens b.

(** A task of the given class that is queued at [now] has to wait: the
    wake-up is armed already, or nothing waits and the running window has
    no execution left for the class. *)
Definition must_wait (prio : bool) (now : Z) (b : t) : Prop :=
  timeout b <> None
  \/ (_queue b = [] /\ now < lastReset b + interval b
      /\ tokenLimit b - reservedTokens b <= tokens b
      /\ (prio = true -> tokenLimit b <= tokens b)).
End Bucket.

Arguments Item : clear implicits.
Arguments t : clear implicits.
End Bucket.

(** ** Shard *)

Module Shard.
Import Js.

(** *** Data *)

(** [WebSocket.readyState] *)
Inductive ReadyState := CONNECTING | OPEN | CLOSING | CLOSED.

(** [this.status] *)
Inductive Status :=
| st_disconnected | st_connecting | st_handshaking | st_resuming | st_ready.

Definition status_name (st : Status) : string :=
  match st with
  | st_disconnected => "disconnected"
  | st_connecting => "connecting"
  | st_handshaking => "handshaking"
  | st_resuming => "resuming"
  | st_ready => "ready"
  end.

(** [new Error(message)], with the [code] that [_onWSClose] attaches. *)
Record Error := { message : string; code : option Z }.

Definition Err (msg : string) : Error := {| message := msg; code := None |}.

(** The [TypeError] of reading a property of [null] or [undefined]. *)
Definition TypeError : Error := Err "TypeError".

(** [options.reconnect] of [disconnect]: absent or [false], [true], ["auto"]. *)
Inductive Reconnect := r_false | r_true | r_auto.

Definition reconnect_truthy (r : Reconnect) : bool :=
  match r with r_false => false | _ => true end.

(** The client options the shard reads. *)
Record Options := {
  autoreconnect : bool;
  compress : bool;
  connectionTimeout : Z;
  requestTimeout : Z;
  maxResumeAttempts : Z;
  maxShards : Z;
  largeThreshold : Z;
  clubSubscriptions : bool;
  intents : option Z;
  disableEvents : list string     (* the event names set to [true] *)
}.

(** A cached member; [club.members] maps user ids to these. *)
Record Member := { m_id : string; m_presence : option JSON }.

(** [this.client].  Modelled from the spec: [lib/util/Collection.js] is not
    part of the sources at hand; a collection is a cache keyed by id whose
    [add] returns the object already cached under the id, or stores and
    returns a new one. *)
Record Client := {
  options : Options;
  token : string;
  client_presence : JSON;
  clubs : gmap string (gmap string Member);
  unavailableClubs : gset string;
  rawWS_listeners : bool          (* some listener is attached for "rawWS" *)
}.

Definition set_token (v : string) (c : Client) : Client :=
  {| options := options c; token := v; client_presence := client_presence c;
     clubs := clubs c; unavailableClubs := unavailableClubs c;
     rawWS_listeners := rawWS_listeners c |}.

Definition set_clubs (v : gmap string (gmap string Member)) (c : Client) : Client :=
  {| options := options c; token := token c; client_presence := client_presence c;
     clubs := v; unavailableClubs := unavailableClubs c;
     rawWS_listeners := rawWS_listeners c |}.

(** Module-level bindings of Shard.js and the sources of randomness.
    [nonce k] is the value of
    [Date.now().toString() + Math.random().toString(36)] at the [k]-th draw;
    [scaled k x] is [Math.round(x * (Math.random() * 2 + 1))] at the [k]-th
    draw.  [Intents_clubMembers] and [GATEWAY_VERSION] come from
    [lib/Constants.js], which is not part of the sources at hand. *)
Record Runtime := {
  ZlibSync : bool;                (* pako or zlib-sync could be loaded *)
  Erlpack : bool;                 (* erlpack could be loaded *)
  GATEWAY_VERSION : Z;
  Intents_clubMembers : Z;
  platform : string;              (* process.platform *)
  nonce : nat -> string;
  scaled : nat -> Z -> Z
}.

(** **** Packets *)

Record Chunk := {
  club_id : string;
  chunk_members : list string;                  (* [d.members], by user id *)
  presences : option (list (string * JSON));    (* [d.presences], by user id *)
  chunk_nonce : string;
  chunk_index : Z;
  chunk_count : Z
}.

(** The dispatch events of the embedding.  [READY] stands for a READY
    payload that lists no clubs, private channels, relationships, presences
    or notes; [bot] is [d.user.bot].  [UNKNOWN t] stands for an event name
    that [wsEvent] has no case for. *)
Inductive Dispatch :=
| READY (session_id : string) (bot : bool) (_trace : JSON)
| RESUMED
| CLUB_MEMBERS_CHUNK (d : Chunk)
| UNKNOWN (t : string).

Definition t (ev : Dispatch) : string :=
  match ev with
  | READY _ _ _ => "READY"
  | RESUMED => "RESUMED"
  | CLUB_MEMBERS_CHUNK _ => "CLUB_MEMBERS_CHUNK"
  | UNKNOWN name => name
  end.

(** [packet.op] with the payload [packet.d] it comes with. *)
Inductive Body :=
| EVENT (ev : Dispatch)
| HEARTBEAT
| INVALID_SESSION
| RECONNECT
| HELLO (heartbeat_interval : Z) (_trace : JSON)
| HEARTBEAT_ACK
| OTHER (op : Z).

(** A decoded gateway packet; [s] is absent or a number. *)
Record Packet := { s : option Z; body : Body }.

(** **** What the shard does to the world *)

(** [JSON.stringify({op: op, d: d})] or [Erlpack.pack({op: op, d: d})],
    kept as the value that is encoded. *)
Record Frame := { etf : bool; op : Z; d : JSON }.

(** Arguments of [this.emit(name, ...)]. *)
Inductive Event :=
| debug (text : string) (json : option JSON)   (* text + JSON.stringify(json) *)
| warn (text : string)
| error (e : Error)
| hello (_trace : JSON)
| unknown (p : Packet)
| rawWS (p : Packet)
| connect_
| shardPreReady
| clubMemberChunk (club : string) (members : list string).

(** What a member-request promise is resolved with. *)
Inductive Value :=
| VMembers (members : list string)
| VNumber (n : Z).

Inductive Effect :=
| Emit (e : Event)                      (* this.emit(...) *)
| SuperEmit (name : string)             (* super.emit(name) *)
| WsNew                                 (* new WebSocket(...) and its handlers *)
| WsSend (f : Frame)                    (* this.ws.send(data) *)
| WsClose (code : Z) (reason : string)  (* this.ws.close(code, reason) *)
| WsTerminate                           (* this.ws.terminate() *)
| WsRemoveCloseListener
| ZlibInflateNew
| Resolve (promise : nat) (v : Value)   (* res(v) *)
| ShardsConnect                         (* this.client.shards.connect(this) *)
| ReadyPacketCB                         (* this.client.shards._readyPacketCB() *)
| Uncaught (e : Error).                 (* an exception leaves the handler *)

(** **** Timers, closures and requests *)

Inductive TimerCb :=
| CbHeartbeat                           (* () => this.heartbeat(true) *)
| CbConnect                             (* the connection timeout *)
| CbRequestMembers (nonce : string) (res : nat)
| CbReconnect.                          (* () => this.client.shards.connect(this) *)

Record Timer := { cb : TimerCb; delay : Z; repeat : bool }.

(** The closure [func] of [sendWS] with its captured variables. *)
Record SendFunc := { f_op : Z; f_data : JSON; f_i : Z; f_waitFor : Z }.

(** An entry of [requestMembersPromise]. *)
Record MemberRequest := {
  res : nat;
  received : Z;
  members : list string;            (* references to cached members *)
  timeout : nat
}.

(** **** The shard *)

#[projections(primitive)]
Record Shard := mkShard {
  id : Z;   (* the shard number *)
  client : Client;   (* this.client: options, token, presence and caches *)
  rt : Runtime;   (* module-level bindings and the random source *)
  _token : string;   (* the token captured by hardReset *)
  ws : option ReadyState;   (* this.ws: null, or the readyState of the socket *)
  status : Status;
  seq : Z;
  sessionID : option string;
  connecting : bool;
  ready : bool;
  preReady : bool;
  connectAttempts : Z;
  reconnectInterval : Z;
  heartbeatInterval : option nat;   (* handle of the interval timer *)
  connectTimeout : option nat;
  clubCreateTimeout : option nat;
  lastHeartbeatAck : bool;
  lastHeartbeatSent : option Z;
  lastHeartbeatReceived : option Z;
  latency : option Z;   (* None is Infinity *)
  requestMembersPromise : list (string * MemberRequest);   (* keyed by nonce *)
  getAllUsersCount : list (string * bool);   (* club ids with a request in flight *)
  getAllUsersQueue : list string;
  getAllUsersLength : Z;
  clubSyncQueue : list string;
  clubSyncQueueLength : Z;
  unsyncedClubs : Z;
  presence : JSON;
  helseliaServerTrace : JSON;
  globalBucket : Bucket.t nat;
  presenceUpdateBucket : Bucket.t nat;
  funcs : gmap nat SendFunc;   (* the func closures created by sendWS *)
  timers : list (nat * Timer);   (* armed timers, oldest first *)
  fresh : nat;   (* next handle for a timer, promise or closure *)
  draws : nat;   (* random values consumed so far *)
  now : Z;   (* Date.now() *)
  log : list Effect   (* what the shard did, oldest first *)
}.

(** Field updates, one per field: [set_f v sh] is [sh] with [f] replaced. *)
Definition set_client (v : Client) (sh : Shard) : Shard := mkShard (id sh) v (rt sh) (_token sh)
    (ws sh) (status sh) (seq sh) (sessionID sh) (connecting sh) (ready sh) (preReady sh)
    (connectAttempts sh) (reconnectInterval sh) (heartbeatInterval sh) (connectTimeout sh)
    (clubCreateTimeout sh) (lastHeartbeatAck sh) (lastHeartbeatSent sh) (lastHeartbeatReceived sh)
    (latency sh) (requestMembersPromise sh) (getAllUsersCount sh) (getAllUsersQueue sh)
    (getAllUsersLength sh) (clubSyncQueue sh) (clubSyncQueueLength sh) (unsyncedClubs sh)
    (presence sh) (helseliaServerTrace sh) (globalBucket sh) (presenceUpdateBucket sh) (funcs sh)
    (timers sh) (fresh sh) (draws sh) (now sh) (log sh).
Definition set__token (v : string) (sh : Shard) : Shard := mkShard (id sh) (client sh) (rt sh) v
    (ws sh) (status sh) (seq sh) (sessionID sh) (connecting sh) (ready sh) (preReady sh)
    (connectAttempts sh) (reconnectInterval sh) (heartbeatInterval sh) (connectTimeout sh)
    (clubCreateTimeout sh) (lastHeartbeatAck sh) (lastHeartbeatSent sh) (lastHeartbeatReceived sh)
    (latency sh) (requestMembersPromise sh) (getAllUsersCount sh) (getAllUsersQueue sh)
    (getAllUsersLength sh) (clubSyncQueue sh) (clubSyncQueueLength sh) (unsyncedClubs sh)
    (presence sh) (helseliaServerTrace sh) (globalBucket sh) (presenceUpdateBucket sh) (funcs sh)
    (timers sh) (fresh sh) (draws sh) (now sh) (log sh).
Definition set_ws (v : option ReadyState) (sh : Shard) : Shard := mkShard (id sh) (client sh) (rt
    sh) (_token sh) v (status sh) (seq sh) (sessionID sh) (connecting sh) (ready sh) (preReady sh)
    (connectAttempts sh) (reconnectInterval sh) (heartbeatInterval sh) (connectTimeout sh)
    (clubCreateTimeout sh) (lastHeartbeatAck sh) (lastHeartbeatSent sh) (lastHeartbeatReceived sh)
    (latency sh) (requestMembersPromise sh) (getAllUsersCount sh) (getAllUsersQueue sh)
    (getAllUsersLength sh) (clubSyncQueue sh) (clubSyncQueueLength sh) (unsyncedClubs sh)
    (presence sh) (helseliaServerTrace sh) (globalBucket sh) (presenceUpdateBucket sh) (funcs sh)
    (timers sh) (fresh sh) (draws sh) (now sh) (log sh).
Definition set_status (v : Status) (sh : Shard) : Shard := mkShard (id sh) (client sh) (rt sh)
    (_token sh) (ws sh) v (seq sh) (sessionID sh) (connecting sh) (ready sh) (preReady sh)
    (connectAttempts sh) (reconnectInterval sh) (heartbeatInterval sh) (connectTimeout sh)
    (clubCreateTimeout sh) (lastHeartbeatAck sh) (lastHeartbeatSent sh) (lastHeartbeatReceived sh)
    (latency sh) (requestMembersPromise sh) (getAllUsersCount sh) (getAllUsersQueue sh)
    (getAllUsersLength sh) (clubSyncQueue sh) (clubSyncQueueLength sh) (unsyncedClubs sh)
    (presence sh) (helseliaServerTrace sh) (globalBucket sh) (presenceUpdateBucket sh) (funcs sh)
    (timers sh) (fresh sh) (draws sh) (now sh) (log sh).
Definition set_seq (v : Z) (sh : Shard) : Shard := mkShard (id sh) (client sh) (rt sh) (_token sh)
    (ws sh) (status sh) v (sessionID sh) (connecting sh) (ready sh) (preReady sh) (connectAttempts
    sh) (reconnectInterval sh) (heartbeatInterval sh) (connectTimeout sh) (clubCreateTimeout sh)
    (lastHeartbeatAck sh) (lastHeartbeatSent sh) (lastHeartbeatReceived sh) (latency sh)
    (requestMembersPromise sh) (getAllUsersCount sh) (getAllUsersQueue sh) (getAllUsersLength sh)
    (clubSyncQueue sh) (clubSyncQueueLength sh) (unsyncedClubs sh) (presence sh)
    (helseliaServerTrace sh) (globalBucket sh) (presenceUpdateBucket sh) (funcs sh) (timers sh)
    (fresh sh) (draws sh) (now sh) (log sh).
Definition set_sessionID (v : option string) (sh : Shard) : Shard := mkShard (id sh) (client sh)
    (rt sh) (_token sh) (ws sh) (status sh) (seq sh) v (connecting sh) (ready sh) (preReady sh)
    (connectAttempts sh) (reconnectInterval sh) (heartbeatInterval sh) (connectTimeout sh)
    (clubCreateTimeout sh) (lastHeartbeatAck sh) (lastHeartbeatSent sh) (lastHeartbeatReceived sh)
    (latency sh) (requestMembersPromise sh) (getAllUsersCount sh) (getAllUsersQueue sh)
    (getAllUsersLength sh) (clubSyncQueue sh) (clubSyncQueueLength sh) (unsyncedClubs sh)
    (presence sh) (helseliaServerTrace sh) (globalBucket sh) (presenceUpdateBucket sh) (funcs sh)
    (timers sh) (fresh sh) (draws sh) (now sh) (log sh).
Definition set_connecting (v : bool) (sh : Shard) : Shard := mkShard (id sh) (client sh) (rt sh)
    (_token sh) (ws sh) (status sh) (seq sh) (sessionID sh) v (ready sh) (preReady sh)
    (connectAttempts sh) (reconnectInterval sh) (heartbeatInterval sh) (connectTimeout sh)
    (clubCreateTimeout sh) (lastHeartbeatAck sh) (lastHeartbeatSent sh) (lastHeartbeatReceived sh)
    (latency sh) (requestMembersPromise sh) (getAllUsersCount sh) (getAllUsersQueue sh)
    (getAllUsersLength sh) (clubSyncQueue sh) (clubSyncQueueLength sh) (unsyncedClubs sh)
    (presence sh) (helseliaServerTrace sh) (globalBucket sh) (presenceUpdateBucket sh) (funcs sh)
    (timers sh) (fresh sh) (draws sh) (now sh) (log sh).
Definition set_ready (v : bool) (sh : Shard) : Shard := mkShard (id sh) (client sh) (rt sh)
    (_token sh) (ws sh) (status sh) (seq sh) (sessionID sh) (connecting sh) v (preReady sh)
    (connectAttempts sh) (reconnectInterval sh) (heartbeatInterval sh) (connectTimeout sh)
    (clubCreateTimeout sh) (lastHeartbeatAck sh) (lastHeartbeatSent sh) (lastHeartbeatReceived sh)
    (latency sh) (requestMembersPromise sh) (getAllUsersCount sh) (getAllUsersQueue sh)
    (getAllUsersLength sh) (clubSyncQueue sh) (clubSyncQueueLength sh) (unsyncedClubs sh)
    (presence sh) (helseliaServerTrace sh) (globalBucket sh) (presenceUpdateBucket sh) (funcs sh)
    (timers sh) (fresh sh) (draws sh) (now sh) (log sh).
Definition set_preReady (v : bool) (sh : Shard) : Shard := mkShard (id sh) (client sh) (rt sh)
    (_token sh) (ws sh) (status sh) (seq sh) (sessionID sh) (connecting sh) (ready sh) v
    (connectAttempts sh) (reconnectInterval sh) (heartbeatInterval sh) (connectTimeout sh)
    (clubCreateTimeout sh) (lastHeartbeatAck sh) (lastHeartbeatSent sh) (lastHeartbeatReceived sh)
    (latency sh) (requestMembersPromise sh) (getAllUsersCount sh) (getAllUsersQueue sh)
    (getAllUsersLength sh) (clubSyncQueue sh) (clubSyncQueueLength sh) (unsyncedClubs sh)
    (presence sh) (helseliaServerTrace sh) (globalBucket sh) (presenceUpdateBucket sh) (funcs sh)
    (timers sh) (fresh sh) (draws sh) (now sh) (log sh).
Definition set_connectAttempts (v : Z) (sh : Shard) : Shard := mkShard (id sh) (client sh) (rt sh)
    (_token sh) (ws sh) (status sh) (seq sh) (sessionID sh) (connecting sh) (ready sh) (preReady
    sh) v (reconnectInterval sh) (heartbeatInterval sh) (connectTimeout sh) (clubCreateTimeout sh)
    (lastHeartbeatAck sh) (lastHeartbeatSent sh) (lastHeartbeatReceived sh) (latency sh)
    (requestMembersPromise sh) (getAllUsersCount sh) (getAllUsersQueue sh) (getAllUsersLength sh)
    (clubSyncQueue sh) (clubSyncQueueLength sh) (unsyncedClubs sh) (presence sh)
    (helseliaServerTrace sh) (globalBucket sh) (presenceUpdateBucket sh) (funcs sh) (timers sh)
    (fresh sh) (draws sh) (now sh) (log sh).
Definition set_reconnectInterval (v : Z) (sh : Shard) : Shard := mkShard (id sh) (client sh) (rt
    sh) (_token sh) (ws sh) (status sh) (seq sh) (sessionID sh) (connecting sh) (ready sh)
    (preReady sh) (connectAttempts sh) v (heartbeatInterval sh) (connectTimeout sh)
    (clubCreateTimeout sh) (lastHeartbeatAck sh) (lastHeartbeatSent sh) (lastHeartbeatReceived sh)
    (latency sh) (requestMembersPromise sh) (getAllUsersCount sh) (getAllUsersQueue sh)
    (getAllUsersLength sh) (clubSyncQueue sh) (clubSyncQueueLength sh) (unsyncedClubs sh)
    (presence sh) (helseliaServerTrace sh) (globalBucket sh) (presenceUpdateBucket sh) (funcs sh)
    (timers sh) (fresh sh) (draws sh) (now sh) (log sh).
Definition set_heartbeatInterval (v : option nat) (sh : Shard) : Shard := mkShard (id sh) (client
    sh) (rt sh) (_token sh) (ws sh) (status sh) (seq sh) (sessionID sh) (connecting sh) (ready sh)
    (preReady sh) (connectAttempts sh) (reconnectInterval sh) v (connectTimeout sh)
    (clubCreateTimeout sh) (lastHeartbeatAck sh) (lastHeartbeatSent sh) (lastHeartbeatReceived sh)
    (latency sh) (requestMembersPromise sh) (getAllUsersCount sh) (getAllUsersQueue sh)
    (getAllUsersLength sh) (clubSyncQueue sh) (clubSyncQueueLength sh) (unsyncedClubs sh)
    (presence sh) (helseliaServerTrace sh) (globalBucket sh) (presenceUpdateBucket sh) (funcs sh)
    (timers sh) (fresh sh) (draws sh) (now sh) (log sh).
Definition set_connectTimeout (v : option nat) (sh : Shard) : Shard := mkShard (id sh) (client sh)
    (rt sh) (_token sh) (ws sh) (status sh) (seq sh) (sessionID sh) (connecting sh) (ready sh)
    (preReady sh) (connectAttempts sh) (reconnectInterval sh) (heartbeatInterval sh) v
    (clubCreateTimeout sh) (lastHeartbeatAck sh) (lastHeartbeatSent sh) (lastHeartbeatReceived sh)
    (latency sh) (requestMembersPromise sh) (getAllUsersCount sh) (getAllUsersQueue sh)
    (getAllUsersLength sh) (clubSyncQueue sh) (clubSyncQueueLength sh) (unsyncedClubs sh)
    (presence sh) (helseliaServerTrace sh) (globalBucket sh) (presenceUpdateBucket sh) (funcs sh)
    (timers sh) (fresh sh) (draws sh) (now sh) (log sh).
Definition set_clubCreateTimeout (v : option nat) (sh : Shard) : Shard := mkShard (id sh) (client
    sh) (rt sh) (_token sh) (ws sh) (status sh) (seq sh) (sessionID sh) (connecting sh) (ready sh)
    (preReady sh) (connectAttempts sh) (reconnectInterval sh) (heartbeatInterval sh)
    (connectTimeout sh) v (lastHeartbeatAck sh) (lastHeartbeatSent sh) (lastHeartbeatReceived sh)
    (latency sh) (requestMembersPromise sh) (getAllUsersCount sh) (getAllUsersQueue sh)
    (getAllUsersLength sh) (clubSyncQueue sh) (clubSyncQueueLength sh) (unsyncedClubs sh)
    (presence sh) (helseliaServerTrace sh) (globalBucket sh) (presenceUpdateBucket sh) (funcs sh)
    (timers sh) (fresh sh) (draws sh) (now sh) (log sh).
Definition set_lastHeartbeatAck (v : bool) (sh : Shard) : Shard := mkShard (id sh) (client sh) (rt
    sh) (_token sh) (ws sh) (status sh) (seq sh) (sessionID sh) (connecting sh) (ready sh)
    (preReady sh) (connectAttempts sh) (reconnectInterval sh) (heartbeatInterval sh)
    (connectTimeout sh) (clubCreateTimeout sh) v (lastHeartbeatSent sh) (lastHeartbeatReceived sh)
    (latency sh) (requestMembersPromise sh) (getAllUsersCount sh) (getAllUsersQueue sh)
    (getAllUsersLength sh) (clubSyncQueue sh) (clubSyncQueueLength sh) (unsyncedClubs sh)
    (presence sh) (helseliaServerTrace sh) (globalBucket sh) (presenceUpdateBucket sh) (funcs sh)
    (timers sh) (fresh sh) (draws sh) (now sh) (log sh).
Definition set_lastHeartbeatSent (v : option Z) (sh : Shard) : Shard := mkShard (id sh) (client
    sh) (rt sh) (_token sh) (ws sh) (status sh) (seq sh) (sessionID sh) (connecting sh) (ready sh)
    (preReady sh) (connectAttempts sh) (reconnectInterval sh) (heartbeatInterval sh)
    (connectTimeout sh) (clubCreateTimeout sh) (lastHeartbeatAck sh) v (lastHeartbeatReceived sh)
    (latency sh) (requestMembersPromise sh) (getAllUsersCount sh) (getAllUsersQueue sh)
    (getAllUsersLength sh) (clubSyncQueue sh) (clubSyncQueueLength sh) (unsyncedClubs sh)
    (presence sh) (helseliaServerTrace sh) (globalBucket sh) (presenceUpdateBucket sh) (funcs sh)
    (timers sh) (fresh sh) (draws sh) (now sh) (log sh).
Definition set_lastHeartbeatReceived (v : option Z) (sh : Shard) : Shard := mkShard (id sh)
    (client sh) (rt sh) (_token sh) (ws sh) (status sh) (seq sh) (sessionID sh) (connecting sh)
    (ready sh) (preReady sh) (connectAttempts sh) (reconnectInterval sh) (heartbeatInterval sh)
    (connectTimeout sh) (clubCreateTimeout sh) (lastHeartbeatAck sh) (lastHeartbeatSent sh) v
    (latency sh) (requestMembersPromise sh) (getAllUsersCount sh) (getAllUsersQueue sh)
    (getAllUsersLength sh) (clubSyncQueue sh) (clubSyncQueueLength sh) (unsyncedClubs sh)
    (presence sh) (helseliaServerTrace sh) (globalBucket sh) (presenceUpdateBucket sh) (funcs sh)
    (timers sh) (fresh sh) (draws sh) (now sh) (log sh).
Definition set_latency (v : option Z) (sh : Shard) : Shard := mkShard (id sh) (client sh) (rt sh)
    (_token sh) (ws sh) (status sh) (seq sh) (sessionID sh) (connecting sh) (ready sh) (preReady
    sh) (connectAttempts sh) (reconnectInterval sh) (heartbeatInterval sh) (connectTimeout sh)
    (clubCreateTimeout sh) (lastHeartbeatAck sh) (lastHeartbeatSent sh) (lastHeartbeatReceived sh)
    v (requestMembersPromise sh) (getAllUsersCount sh) (getAllUsersQueue sh) (getAllUsersLength
    sh) (clubSyncQueue sh) (clubSyncQueueLength sh) (unsyncedClubs sh) (presence sh)
    (helseliaServerTrace sh) (globalBucket sh) (presenceUpdateBucket sh) (funcs sh) (timers sh)
    (fresh sh) (draws sh) (now sh) (log sh).
Definition set_requestMembersPromise (v : list (string * MemberRequest)) (sh : Shard) : Shard :=
    mkShard (id sh) (client sh) (rt sh) (_token sh) (ws sh) (status sh) (seq sh) (sessionID sh)
    (connecting sh) (ready sh) (preReady sh) (connectAttempts sh) (reconnectInterval sh)
    (heartbeatInterval sh) (connectTimeout sh) (clubCreateTimeout sh) (lastHeartbeatAck sh)
    (lastHeartbeatSent sh) (lastHeartbeatReceived sh) (latency sh) v (getAllUsersCount sh)
    (getAllUsersQueue sh) (getAllUsersLength sh) (clubSyncQueue sh) (clubSyncQueueLength sh)
    (unsyncedClubs sh) (presence sh) (helseliaServerTrace sh) (globalBucket sh)
    (presenceUpdateBucket sh) (funcs sh) (timers sh) (fresh sh) (draws sh) (now sh) (log sh).
Definition set_getAllUsersCount (v : list (string * bool)) (sh : Shard) : Shard := mkShard (id sh)
    (client sh) (rt sh) (_token sh) (ws sh) (status sh) (seq sh) (sessionID sh) (connecting sh)
    (ready sh) (preReady sh) (connectAttempts sh) (reconnectInterval sh) (heartbeatInterval sh)
    (connectTimeout sh) (clubCreateTimeout sh) (lastHeartbeatAck sh) (lastHeartbeatSent sh)
    (lastHeartbeatReceived sh) (latency sh) (requestMembersPromise sh) v (getAllUsersQueue sh)
    (getAllUsersLength sh) (clubSyncQueue sh) (clubSyncQueueLength sh) (unsyncedClubs sh)
    (presence sh) (helseliaServerTrace sh) (globalBucket sh) (presenceUpdateBucket sh) (funcs sh)
    (timers sh) (fresh sh) (draws sh) (now sh) (log sh).
Definition set_getAllUsersQueue (v : list string) (sh : Shard) : Shard := mkShard (id sh) (client
    sh) (rt sh) (_token sh) (ws sh) (status sh) (seq sh) (sessionID sh) (connecting sh) (ready sh)
    (preReady sh) (connectAttempts sh) (reconnectInterval sh) (heartbeatInterval sh)
    (connectTimeout sh) (clubCreateTimeout sh) (lastHeartbeatAck sh) (lastHeartbeatSent sh)
    (lastHeartbeatReceived sh) (latency sh) (requestMembersPromise sh) (getAllUsersCount sh) v
    (getAllUsersLength sh) (clubSyncQueue sh) (clubSyncQueueLength sh) (unsyncedClubs sh)
    (presence sh) (helseliaServerTrace sh) (globalBucket sh) (presenceUpdateBucket sh) (funcs sh)
    (timers sh) (fresh sh) (draws sh) (now sh) (log sh).
Definition set_getAllUsersLength (v : Z) (sh : Shard) : Shard := mkShard (id sh) (client sh) (rt
    sh) (_token sh) (ws sh) (status sh) (seq sh) (sessionID sh) (connecting sh) (ready sh)
    (preReady sh) (connectAttempts sh) (reconnectInterval sh) (heartbeatInterval sh)
    (connectTimeout sh) (clubCreateTimeout sh) (lastHeartbeatAck sh) (lastHeartbeatSent sh)
    (lastHeartbeatReceived sh) (latency sh) (requestMembersPromise sh) (getAllUsersCount sh)
    (getAllUsersQueue sh) v (clubSyncQueue sh) (clubSyncQueueLength sh) (unsyncedClubs sh)
    (presence sh) (helseliaServerTrace sh) (globalBucket sh) (presenceUpdateBucket sh) (funcs sh)
    (timers sh) (fresh sh) (draws sh) (now sh) (log sh).
Definition set_clubSyncQueue (v : list string) (sh : Shard) : Shard := mkShard (id sh) (client sh)
    (rt sh) (_token sh) (ws sh) (status sh) (seq sh) (sessionID sh) (connecting sh) (ready sh)
    (preReady sh) (connectAttempts sh) (reconnectInterval sh) (heartbeatInterval sh)
    (connectTimeout sh) (clubCreateTimeout sh) (lastHeartbeatAck sh) (lastHeartbeatSent sh)
    (lastHeartbeatReceived sh) (latency sh) (requestMembersPromise sh) (getAllUsersCount sh)
    (getAllUsersQueue sh) (getAllUsersLength sh) v (clubSyncQueueLength sh) (unsyncedClubs sh)
    (presence sh) (helseliaServerTrace sh) (globalBucket sh) (presenceUpdateBucket sh) (funcs sh)
    (timers sh) (fresh sh) (draws sh) (now sh) (log sh).
Definition set_clubSyncQueueLength (v : Z) (sh : Shard) : Shard := mkShard (id sh) (client sh) (rt
    sh) (_token sh) (ws sh) (status sh) (seq sh) (sessionID sh) (connecting sh) (ready sh)
    (preReady sh) (connectAttempts sh) (reconnectInterval sh) (heartbeatInterval sh)
    (connectTimeout sh) (clubCreateTimeout sh) (lastHeartbeatAck sh) (lastHeartbeatSent sh)
    (lastHeartbeatReceived sh) (latency sh) (requestMembersPromise sh) (getAllUsersCount sh)
    (getAllUsersQueue sh) (getAllUsersLength sh) (clubSyncQueue sh) v (unsyncedClubs sh) (presence
    sh) (helseliaServerTrace sh) (globalBucket sh) (presenceUpdateBucket sh) (funcs sh) (timers
    sh) (fresh sh) (draws sh) (now sh) (log sh).
Definition set_unsyncedClubs (v : Z) (sh : Shard) : Shard := mkShard (id sh) (client sh) (rt sh)
    (_token sh) (ws sh) (status sh) (seq sh) (sessionID sh) (connecting sh) (ready sh) (preReady
    sh) (connectAttempts sh) (reconnectInterval sh) (heartbeatInterval sh) (connectTimeout sh)
    (clubCreateTimeout sh) (lastHeartbeatAck sh) (lastHeartbeatSent sh) (lastHeartbeatReceived sh)
    (latency sh) (requestMembersPromise sh) (getAllUsersCount sh) (getAllUsersQueue sh)
    (getAllUsersLength sh) (clubSyncQueue sh) (clubSyncQueueLength sh) v (presence sh)
    (helseliaServerTrace sh) (globalBucket sh) (presenceUpdateBucket sh) (funcs sh) (timers sh)
    (fresh sh) (draws sh) (now sh) (log sh).
Definition set_presence (v : JSON) (sh : Shard) : Shard := mkShard (id sh) (client sh) (rt sh)
    (_token sh) (ws sh) (status sh) (seq sh) (sessionID sh) (connecting sh) (ready sh) (preReady
    sh) (connectAttempts sh) (reconnectInterval sh) (heartbeatInterval sh) (connectTimeout sh)
    (clubCreateTimeout sh) (lastHeartbeatAck sh) (lastHeartbeatSent sh) (lastHeartbeatReceived sh)
    (latency sh) (requestMembersPromise sh) (getAllUsersCount sh) (getAllUsersQueue sh)
    (getAllUsersLength sh) (clubSyncQueue sh) (clubSyncQueueLength sh) (unsyncedClubs sh) v
    (helseliaServerTrace sh) (globalBucket sh) (presenceUpdateBucket sh) (funcs sh) (timers sh)
    (fresh sh) (draws sh) (now sh) (log sh).
Definition set_helseliaServerTrace (v : JSON) (sh : Shard) : Shard := mkShard (id sh) (client sh)
    (rt sh) (_token sh) (ws sh) (status sh) (seq sh) (sessionID sh) (connecting sh) (ready sh)
    (preReady sh) (connectAttempts sh) (reconnectInterval sh) (heartbeatInterval sh)
    (connectTimeout sh) (clubCreateTimeout sh) (lastHeartbeatAck sh) (lastHeartbeatSent sh)
    (lastHeartbeatReceived sh) (latency sh) (requestMembersPromise sh) (getAllUsersCount sh)
    (getAllUsersQueue sh) (getAllUsersLength sh) (clubSyncQueue sh) (clubSyncQueueLength sh)
    (unsyncedClubs sh) (presence sh) v (globalBucket sh) (presenceUpdateBucket sh) (funcs sh)
    (timers sh) (fresh sh) (draws sh) (now sh) (log sh).
Definition set_globalBucket (v : Bucket.t nat) (sh : Shard) : Shard := mkShard (id sh) (client sh)
    (rt sh) (_token sh) (ws sh) (status sh) (seq sh) (sessionID sh) (connecting sh) (ready sh)
    (preReady sh) (connectAttempts sh) (reconnectInterval sh) (heartbeatInterval sh)
    (connectTimeout sh) (clubCreateTimeout sh) (lastHeartbeatAck sh) (lastHeartbeatSent sh)
    (lastHeartbeatReceived sh) (latency sh) (requestMembersPromise sh) (getAllUsersCount sh)
    (getAllUsersQueue sh) (getAllUsersLength sh) (clubSyncQueue sh) (clubSyncQueueLength sh)
    (unsyncedClubs sh) (presence sh) (helseliaServerTrace sh) v (presenceUpdateBucket sh) (funcs
    sh) (timers sh) (fresh sh) (draws sh) (now sh) (log sh).
Definition set_presenceUpdateBucket (v : Bucket.t nat) (sh : Shard) : Shard := mkShard (id sh)
    (client sh) (rt sh) (_token sh) (ws sh) (status sh) (seq sh) (sessionID sh) (connecting sh)
    (ready sh) (preReady sh) (connectAttempts sh) (reconnectInterval sh) (heartbeatInterval sh)
    (connectTimeout sh) (clubCreateTimeout sh) (lastHeartbeatAck sh) (lastHeartbeatSent sh)
    (lastHeartbeatReceived sh) (latency sh) (requestMembersPromise sh) (getAllUsersCount sh)
    (getAllUsersQueue sh) (getAllUsersLength sh) (clubSyncQueue sh) (clubSyncQueueLength sh)
    (unsyncedClubs sh) (presence sh) (helseliaServerTrace sh) (globalBucket sh) v (funcs sh)
    (timers sh) (fresh sh) (draws sh) (now sh) (log sh).
Definition set_funcs (v : gmap nat SendFunc) (sh : Shard) : Shard := mkShard (id sh) (client sh)
    (rt sh) (_token sh) (ws sh) (status sh) (seq sh) (sessionID sh) (connecting sh) (ready sh)
    (preReady sh) (connectAttempts sh) (reconnectInterval sh) (heartbeatInterval sh)
    (connectTimeout sh) (clubCreateTimeout sh) (lastHeartbeatAck sh) (lastHeartbeatSent sh)
    (lastHeartbeatReceived sh) (latency sh) (requestMembersPromise sh) (getAllUsersCount sh)
    (getAllUsersQueue sh) (getAllUsersLength sh) (clubSyncQueue sh) (clubSyncQueueLength sh)
    (unsyncedClubs sh) (presence sh) (helseliaServerTrace sh) (globalBucket sh)
    (presenceUpdateBucket sh) v (timers sh) (fresh sh) (draws sh) (now sh) (log sh).
Definition set_timers (v : list (nat * Timer)) (sh : Shard) : Shard := mkShard (id sh) (client sh)
    (rt sh) (_token sh) (ws sh) (status sh) (seq sh) (sessionID sh) (connecting sh) (ready sh)
    (preReady sh) (connectAttempts sh) (reconnectInterval sh) (heartbeatInterval sh)
    (connectTimeout sh) (clubCreateTimeout sh) (lastHeartbeatAck sh) (lastHeartbeatSent sh)
    (lastHeartbeatReceived sh) (latency sh) (requestMembersPromise sh) (getAllUsersCount sh)
    (getAllUsersQueue sh) (getAllUsersLength sh) (clubSyncQueue sh) (clubSyncQueueLength sh)
    (unsyncedClubs sh) (presence sh) (helseliaServerTrace sh) (globalBucket sh)
    (presenceUpdateBucket sh) (funcs sh) v (fresh sh) (draws sh) (now sh) (log sh).
Definition set_fresh (v : nat) (sh : Shard) : Shard := mkShard (id sh) (client sh) (rt sh) (_token
    sh) (ws sh) (status sh) (seq sh) (sessionID sh) (connecting sh) (ready sh) (preReady sh)
    (connectAttempts sh) (reconnectInterval sh) (heartbeatInterval sh) (connectTimeout sh)
    (clubCreateTimeout sh) (lastHeartbeatAck sh) (lastHeartbeatSent sh) (lastHeartbeatReceived sh)
    (latency sh) (requestMembersPromise sh) (getAllUsersCount sh) (getAllUsersQueue sh)
    (getAllUsersLength sh) (clubSyncQueue sh) (clubSyncQueueLength sh) (unsyncedClubs sh)
    (presence sh) (helseliaServerTrace sh) (globalBucket sh) (presenceUpdateBucket sh) (funcs sh)
    (timers sh) v (draws sh) (now sh) (log sh).
Definition set_draws (v : nat) (sh : Shard) : Shard := mkShard (id sh) (client sh) (rt sh) (_token
    sh) (ws sh) (status sh) (seq sh) (sessionID sh) (connecting sh) (ready sh) (preReady sh)
    (connectAttempts sh) (reconnectInterval sh) (heartbeatInterval sh) (connectTimeout sh)
    (clubCreateTimeout sh) (lastHeartbeatAck sh) (lastHeartbeatSent sh) (lastHeartbeatReceived sh)
    (latency sh) (requestMembersPromise sh) (getAllUsersCount sh) (getAllUsersQueue sh)
    (getAllUsersLength sh) (clubSyncQueue sh) (clubSyncQueueLength sh) (unsyncedClubs sh)
    (presence sh) (helseliaServerTrace sh) (globalBucket sh) (presenceUpdateBucket sh) (funcs sh)
    (timers sh) (fresh sh) v (now sh) (log sh).
Definition set_now (v : Z) (sh : Shard) : Shard := mkShard (id sh) (client sh) (rt sh) (_token sh)
    (ws sh) (status sh) (seq sh) (sessionID sh) (connecting sh) (ready sh) (preReady sh)
    (connectAttempts sh) (reconnectInterval sh) (heartbeatInterval sh) (connectTimeout sh)
    (clubCreateTimeout sh) (lastHeartbeatAck sh) (lastHeartbeatSent sh) (lastHeartbeatReceived sh)
    (latency sh) (requestMembersPromise sh) (getAllUsersCount sh) (getAllUsersQueue sh)
    (getAllUsersLength sh) (clubSyncQueue sh) (clubSyncQueueLength sh) (unsyncedClubs sh)
    (presence sh) (helseliaServerTrace sh) (globalBucket sh) (presenceUpdateBucket sh) (funcs sh)
    (timers sh) (fresh sh) (draws sh) v (log sh).
Definition set_log (v : list Effect) (sh : Shard) : Shard := mkShard (id sh) (client sh) (rt sh)
    (_token sh) (ws sh) (status sh) (seq sh) (sessionID sh) (connecting sh) (ready sh) (preReady
    sh) (connectAttempts sh) (reconnectInterval sh) (heartbeatInterval sh) (connectTimeout sh)
    (clubCreateTimeout sh) (lastHeartbeatAck sh) (lastHeartbeatSent sh) (lastHeartbeatReceived sh)
    (latency sh) (requestMembersPromise sh) (getAllUsersCount sh) (getAllUsersQueue sh)
    (getAllUsersLength sh) (clubSyncQueue sh) (clubSyncQueueLength sh) (unsyncedClubs sh)
    (presence sh) (helseliaServerTrace sh) (globalBucket sh) (presenceUpdateBucket sh) (funcs sh)
    (timers sh) (fresh sh) (draws sh) (now sh) v.

(** *** State transformers and commands *)

Notation "x |> f" := (f x) (at level 68, left associativity, only parsing).

(** A method that may [throw]: the state reached, and the value returned or
    the exception. *)
Inductive Result (A : Type) := Ok (a : A) | Throw (e : Error).
Arguments Ok {A} a.
Arguments Throw {A} e.

Definition Cmd (A : Type) := Shard -> Shard * Result A.

Definition ret {A} (a : A) : Cmd A := fun sh => (sh, Ok a).
Definition throw {A} (e : Error) : Cmd A := fun sh => (sh, Throw e).
Definition lift (f : Shard -> Shard) : Cmd unit := fun sh => (f sh, Ok tt).
Definition bind {A B} (c : Cmd A) (k : A -> Cmd B) : Cmd B :=
  fun sh => match c sh with
            | (sh', Ok a) => k a sh'
            | (sh', Throw e) => (sh', Throw e)
            end.

Notation "c1 >>> c2" := (bind c1 (fun _ => c2)) (at level 69, right associativity).

Definition effect (e : Effect) (sh : Shard) : Shard := set_log (log sh ++ [e]) sh.

(** [emit(event, ...args)] hands the event to the client and, except for an
    "error" nobody listens to, to the shard's own listeners. *)
Definition emit (e : Event) : Shard -> Shard := effect (Emit e).

Definition super_emit (name : string) : Shard -> Shard := effect (SuperEmit name).

(** [setTimeout] / [setInterval]; the handle returned is [fresh sh]. *)
Definition setTimer (c : TimerCb) (ms : Z) (rep : bool) (sh : Shard) : Shard :=
  sh |> set_timers (timers sh ++ [(fresh sh, {| cb := c; delay := ms; repeat := rep |})])
     |> set_fresh (S (fresh sh)).

Fixpoint drop_timer (h : nat) (l : list (nat * Timer)) : list (nat * Timer) :=
  match l with
  | [] => []
  | (i, x) :: l' => if Nat.eqb i h then drop_timer h l' else (i, x) :: drop_timer h l'
  end.

(** [clearTimeout(h)] / [clearInterval(h)] *)
Definition clearTimer (h : nat) (sh : Shard) : Shard :=
  set_timers (drop_timer h (timers sh)) sh.

Definition armed (h : nat) (sh : Shard) : bool :=
  existsb (fun e => Nat.eqb (fst e) h) (timers sh).

(** [this.ws && this.ws.readyState === WebSocket.OPEN] *)
Definition ws_open (sh : Shard) : bool :=
  match ws sh with Some OPEN => true | _ => false end.

Definition opt_num (x : option Z) : JSON :=
  match x with Some n => JNum n | None => JNull end.

(** **** sendWS *)

(** [if (_data.token) { delete _data.token; }] *)
Definition strip_token (_data : JSON) : JSON :=
  if truthy (prop _data "token") then delete_prop _data "token" else _data.

(** The frame dump of the debug trace: [JSON.stringify({op: op, d: _data})]. *)
Definition dump (op_ : Z) (_data : JSON) : Event :=
  debug "" (Some (JObj [("op", JNum op_); ("d", _data)])).

(** One call of the closure [func] that [sendWS] hands to the buckets. *)
Definition func (fid : nat) (sh : Shard) : Shard :=
  match funcs sh !! fid with
  | None => sh
  | Some f =>
      let i := f_i f + 1 in
      let f := {| f_op := f_op f; f_data := f_data f; f_i := i; f_waitFor := f_waitFor f |} in
      let sh := set_funcs (<[fid := f]> (funcs sh)) sh in
      if (f_waitFor f <=? i) && ws_open sh then
        let sh := effect (WsSend {| etf := Erlpack (rt sh); op := f_op f; d := f_data f |}) sh in
        let _data := strip_token (f_data f) in
        let f := {| f_op := f_op f; f_data := _data; f_i := i; f_waitFor := f_waitFor f |} in
        sh |> set_funcs (<[fid := f]> (funcs sh))
           |> emit (dump (f_op f) _data)
      else sh
  end.

Definition run (fids : list nat) (sh : Shard) : Shard :=
  fold_left (fun sh fid => func fid sh) fids sh.

Definition queue_global (fid : nat) (priority : bool) (sh : Shard) : Shard :=
  let '(b, fids) := Bucket.queue (now sh) fid priority (globalBucket sh) in
  sh |> set_globalBucket b |> run fids.

Definition queue_presence (fid : nat) (priority : bool) (sh : Shard) : Shard :=
  let '(b, fids) := Bucket.queue (now sh) fid priority (presenceUpdateBucket sh) in
  sh |> set_presenceUpdateBucket b |> run fids.

Definition sendWS (op : Z) (_data : JSON) (priority : bool) (sh : Shard) : Shard :=
  if ws_open sh then
    let fid := fresh sh in
    let status_update := op =? GatewayOPCodes.STATUS_UPDATE in
    let f := {| f_op := op; f_data := _data; f_i := 0;
                f_waitFor := if status_update then 2 else 1 |} in
    let sh := sh |> set_funcs (<[fid := f]> (funcs sh)) |> set_fresh (S fid) in
    let sh := if status_update then queue_presence fid priority sh else sh in
    queue_global fid priority sh
  else sh.

(** The shard after [sendWS] when the closure runs at once and writes the
    frame: the closure is stored with its token stripped, the global bucket
    has spent one execution, and the log shows the frame and its dump. *)
Definition transmit (op_ : Z) (_data : JSON) (sh : Shard) : Shard :=
  sh |> set_funcs (<[fresh sh := {| f_op := op_; f_data := strip_token _data;
                                    f_i := 1; f_waitFor := 1 |}]> (funcs sh))
     |> set_fresh (S (fresh sh))
     |> set_globalBucket (Bucket.take (now sh) (globalBucket sh))
     |> set_log (log sh ++ [WsSend {| etf := Erlpack (rt sh); op := op_; d := _data |};
                            Emit (dump op_ (strip_token _data))]).

(** **** reset, hardReset, disconnect *)

(** [if (this.connectTimeout) { clearTimeout(this.connectTimeout); }
     this.connectTimeout = null;] *)
Definition clear_connectTimeout (sh : Shard) : Shard :=
  let sh := match connectTimeout sh with
            | Some h => clearTimer h sh
            | None => sh
            end in
  set_connectTimeout None sh.

(** The body of the loop of [reset] over the pending member requests. *)
Definition settle_request (sh : Shard) (e : string * MemberRequest) : Shard :=
  sh |> clearTimer (timeout e.2)
     |> effect (Resolve (res e.2) (VNumber (received e.2))).

Definition reset (sh : Shard) : Shard :=
  let sh := sh |> set_connecting false |> set_ready false |> set_preReady false in
  let sh := fold_left settle_request (requestMembersPromise sh) sh in
  let sh := sh |> set_requestMembersPromise []
               |> set_getAllUsersCount []
               |> set_getAllUsersQueue []
               |> set_getAllUsersLength 1
               |> set_clubSyncQueue []
               |> set_clubSyncQueueLength 1
               |> set_unsyncedClubs 0
               |> set_latency None
               |> set_lastHeartbeatAck true
               |> set_lastHeartbeatReceived None
               |> set_lastHeartbeatSent None
               |> set_status st_disconnected in
  clear_connectTimeout sh.

Definition hardReset (sh : Shard) : Shard :=
  sh |> reset
     |> set_seq 0
     |> set_sessionID None
     |> set_reconnectInterval 1000
     |> set_connectAttempts 0
     |> set_ws None
     |> set_heartbeatInterval None
     |> set_clubCreateTimeout None
     |> set_globalBucket (Bucket.new 120 60000 5)
     |> set_presenceUpdateBucket (Bucket.new 5 60000 0)
     |> set_presence (client_presence (client sh))
     |> set__token (token (client sh)).

(** [disconnect(options, error)], block by block.  [opts] is [None] for
    [options = null], otherwise [options.reconnect]. *)

(** [if (this.heartbeatInterval) { clearInterval(...); ... = null; }] *)
Definition stop_heartbeat (sh : Shard) : Shard :=
  match heartbeatInterval sh with
  | Some h => sh |> clearTimer h |> set_heartbeatInterval None
  | None => sh
  end.

(** [if (this.ws.readyState !== WebSocket.CLOSED) { ... }]: the listener is
    removed and the socket closed inside a [try]. *)
Definition close_ws (readyState : ReadyState) (opts : option Reconnect) (sh : Shard) : Shard :=
  match readyState with
  | CLOSED => sh
  | _ =>
      let sh := effect WsRemoveCloseListener sh in
      match opts with
      | None => emit (error TypeError) sh        (* caught by the try *)
      | Some r =>
          if reconnect_truthy r && held (sessionID sh) then
            match readyState with
            | OPEN => effect (WsClose 4901 "Reconnect: Kiera") sh
            | _ => effect WsTerminate sh
            end
          else effect (WsClose 1000 "Normal: Kiera") sh
      end
  end.

(** [if (error) { this.emit("error", error, this.id); }] *)
Definition emit_error (err : option Error) (sh : Shard) : Shard :=
  match err with
  | Some e => emit (error e) sh
  | None => sh
  end.

(** [if (this.sessionID && this.connectAttempts >= maxResumeAttempts) { ... }] *)
Definition invalidate_session (sh : Shard) : Shard :=
  if held (sessionID sh)
     && (maxResumeAttempts (options (client sh)) <=? connectAttempts sh)
  then sh |> emit (debug ("Automatically invalidating session due to excessive resume attempts | Attempt "
                          +:+ pretty (connectAttempts sh)) None)
          |> set_sessionID None
  else sh.

(** [if (options.reconnect === "auto" && autoreconnect) { ... }
     else if (!options.reconnect) { this.hardReset(); }] *)
Definition reconnect_or_reset (opts : option Reconnect) (sh : Shard) : Shard :=
  match opts with
  | None => effect (Uncaught TypeError) sh
  | Some r_auto =>
      if autoreconnect (options (client sh)) then
        if held (sessionID sh) then
          sh |> emit (debug ("Immediately reconnecting for potential resume | Attempt "
                             +:+ pretty (connectAttempts sh)) None)
             |> effect ShardsConnect
        else
          sh |> emit (debug ("Queueing reconnect in " +:+ pretty (reconnectInterval sh)
                             +:+ "ms | Attempt " +:+ pretty (connectAttempts sh)) None)
             |> setTimer CbReconnect (reconnectInterval sh) false
             |> set_reconnectInterval
                  (Z.min (scaled (rt sh) (draws sh) (reconnectInterval sh)) 30000)
             |> set_draws (S (draws sh))
      else sh
  | Some r_true => sh
  | Some r_false => hardReset sh
  end.

Definition disconnect (opts : option Reconnect) (err : option Error) (sh : Shard) : Shard :=
  match ws sh with
  | None => sh
  | Some readyState =>
      sh |> stop_heartbeat
         |> close_ws readyState opts
         |> set_ws None
         |> reset
         |> emit_error err
         |> super_emit "disconnect"
         |> invalidate_session
         |> reconnect_or_reset opts
  end.

(** **** heartbeat, identify, resume *)

Definition heartbeat (normal : bool) (sh : Shard) : Shard :=
  match status sh with
  | st_resuming => sh
  | _ =>
      if normal && negb (lastHeartbeatAck sh) then
        sh |> emit (debug "Heartbeat timeout; "
                      (Some (JObj [("lastReceived", opt_num (lastHeartbeatReceived sh));
                                   ("lastSent", opt_num (lastHeartbeatSent sh));
                                   ("interval", opt_num (Z.of_nat <$> heartbeatInterval sh));
                                   ("status", JStr (status_name (status sh)));
                                   ("timestamp", JNum (now sh))])))
           |> disconnect (Some r_auto)
                (Some (Err "Server didn't acknowledge previous heartbeat, possible lost connection"))
      else
        let sh := if normal then set_lastHeartbeatAck false sh else sh in
        sh |> set_lastHeartbeatSent (Some (now sh))
           |> sendWS GatewayOPCodes.HEARTBEAT (JNum (seq sh)) true
  end.

Definition identify_payload (sh : Shard) : JSON :=
  let o := options (client sh) in
  let identify :=
    [("token", JStr (_token sh));
     ("v", JNum (GATEWAY_VERSION (rt sh)));
     ("compress", JBool (compress o));
     ("large_threshold", JNum (largeThreshold o));
     ("club_subscriptions", JBool (clubSubscriptions o));
     ("intents", match intents o with Some n => JNum n | None => JUndefined end);
     ("properties", JObj [("os", JStr (platform (rt sh)));
                          ("browser", JStr "Helselia");
                          ("device", JStr "Helselia")])] in
  let identify := if 1 <? maxShards o
                  then set "shard" (JArr [JNum (id sh); JNum (maxShards o)]) identify
                  else identify in
  let identify := if truthy (prop (presence sh) "status")
                  then set "presence" (presence sh) identify
                  else identify in
  JObj identify.

Definition identify (sh : Shard) : Shard :=
  if compress (options (client sh)) && negb (ZlibSync (rt sh)) then
    emit (error (Err "pako/zlib-sync not found, cannot decompress data")) sh
  else
    sendWS GatewayOPCodes.IDENTIFY (identify_payload sh) false sh.

Definition resume_payload (sh : Shard) : JSON :=
  JObj [("token", JStr (_token sh));
        ("session_id", match sessionID sh with Some x => JStr x | None => JNull end);
        ("seq", JNum (seq sh))].

Definition resume (sh : Shard) : Shard :=
  let sh := set_status st_resuming sh in
  sendWS GatewayOPCodes.RESUME (resume_payload sh) false sh.

(** **** Member requests and readiness *)

Definition requestClubSync (clubID : list string) : Shard -> Shard :=
  sendWS GatewayOPCodes.SYNC_CLUB (JArr (JStr <$> clubID)) false.

(** The [options] argument of [requestClubMembers]. *)
Record RequestOptions := {
  limit : option Z;
  userIDs : option (list string);
  query : option string;
  with_presences : option bool;
  request_timeout : option Z
}.

(** [intents && !(intents & Constants.Intents.clubMembers)] *)
Definition intents_without_clubMembers (sh : Shard) : bool :=
  match intents (options (client sh)) with
  | Some n => negb (n =? 0) && (Z.land n (Intents_clubMembers (rt sh)) =? 0)
  | None => false
  end.

(** [requestClubMembers(clubID, options)]; the value returned is the
    promise. *)
Definition requestClubMembers (clubID : JSON) (o : option RequestOptions) : Cmd nat :=
  fun sh =>
    let user_ids := o ≫= userIDs in
    let query0 := o ≫= query in
    let nonce_ := nonce (rt sh) (draws sh) in
    let sh := set_draws (S (draws sh)) sh in
    let query1 := match user_ids, query0 with
                  | None, None | None, Some "" => Some ""%string
                  | _, _ => query0
                  end in
    let opts :=
      JObj [("club_id", clubID);
            ("limit", JNum (default 0 (o ≫= limit)));
            ("user_ids", match user_ids with
                         | Some ids => JArr (JStr <$> ids)
                         | None => JUndefined
                         end);
            ("query", match query1 with Some q => JStr q | None => JUndefined end);
            ("nonce", JStr nonce_);
            ("presences", match o ≫= with_presences with
                          | Some b => JBool b
                          | None => JUndefined
                          end)] in
    if negb (held query1) && intents_without_clubMembers sh then
      (sh, Throw (Err "Cannot request all members without clubMembers intent"))
    else if match user_ids with
            | Some ids => 100 <? Z.of_nat (length ids)
            | None => false
            end then
      (sh, Throw (Err "Cannot request more than 100 users by their ID"))
    else
      let sh := sendWS GatewayOPCodes.GET_CLUB_MEMBERS opts false sh in
      let promise := fresh sh in
      let sh := set_fresh (S promise) sh in
      let ms := match o ≫= request_timeout with
                | Some n => if n =? 0 then requestTimeout (options (client sh)) else n
                | None => requestTimeout (options (client sh))
                end in
      let h := fresh sh in
      let sh := setTimer (CbRequestMembers nonce_ promise) ms false sh in
      (set_requestMembersPromise
         (set nonce_ {| res := promise; received := 0; members := []; timeout := h |}
              (requestMembersPromise sh)) sh,
       Ok promise).

Definition checkReady : Cmd unit :=
  fun sh =>
    if ready sh then (sh, Ok tt)
    else
      match clubSyncQueue sh with
      | _ :: _ =>
          (sh |> requestClubSync (clubSyncQueue sh)
              |> set_clubSyncQueue []
              |> set_clubSyncQueueLength 1, Ok tt)
      | [] =>
          if 0 <? unsyncedClubs sh then (sh, Ok tt)
          else
            match getAllUsersQueue sh with
            | _ :: _ =>
                (requestClubMembers (JArr (JStr <$> getAllUsersQueue sh)) None
                 >>> lift (set_getAllUsersQueue [])
                 >>> lift (set_getAllUsersLength 1)) sh
            | [] =>
                match getAllUsersCount sh with
                | [] => (sh |> set_ready true |> super_emit "ready", Ok tt)
                | _ :: _ => (sh, Ok tt)
                end
            end
      end.

(** **** Queued requests and presence *)

(** [syncClub(clubID)] *)
Definition syncClub (clubID : string) (sh : Shard) : Shard :=
  let len := Z.of_nat (String.length clubID) in
  if 4081 <? clubSyncQueueLength sh + 3 + len then
    sh |> requestClubSync (clubSyncQueue sh)
       |> set_clubSyncQueue [clubID]
       |> set_clubSyncQueueLength (1 + len + 3)
  else if ready sh then requestClubSync [clubID] sh
  else
    sh |> set_clubSyncQueue (clubSyncQueue sh ++ [clubID])
       |> set_clubSyncQueueLength (clubSyncQueueLength sh + (len + 3)).

(** The [else] branch of [getClubMembers]: the club joins the batch, which
    is sent first when the club would not fit. *)
Definition batch_member_request (clubID : string) : Cmd unit :=
  fun sh =>
    let len := Z.of_nat (String.length clubID) in
    if 4048 <? getAllUsersLength sh + 3 + len then
      (requestClubMembers (JArr (JStr <$> getAllUsersQueue sh)) None
       >>> lift (set_getAllUsersQueue [clubID])
       >>> lift (set_getAllUsersLength (1 + len + 3))) sh
    else
      (sh |> set_getAllUsersQueue (getAllUsersQueue sh ++ [clubID])
          |> set_getAllUsersLength (getAllUsersLength sh + (len + 3)),
       Ok tt).

(** [getClubMembers(clubID)], called as [createClub] calls it, without a
    [timeout]. *)
Definition getClubMembers (clubID : string) : Cmd unit :=
  fun sh =>
    if has clubID (getAllUsersCount sh) then
      (sh, Throw (Err "Cannot request all members while an existing request is processing"))
    else
      let sh := set_getAllUsersCount (set clubID true (getAllUsersCount sh)) sh in
      match intents (options (client sh)) with
      | Some n =>
          if n =? 0 then batch_member_request clubID sh
          else if Z.land n (Intents_clubMembers (rt sh)) =? 0 then
            (sh, Throw (Err "Cannot request all members without clubMembers intent"))
          else (requestClubMembers (JArr [JStr clubID]) None >>> ret tt) sh
      | None => batch_member_request clubID sh
      end.

(** The payload of [sendStatusUpdate]. *)
Definition status_payload (sh : Shard) : JSON :=
  JObj [("afk", JBool (truthy (prop (presence sh) "afk")));
        ("game", prop (presence sh) "game");
        ("since", JNum match prop (presence sh) "status" with
                       | JStr "idle" => now sh
                       | _ => 0
                       end);
        ("status", prop (presence sh) "status")].

Definition sendStatusUpdate (sh : Shard) : Shard :=
  sendWS GatewayOPCodes.STATUS_UPDATE (status_payload sh) false sh.

(** [editAFK(afk)] *)
Definition editAFK (afk : JSON) (sh : Shard) : Shard :=
  sh |> set_presence (set_prop (presence sh) "afk" (JBool (truthy afk)))
     |> sendStatusUpdate.

(** **** Dispatch events *)

(** [club.members.add(member, club)] for the raw members of a chunk. *)
Definition add_member (ms : gmap string Member) (uid : string) : gmap string Member :=
  match ms !! uid with
  | Some _ => ms
  | None => <[uid := {| m_id := uid; m_presence := None |}]> ms
  end.

(** [member.update(presence)] for a cached member. *)
Definition update_presence (ms : gmap string Member) (p : string * JSON) : gmap string Member :=
  match ms !! p.1 with
  | Some m => <[p.1 := {| m_id := m_id m; m_presence := Some p.2 |}]> ms
  | None => ms
  end.

(** The CLUB_MEMBERS_CHUNK case, block by block. *)

(** [packet.d.members.map(...)] and [packet.d.presences.forEach(...)] on
    the cached club. *)
Definition chunk_cache (d : Chunk) (club : gmap string Member) (sh : Shard) : Shard :=
  let club := fold_left add_member (chunk_members d) club in
  let club := match presences d with
              | Some ps => fold_left update_presence ps club
              | None => club
              end in
  set_client (set_clubs (<[club_id d := club]> (clubs (client sh))) (client sh)) sh.

(** [if (hasOwnProperty(nonce)) { ...members.push(...members); }] *)
Definition chunk_collect (d : Chunk) (sh : Shard) : Shard :=
  match get (chunk_nonce d) (requestMembersPromise sh) with
  | Some r =>
      set_requestMembersPromise
        (set (chunk_nonce d)
             {| res := res r; received := received r;
                members := members r ++ chunk_members d; timeout := timeout r |}
             (requestMembersPromise sh)) sh
  | None => sh
  end.

(** [if (hasOwnProperty(nonce)) { clearTimeout(...); res(members); delete ...; }] *)
Definition chunk_resolve (d : Chunk) (sh : Shard) : Shard :=
  match get (chunk_nonce d) (requestMembersPromise sh) with
  | Some r =>
      sh |> clearTimer (timeout r)
         |> effect (Resolve (res r) (VMembers (members r)))
         |> set_requestMembersPromise (del (chunk_nonce d) (requestMembersPromise sh))
  | None => sh
  end.

(** [if (this.getAllUsersCount.hasOwnProperty(club.id)) { delete ...; this.checkReady(); }] *)
Definition chunk_sweep (d : Chunk) : Cmd unit :=
  fun sh =>
    if has (club_id d) (getAllUsersCount sh) then
      (lift (set_getAllUsersCount (del (club_id d) (getAllUsersCount sh)))
       >>> checkReady) sh
    else (sh, Ok tt).

Definition CLUB_MEMBERS_CHUNK_case (d : Chunk) : Cmd unit :=
  fun sh =>
    match clubs (client sh) !! club_id d with
    | None =>
        (emit (debug ("Received CLUB_MEMBERS_CHUNK, but club " +:+ club_id d +:+ " is "
                      +:+ (if bool_decide (club_id d ∈ unavailableClubs (client sh))
                           then "unavailable" else "missing")) None) sh,
         Ok tt)
    | Some club =>
        (lift (chunk_cache d club)
         >>> lift (chunk_collect d)
         >>> (if chunk_count d - 1 <=? chunk_index d
              then lift (chunk_resolve d) >>> chunk_sweep d
              else ret tt)
         >>> lift (emit (clubMemberChunk (club_id d) (chunk_members d)))
         >>> lift (set_lastHeartbeatAck true)) sh
    end.

(** The statements shared by the RESUMED and READY cases. *)
Definition READY_prologue (sh : Shard) : Shard :=
  sh |> set_connectAttempts 0
     |> set_reconnectInterval 1000
     |> set_connecting false
     |> clear_connectTimeout
     |> set_status st_ready
     |> set_presence (set_prop (presence sh) "status" (JStr "online"))
     |> effect ReadyPacketCB.

Definition wsEvent (packet : Packet) (ev : Dispatch) : Cmd unit :=
  match ev with
  | CLUB_MEMBERS_CHUNK d => CLUB_MEMBERS_CHUNK_case d
  | RESUMED =>
      lift (fun sh => sh |> READY_prologue
                         |> heartbeat false
                         |> set_preReady true
                         |> set_ready true
                         |> super_emit "resume")
  | READY session_id bot _trace =>
      lift READY_prologue
      >>> lift (fun sh =>
                  let tok := token (client sh) in
                  if bot && negb (String.prefix "Bot " tok)
                  then set_client (set_token ("Bot " +:+ tok) (client sh)) sh
                  else sh)
      >>> lift (fun sh => if truthy _trace then set_helseliaServerTrace _trace sh else sh)
      >>> lift (set_sessionID (Some session_id))
      >>> lift (set_preReady true)
      >>> lift (emit shardPreReady)
      >>> checkReady
  | UNKNOWN _ => lift (emit (unknown packet))
  end.

(** **** onPacket *)

(** The sequence bookkeeping at the head of [onPacket]. *)
Definition onPacket_seq (packet : Packet) (sh : Shard) : Shard :=
  match s packet with
  | Some n =>
      if n =? 0 then sh
      else
        let sh := if (seq sh + 1 <? n)
                     && match ws sh with Some _ => true | None => false end
                     && negb match status sh with st_resuming => true | _ => false end
                  then emit (warn ("Non-consecutive sequence (" +:+ pretty (seq sh)
                                   +:+ " -> " +:+ pretty n +:+ ")")) sh
                  else sh in
        set_seq n sh
  | None => sh
  end.

(** [if (packet.d.heartbeat_interval > 0) { ... setInterval(...) }] *)
Definition start_heartbeat (heartbeat_interval : Z) (sh : Shard) : Shard :=
  if 0 <? heartbeat_interval then
    let sh := match heartbeatInterval sh with
              | Some h => clearTimer h sh
              | None => sh
              end in
    sh |> set_heartbeatInterval (Some (fresh sh))
       |> setTimer CbHeartbeat heartbeat_interval true
  else sh.

Definition HELLO_case (heartbeat_interval : Z) (_trace : JSON) (sh : Shard) : Shard :=
  let sh := start_heartbeat heartbeat_interval sh in
  let sh := sh |> set_helseliaServerTrace _trace
               |> set_connecting false
               |> clear_connectTimeout in
  let sh := if held (sessionID sh) then resume sh
            else sh |> identify |> heartbeat false in
  emit (hello _trace) sh.

(** [if (this.listeners("rawWS").length > 0 || ...) { this.emit("rawWS", ...); }] *)
Definition emit_rawWS (packet : Packet) (sh : Shard) : Shard :=
  if rawWS_listeners (client sh) then emit (rawWS packet) sh else sh.

Definition onPacket (packet : Packet) : Cmd unit :=
  lift (emit_rawWS packet)
  >>> lift (onPacket_seq packet)
  >>> match body packet with
      | EVENT ev =>
          fun sh => if bool_decide (t ev ∈ disableEvents (options (client sh)))
                    then (sh, Ok tt)
                    else wsEvent packet ev sh
      | HEARTBEAT => lift (heartbeat false)
      | INVALID_SESSION =>
          lift (fun sh => sh |> set_seq 0
                             |> set_sessionID None
                             |> emit (warn "Invalid session, reidentifying!")
                             |> identify)
      | RECONNECT => lift (disconnect (Some r_auto) None)
      | HELLO heartbeat_interval _trace => lift (HELLO_case heartbeat_interval _trace)
      | HEARTBEAT_ACK =>
          lift (fun sh => sh |> set_lastHeartbeatAck true
                             |> set_lastHeartbeatReceived (Some (now sh))
                             |> set_latency (Some (now sh - default 0 (lastHeartbeatSent sh))))
      | OTHER _ => lift (emit (unknown packet))
      end.

(** **** Socket handlers *)

Definition with_code (c : Z) (e : Error) : Error := {| message := message e; code := Some c |}.

Definition _onWSClose (code : Z) (reason : string) (sh : Shard) : Shard :=
  let sh := emit (debug "WS disconnected: "
                    (Some (JObj [("code", JNum code); ("reason", JStr reason);
                                 ("status", JStr (status_name (status sh)))]))) sh in
  let err := if (code =? 0) || (code =? 1000) then None
             else Some (Err (pretty code +:+ ": " +:+ reason)) in
  if code =? 0 then
    sh |> emit (debug ("WS close: unknown code: " +:+ reason) None)
       |> disconnect (Some r_auto) err
  else
    let sh := emit (debug ((if code =? 1000 then "Clean" else "Unclean")
                           +:+ " WS close: " +:+ pretty code +:+ ": " +:+ reason) None) sh in
    let '(err, reconnect, sh) :=
      if code =? 4001 then (Some (Err "Gateway received invalid OP code"), r_auto, sh)
      else if code =? 4002 then (Some (Err "Gateway received invalid message"), r_auto, sh)
      else if code =? 4003 then
        (Some (Err "Not authenticated"), r_auto, set_sessionID None sh)
      else if code =? 4004 then
        (Some (Err "Authentication failed"), r_false,
         sh |> set_sessionID None
            |> emit (error (Err ("Invalid token: " +:+ _token sh))))
      else if code =? 4005 then (Some (Err "Already authenticated"), r_auto, sh)
      else if (code =? 4006) || (code =? 4009) then
        (Some (Err "Invalid session"), r_auto, set_sessionID None sh)
      else if code =? 4007 then
        (Some (Err ("Invalid sequence number: " +:+ pretty (seq sh))), r_auto, set_seq 0 sh)
      else if code =? 4008 then
        (Some (Err "Gateway connection was ratelimited"), r_auto, sh)
      else if code =? 4010 then
        (Some (Err "Invalid shard key"), r_false, set_sessionID None sh)
      else if code =? 4011 then
        (Some (Err "Shard has too many clubs (>2500)"), r_false, set_sessionID None sh)
      else if code =? 4013 then
        (Some (Err "Invalid intents specified"), r_false, set_sessionID None sh)
      else if code =? 4014 then
        (Some (Err "Disallowed intents specified"), r_false, set_sessionID None sh)
      else if code =? 1006 then (Some (Err "Connection reset by peer"), r_auto, sh)
      else if negb (code =? 1000) && nonempty reason then
        (Some (Err (pretty code +:+ ": " +:+ reason)), r_auto, sh)
      else (err, r_auto, sh) in
    disconnect (Some reconnect) (with_code code <$> err) sh.

Definition _onWSError (err : Error) : Shard -> Shard := emit (error err).

(** [_onWSMessage] once the frame is decoded: [onPacket] inside the [try]. *)
Definition _onWSMessage (packet : Packet) (sh : Shard) : Shard :=
  match onPacket packet sh with
  | (sh, Ok _) => sh
  | (sh, Throw err) => emit (error err) sh
  end.

Definition _onWSOpen (sh : Shard) : Shard :=
  sh |> set_status st_handshaking
     |> emit connect_
     |> set_lastHeartbeatAck true.

(** **** Connecting *)

Definition initializeWS (sh : Shard) : Shard :=
  if negb (nonempty (_token sh)) then
    disconnect None (Some (Err "Token not specified")) sh
  else
    let sh := set_status st_connecting sh in
    if compress (options (client sh)) && negb (ZlibSync (rt sh)) then
      sh |> emit (debug "Initializing zlib-sync-based compression" None)
         |> effect (Uncaught TypeError)
    else
      let sh := if compress (options (client sh))
                then sh |> emit (debug "Initializing zlib-sync-based compression" None)
                        |> effect ZlibInflateNew
                else sh in
      sh |> set_ws (Some CONNECTING)
         |> effect WsNew
         |> set_connectTimeout (Some (fresh sh))
         |> setTimer CbConnect (connectionTimeout (options (client sh))) false.

Definition connect (sh : Shard) : Shard :=
  match ws sh with
  | Some CONNECTING | Some OPEN | Some CLOSING =>
      emit (error (Err "Existing connection detected")) sh
  | Some CLOSED | None =>
      sh |> set_connectAttempts (connectAttempts sh + 1)
         |> set_connecting true
         |> initializeWS
  end.

(** [new Shard(id, client)]: every field is set by [hardReset]. *)
Definition new (id_ : Z) (c : Client) (r : Runtime) : Shard :=
  hardReset
    (mkShard id_ c r "" None st_disconnected 0 None false false false 0 0 None None None
             false None None None [] [] [] 0 [] 0 0 JUndefined JUndefined
             (Bucket.new 0 0 0) (Bucket.new 0 0 0) ∅ [] 0%nat 0%nat 0 []).

(** **** The event loop *)

Fixpoint find_timer (h : nat) (l : list (nat * Timer)) : option Timer :=
  match l with
  | [] => None
  | (i, x) :: l' => if Nat.eqb i h then Some x else find_timer h l'
  end.

(** The callback of a timer. *)
Definition callback (c : TimerCb) (sh : Shard) : Shard :=
  match c with
  | CbHeartbeat => heartbeat true sh
  | CbConnect =>
      if connecting sh
      then disconnect (Some r_auto) (Some (Err "Connection timeout")) sh
      else sh
  | CbRequestMembers nonce_ promise =>
      match get nonce_ (requestMembersPromise sh) with
      | Some r =>
          sh |> effect (Resolve promise (VMembers (members r)))
             |> set_requestMembersPromise (del nonce_ (requestMembersPromise sh))
      | None => effect (Uncaught TypeError) sh
      end
  | CbReconnect => effect ShardsConnect sh
  end.

(** Timer [h] comes due. *)
Definition fire (h : nat) (sh : Shard) : Shard :=
  match find_timer h (timers sh) with
  | None => sh
  | Some tm =>
      let sh := if repeat tm then sh else clearTimer h sh in
      callback (cb tm) sh
  end.

Definition wake_global (sh : Shard) : Shard :=
  let '(b, fids) := Bucket.wake (now sh) (globalBucket sh) in
  sh |> set_globalBucket b |> run fids.

Definition wake_presence (sh : Shard) : Shard :=
  let '(b, fids) := Bucket.wake (now sh) (presenceUpdateBucket sh) in
  sh |> set_presenceUpdateBucket b |> run fids.

(** What can happen to a shard: calls of its public methods, events of the
    socket it holds, timers coming due, and time passing. *)
Inductive Input :=
| call_connect
| call_disconnect (reconnect : Reconnect) (err : option Error)
| call_requestClubMembers (clubID : JSON) (o : option RequestOptions)
| ws_on_open
| ws_on_message (packet : Packet)
| ws_on_close (code : Z) (reason : string)
| ws_on_error (err : Error)
| timer (h : nat)
| bucket_wake (presence_bucket : bool)
| elapse (ms : Z).

(** The socket delivers "open" once while connecting, and "message" while
    it is open; after "close" its [readyState] is [CLOSED]. *)
Definition step (i : Input) (sh : Shard) : Shard :=
  match i with
  | call_connect => connect sh
  | call_disconnect r err => disconnect (Some r) err sh
  | call_requestClubMembers clubID o =>
      match requestClubMembers clubID o sh with
      | (sh, Ok _) => sh
      | (sh, Throw e) => effect (Uncaught e) sh
      end
  | ws_on_open =>
      match ws sh with
      | Some CONNECTING => sh |> set_ws (Some OPEN) |> _onWSOpen
      | _ => sh
      end
  | ws_on_message packet =>
      match ws sh with
      | Some OPEN => _onWSMessage packet sh
      | _ => sh
      end
  | ws_on_close code_ reason =>
      match ws sh with
      | Some _ => sh |> set_ws (Some CLOSED) |> _onWSClose code_ reason
      | None => sh
      end
  | ws_on_error err =>
      match ws sh with
      | Some _ => _onWSError err sh
      | None => sh
      end
  | timer h => fire h sh
  | bucket_wake true => wake_presence sh
  | bucket_wake false => wake_global sh
  | elapse ms => set_now (now sh + Z.max 0 ms) sh
  end.

Definition steps (l : list Input) (sh : Shard) : Shard :=
  fold_left (fun sh i => step i sh) l sh.

(** **** Reading the log *)

(** The frames written to the socket, oldest first. *)
Fixpoint sent (l : list Effect) : list Frame :=
  match l with
  | [] => []
  | WsSend f :: l' => f :: sent l'
  | _ :: l' => sent l'
  end.

(** The errors handed to [emit("error", ...)], oldest first. *)
Fixpoint errors (l : list Effect) : list Error :=
  match l with
  | [] => []
  | Emit (error e) :: l' => e :: errors l'
  | _ :: l' => errors l'
  end.


(** The values promise [p] was resolved with, oldest first. *)
Fixpoint resolved (p : nat) (l : list Effect) : list Value :=
  match l with
  | [] => []
  | Resolve q v :: l' => if Nat.eqb q p then v :: resolved p l' else resolved p l'
  | _ :: l' => resolved p l'
  end.

(** How often the shard asked the shard manager to connect it. *)
Fixpoint connects (l : list Effect) : nat :=
  match l with
  | [] => 0%nat
  | ShardsConnect :: l' => S (connects l')
  | _ :: l' => connects l'
  end.

(** **** Terms of the statements *)

(** Log entries that write no frame, emit no error and ask for no
    connect. *)
Definition quiet (l : list Effect) : Prop :=
  sent l = [] /\ errors l = [] /\ connects l = 0%nat.

(** [identify] has what it needs: compression is off, or zlib is there. *)
Definition zlib_ok (sh : Shard) : Prop :=
  compress (options (client sh)) && negb (ZlibSync (rt sh)) = false.

(** [this.seq] once [onPacket] has read [packet.s]. *)
Definition seq_after (packet : Packet) (sh : Shard) : Z :=
  match s packet with
  | Some n => if n =? 0 then seq sh else n
  | None => seq sh
  end.





(** [sh'] is [sh] after some sends: the log has grown, closures were
    stored and the buckets have moved; every other field is as it was. *)
Definition after_sends (sh sh' : Shard) : Prop :=
  exists l gb pb fs fr,
    sh' = sh |> set_log (log sh ++ l) |> set_globalBucket gb
             |> set_presenceUpdateBucket pb |> set_funcs fs |> set_fresh fr
    /\ (fresh sh <= fr)%nat
    /\ errors l = [] /\ connects l = 0%nat /\ (forall p, resolved p l = []).

(** What a step leaves of the requests and timers that were there: the
    log only grows, a request keeps its entry unless its nonce is drawn
    again, and a handle already handed out keeps its timer. *)
Definition keeps_requests (sh sh' : Shard) : Prop :=
  (exists l, log sh' = log sh ++ l)
  /\ (forall k, k <> nonce (rt sh) (draws sh) ->
        get k (requestMembersPromise sh') = get k (requestMembersPromise sh))
  /\ (forall h, (h < fresh sh)%nat -> find_timer h (timers sh') = find_timer h (timers sh)).

(** Handles are handed out in order: every armed timer and every pending
    member request carries handles below [fresh]. *)
Definition handles_fresh (sh : Shard) : Prop :=
  (forall h tm, In (h, tm) (timers sh) -> (h < fresh sh)%nat)
  /\ (forall k r, In (k, r) (requestMembersPromise sh) ->
        (timeout r < fresh sh)%nat /\ (res r < fresh sh)%nat).

(** The reconnect delay, current and armed, is at most 30 seconds. *)
Definition backoff_bounded (sh : Shard) : Prop :=
  reconnectInterval sh <= 30000
  /\ (forall h tm, In (h, tm) (timers sh) -> cb tm = CbReconnect -> delay tm <= 30000).

(** What every step of the event loop keeps. *)
Definition invariant (sh : Shard) : Prop := handles_fresh sh /\ backoff_bounded sh.

(** Every pending member request has its timeout armed, and the handles
    the shard keeps for its heartbeat and its connection timeout belong to
    timers of that kind, if to any. *)
Definition timers_owned (sh : Shard) : Prop :=
  (forall k rq, get k (requestMembersPromise sh) = Some rq ->
     exists ms, find_timer (timeout rq) (timers sh)
                = Some {| cb := CbRequestMembers k (res rq); delay := ms; repeat := false |})
  /\ (forall h, heartbeatInterval sh = Some h ->
        (h < fresh sh)%nat
        /\ forall tm, find_timer h (timers sh) = Some tm -> cb tm = CbHeartbeat)
  /\ (forall h, connectTimeout sh = Some h ->
        (h < fresh sh)%nat
        /\ forall tm, find_timer h (timers sh) = Some tm -> cb tm = CbConnect).

(** The length that [getAllUsersLength] and [clubSyncQueueLength] keep for
    a batch of ids: 1, and 3 more than its length for each id. *)
Definition batch_length (q : list string) : Z :=
  fold_left (fun n clubID => n + (Z.of_nat (String.length clubID) + 3)) q 1.

(** The club ids that the SYNC_CLUB frames of a list carry, in order. *)
Definition synced (fs : list Frame) : list string :=
  flat_map (fun f =>
              if op f =? GatewayOPCodes.SYNC_CLUB then
                match d f with
                | JArr ids => flat_map (fun x => match x with JStr c => [c] | _ => [] end) ids
                | _ => []
                end
              else []) fs.

(** Member [uid] is in the cache of club [clubID]. *)
Definition cached (uid clubID : string) (sh : Shard) : Prop :=
  is_Some (clubs (client sh) !! clubID ≫= fun ms => ms !! uid).


(** The HEARTBEAT frames among the frames written, oldest first. *)
Definition heartbeats (l : list Effect) : list Frame :=
  List.filter (fun f => op f =? GatewayOPCodes.HEARTBEAT) (sent l).




(** What [reset] settles: every pending request, with its [received]. *)
Definition resolutions (l : list (string * MemberRequest)) : list Effect :=
  map (fun e => Resolve (res e.2) (VNumber (received e.2))) l.

(** The timers left when those of the pending requests are cleared. *)
Definition drop_all (l : list (string * MemberRequest)) (tm : list (nat * Timer))
  : list (nat * Timer) :=
  fold_left (fun tm e => drop_timer (timeout e.2) tm) l tm.
End Shard.

(** ** VoiceConnectionManager *)

Module VoiceConnectionManager.
Import Js.

(** *** Data *)

Record Error := { message : string }.

(** The closures the manager attaches to a voice connection with [once].
    [group] tells apart the closures of different calls; a [Join*] handler
    belongs to a [join] on a live session and settles promise [group], a
    [Pending*] handler belongs to a [voiceServerUpdate] for [club]. *)
Inductive HandlerKind :=
| JoinReady | JoinDisconnect | JoinError
| PendingReady (club : string) | PendingDisconnect (club : string)
| PendingError (club : string).

Record Handler := { group : nat; kind : HandlerKind }.

(** Modelled from the spec: [lib/voice/VoiceConnection.js] is not part of
    the sources at hand.  A voice session shows whether it has a socket
    ([ws]), whether it is [ready], its [channelID], and the one-shot
    listeners attached to its "ready", "disconnect" and "error" events. *)
Record VoiceConnection := {
  ws : bool;
  ready : bool;
  channelID : option string;
  listeners : list (string * Handler)
}.

Definition set_listeners (v : list (string * Handler)) (c : VoiceConnection) : VoiceConnection :=
  {| ws := ws c; ready := ready c; channelID := channelID c; listeners := v |}.

(** The join options the manager reads. *)
Record JoinOptions := { opusOnly : JSON; shared : JSON }.

(** An entry of [pendingClubs]. *)
Record Pending := {
  p_channelID : string;
  options : JoinOptions;
  res : nat;                   (* the promise [res] and [rej] settle *)
  timeout : option nat;
  waiting : bool
}.

(** The [data] of a VOICE_SERVER_UPDATE as the shard forwards it. *)
Record ServerUpdate := {
  club_id : string;
  endpoint : string;
  token : string;
  session_id : option string;
  user_id : string;
  shard : Z
}.

Inductive Effect :=
| Construct (club : string) (shard_ : Z) (opusOnly_ shared_ : JSON) (* new this.baseObject(...) *)
| Connect (club : string) (channel : option string) (data : ServerUpdate) (* connection.connect(...) *)
| SwitchChannel (club channel : string)
| Disconnect (club : string)
| Destroy (club : string)
| Resolve (promise : nat) (club : string)     (* res(connection) *)
| Reject (promise : nat) (err : Error).       (* rej(err) *)

(** The manager: the collection of sessions by club id, the pending joins,
    and, as for the shard, the armed timers ([handle], [delay], club and
    promise of the callback), the next free handle and the log. *)
#[projections(primitive)]
Record Manager := mkManager {
  connections : gmap string VoiceConnection;
  pendingClubs : gmap string Pending;
  timers : list (nat * (Z * string * nat));
  fresh : nat;
  log : list Effect
}.

Definition set_connections (v : gmap string VoiceConnection) (m : Manager) : Manager :=
  mkManager v (pendingClubs m) (timers m) (fresh m) (log m).
Definition set_pendingClubs (v : gmap string Pending) (m : Manager) : Manager :=
  mkManager (connections m) v (timers m) (fresh m) (log m).
Definition set_timers (v : list (nat * (Z * string * nat))) (m : Manager) : Manager :=
  mkManager (connections m) (pendingClubs m) v (fresh m) (log m).
Definition set_fresh (v : nat) (m : Manager) : Manager :=
  mkManager (connections m) (pendingClubs m) (timers m) v (log m).
Definition set_log (v : list Effect) (m : Manager) : Manager :=
  mkManager (connections m) (pendingClubs m) (timers m) (fresh m) v.

Notation "x |> f" := (f x) (at level 68, left associativity, only parsing).

Definition effect (e : Effect) (m : Manager) : Manager := set_log (log m ++ [e]) m.

(** [new VoiceConnectionManager()] *)
Definition new : Manager := mkManager ∅ ∅ [] 0%nat [].

Fixpoint drop_timer {A} (h : nat) (l : list (nat * A)) : list (nat * A) :=
  match l with
  | [] => []
  | (i, x) :: l' => if Nat.eqb i h then drop_timer h l' else (i, x) :: drop_timer h l'
  end.

Fixpoint find_timer {A} (h : nat) (l : list (nat * A)) : option A :=
  match l with
  | [] => None
  | (i, x) :: l' => if Nat.eqb i h then Some x else find_timer h l'
  end.

Definition clearTimeout (h : nat) (m : Manager) : Manager :=
  set_timers (drop_timer h (timers m)) m.

(** [connection.once(event, handler)] *)
Definition once (club event : string) (h : Handler) (m : Manager) : Manager :=
  match connections m !! club with
  | Some c =>
      set_connections (<[club := set_listeners (listeners c ++ [(event, h)]) c]> (connections m)) m
  | None => m
  end.

Definition same_handler (a b : Handler) : bool :=
  Nat.eqb (group a) (group b)
  && match kind a, kind b with
     | JoinReady, JoinReady | JoinDisconnect, JoinDisconnect | JoinError, JoinError
     | PendingReady _, PendingReady _ | PendingDisconnect _, PendingDisconnect _
     | PendingError _, PendingError _ => true
     | _, _ => false
     end.

Fixpoint remove_first (event : string) (h : Handler) (l : list (string * Handler))
  : list (string * Handler) :=
  match l with
  | [] => []
  | (e, x) :: l' =>
      if (e =? event)%string && same_handler x h then l'
      else (e, x) :: remove_first event h l'
  end.

(** [connection.removeListener(event, handler)] *)
Definition removeListener (club event : string) (h : Handler) (m : Manager) : Manager :=
  match connections m !! club with
  | Some c =>
      set_connections (<[club := set_listeners (remove_first event h (listeners c)) c]> (connections m)) m
  | None => m
  end.

(** *** join *)

(** [join(clubID, channelID, options)]; the value returned is the promise. *)
Definition join (clubID channelID_ : string) (o : option JoinOptions) (m : Manager)
  : Manager * nat :=
  let promise := fresh m in
  let m := set_fresh (S promise) m in
  match connections m !! clubID with
  | Some {| ws := true; ready := ready_ |} =>
      let m := effect (SwitchChannel clubID channelID_) m in
      if ready_ then (effect (Resolve promise clubID) m, promise)
      else
        (m |> once clubID "ready" {| group := promise; kind := JoinReady |}
           |> once clubID "disconnect" {| group := promise; kind := JoinDisconnect |}
           |> once clubID "error" {| group := promise; kind := JoinError |},
         promise)
  | _ =>
      let h := fresh m in
      (m |> set_timers (timers m ++ [(h, (10000, clubID, promise))])
         |> set_fresh (S h)
         |> set_pendingClubs
              (<[clubID := {| p_channelID := channelID_;
                              options := default {| opusOnly := JUndefined; shared := JUndefined |} o;
                              res := promise;
                              timeout := Some h;
                              waiting := false |}]> (pendingClubs m)),
       promise)
  end.

(** The callback of the timer that [join] arms. *)
Definition join_timeout (clubID : string) (promise : nat) (m : Manager) : Manager :=
  m |> set_pendingClubs (delete clubID (pendingClubs m))
    |> effect (Reject promise {| message := "Voice connection timeout" |}).

(** Timer [h] comes due. *)
Definition fire (h : nat) (m : Manager) : Manager :=
  match find_timer h (timers m) with
  | Some (_, clubID, promise) => m |> clearTimeout h |> join_timeout clubID promise
  | None => m
  end.

(** *** voiceServerUpdate *)

Definition voiceServerUpdate (data : ServerUpdate) (m : Manager) : Manager :=
  let m := match pendingClubs m !! club_id data with
           | Some ({| timeout := Some h |} as p) =>
               m |> clearTimeout h
                 |> set_pendingClubs
                      (<[club_id data := {| p_channelID := p_channelID p; options := options p;
                                            res := res p; timeout := None;
                                            waiting := waiting p |}]> (pendingClubs m))
           | _ => m
           end in
  let found :=
    match connections m !! club_id data with
    | Some c => Some (c, m)
    | None =>
        match pendingClubs m !! club_id data with
        | None => None
        | Some p =>
            let c := {| ws := false; ready := false; channelID := None; listeners := [] |} in
            Some (c, m |> effect (Construct (club_id data) (shard data)
                                    (opusOnly (options p)) (shared (options p)))
                       |> set_connections (<[club_id data := c]> (connections m)))
        end
    end in
  match found with
  | None => m
  | Some (c, m) =>
      let channel := match pendingClubs m !! club_id data with
                     | Some p => Some (p_channelID p)
                     | None => channelID c
                     end in
      let m := effect (Connect (club_id data) channel data) m in
      match pendingClubs m !! club_id data with
      | None => m
      | Some p =>
          if waiting p then m
          else
            let g := fresh m in
            m |> set_fresh (S g)
              |> set_pendingClubs
                   (<[club_id data := {| p_channelID := p_channelID p; options := options p;
                                         res := res p; timeout := timeout p;
                                         waiting := true |}]> (pendingClubs m))
              |> once (club_id data) "ready" {| group := g; kind := PendingReady (club_id data) |}
              |> once (club_id data) "disconnect"
                   {| group := g; kind := PendingDisconnect (club_id data) |}
              |> once (club_id data) "error" {| group := g; kind := PendingError (club_id data) |}
      end
  end.

(** *** The handlers *)

(** One of the handlers runs; [err] is the argument of an "error" event and
    [on] the club of the connection the handler is attached to. *)
Definition handle (on : string) (h : Handler) (err : Error) (m : Manager) : Manager :=
  let other k := {| group := group h; kind := k |} in
  let settle club (how : nat -> Effect) m :=
    match pendingClubs m !! club with
    | Some p => m |> effect (how (res p)) |> set_pendingClubs (delete club (pendingClubs m))
    | None => m
    end in
  match kind h with
  | JoinDisconnect =>
      m |> removeListener on "ready" (other JoinReady)
        |> removeListener on "error" (other JoinError)
        |> effect (Reject (group h) {| message := "Disconnected" |})
  | JoinReady =>
      m |> removeListener on "disconnect" (other JoinDisconnect)
        |> removeListener on "error" (other JoinError)
        |> effect (Resolve (group h) on)
  | JoinError =>
      m |> removeListener on "disconnect" (other JoinDisconnect)
        |> removeListener on "ready" (other JoinReady)
        |> effect (Disconnect on)
        |> effect (Reject (group h) err)
  | PendingDisconnect club =>
      m |> removeListener club "ready" (other (PendingReady club))
        |> removeListener club "error" (other (PendingError club))
        |> settle club (fun p => Reject p {| message := "Disconnected" |})
  | PendingReady club =>
      m |> removeListener club "disconnect" (other (PendingDisconnect club))
        |> removeListener club "error" (other (PendingError club))
        |> settle club (fun p => Resolve p club)
  | PendingError club =>
      let m := m |> removeListener club "disconnect" (other (PendingDisconnect club))
                 |> removeListener club "ready" (other (PendingReady club)) in
      let m := match connections m !! club with
               | Some _ => effect (Disconnect club) m
               | None => m
               end in
      settle club (fun p => Reject p err) m
  end.

(** The session of [club] emits [event]: its one-shot listeners for the
    event are detached and run in the order they were attached. *)
Definition session_emits (club event : string) (err : Error) (m : Manager) : Manager :=
  match connections m !! club with
  | None => m
  | Some c =>
      let due := List.filter (fun l => (l.1 =? event)%string) (listeners c) in
      let keep := List.filter (fun l => negb (l.1 =? event)%string) (listeners c) in
      let m := set_connections (<[club := set_listeners keep c]> (connections m)) m in
      fold_left (fun m l => handle club l.2 err m) due m
  end.

(** [leave(clubID)] *)
Definition leave (clubID : string) (m : Manager) : Manager :=
  match connections m !! clubID with
  | None => m
  | Some _ =>
      m |> effect (Disconnect clubID)
        |> effect (Destroy clubID)
        |> set_connections (delete clubID (connections m))
  end.


(** *** The event loop *)

(** What can happen to a manager: calls of [join] and [leave], a
    VOICE_SERVER_UPDATE that the shard forwards, a timer coming due, a
    session emitting one of its events, and a session changing its own
    fields. *)
Inductive Input :=
| call_join (clubID channelID_ : string) (o : option JoinOptions)
| call_leave (clubID : string)
| on_update (data : ServerUpdate)
| timer (h : nat)
| session_event (club event : string) (err : Error)
| session_change (club : string) (ws_ ready_ : bool) (channel : option string).

Definition step (i : Input) (m : Manager) : Manager :=
  match i with
  | call_join clubID channelID_ o => (join clubID channelID_ o m).1
  | call_leave clubID => leave clubID m
  | on_update data => voiceServerUpdate data m
  | timer h => fire h m
  | session_event club event err => session_emits club event err m
  | session_change club ws_ ready_ channel =>
      match connections m !! club with
      | Some c =>
          set_connections
            (<[club := {| ws := ws_; ready := ready_; channelID := channel;
                          listeners := listeners c |}]> (connections m)) m
      | None => m
      end
  end.

Definition steps (l : list Input) (m : Manager) : Manager :=
  fold_left (fun m i => step i m) l m.

(** *** Terms of the statements *)


(** The listeners that the closures of group [g] still have on the session
    of [clubID]. *)
Definition listeners_of (g : nat) (clubID : string) (m : Manager) : list (string * Handler) :=
  match connections m !! clubID with
  | Some c => List.filter (fun l => Nat.eqb (group l.2) g) (listeners c)
  | None => []
  end.

(** Handles not handed out yet are not armed. *)
Definition handles_fresh (m : Manager) : Prop :=
  forall h, (fresh m <= h)%nat -> find_timer h (timers m) = None.



(** What promise [p] was settled with in a log, oldest first. *)
Fixpoint settled (p : nat) (l : list Effect) : list Effect :=
  match l with
  | [] => []
  | Resolve q c :: l' =>
      if Nat.eqb q p then Resolve q c :: settled p l' else settled p l'
  | Reject q e :: l' =>
      if Nat.eqb q p then Reject q e :: settled p l' else settled p l'
  | _ :: l' => settled p l'
  end.

Definition pending_club (k : HandlerKind) : option string :=
  match k with
  | PendingReady c | PendingDisconnect c | PendingError c => Some c
  | _ => None
  end.

(** Promise [q] is one that a listener attached in [m] settles when it
    runs: its own promise for a listener of [join], the promise of the
    club's pending entry for a listener of [voiceServerUpdate]. *)
Definition settles (hd : Handler) (m : Manager) (q : nat) : Prop :=
  match pending_club (kind hd) with
  | None => group hd = q
  | Some club => exists p, pendingClubs m !! club = Some p /\ res p = q
  end.





End VoiceConnectionManager.

(** ** Scenarios *)

(** Concrete clients, shards and packets on which the statements below are
    exercised. *)
Module Scenario.
Import Js Shard.

Definition options_ : Options :=
  {| autoreconnect := true; compress := false; connectionTimeout := 30000;
     requestTimeout := 15000; maxResumeAttempts := 10; maxShards := 1;
     largeThreshold := 250; clubSubscriptions := true; intents := Some 515;
     disableEvents := [] |}.

(** A bot client that has club "A" cached, with no members yet. *)
Definition client_ : Client :=
  {| options := options_; token := "Bot X";
     client_presence := JObj [("status", JStr "online")];
     clubs := {["A" := ∅]}; unavailableClubs := ∅; rawWS_listeners := false |}.

Definition runtime : Runtime :=
  {| ZlibSync := false; Erlpack := false; GATEWAY_VERSION := 6;
     Intents_clubMembers := 2; platform := "linux";
     nonce := fun k => ("1700000000000.n" +:+ pretty k)%string;
     scaled := fun _ x => 2 * x |}.

Definition packet (b : Body) : Packet := {| s := None; body := b |}.
Definition dispatch (n : Z) (ev : Dispatch) : Packet := {| s := Some n; body := EVENT ev |}.

(** A shard right after [new Shard(0, client)]. *)
Definition fresh_shard : Shard := new 0 client_ runtime.

(** [connect()], then the socket opens. *)
Definition opening : list Input := [call_connect; ws_on_open].
Definition open_shard : Shard := steps opening fresh_shard.

(** The handshake of a first connection: HELLO, IDENTIFY, READY. *)
Definition handshake : list Input :=
  opening ++ [ws_on_message (packet (HELLO 41250 JNull));
              ws_on_message (dispatch 1 (READY "abc" true JNull))].
Definition ready_shard : Shard := steps handshake fresh_shard.

(** The connection is lost and replaced; the new socket is open and the
    session of the old one is still held. *)
Definition reconnecting : list Input :=
  handshake ++ [ws_on_close 1006 ""; call_connect; ws_on_open].
Definition reopened_shard : Shard := steps reconnecting fresh_shard.

(** A ready shard with a member request for club "A" in flight that has
    received one chunk of two, holding member "u1". *)
Definition chunk (i n : Z) (ms : list string) : Chunk :=
  {| club_id := "A"; chunk_members := ms; presences := None;
     chunk_nonce := "1700000000000.n0"; chunk_index := i; chunk_count := n |}.

Definition requesting : list Input :=
  handshake ++ [call_requestClubMembers (JStr "A") None;
                ws_on_message (dispatch 2 (CLUB_MEMBERS_CHUNK (chunk 0 2 ["u1"])))].
Definition requesting_shard : Shard := steps requesting fresh_shard.

(** A heartbeat went unanswered and the gateway greets again on the same
    socket: the shard resumes, with the acknowledgement still missing. *)
Definition greeted_twice : list Input :=
  handshake ++ [timer 1; ws_on_message (packet (HELLO 41250 JNull))].
Definition resuming_unacknowledged : Shard := steps greeted_twice fresh_shard.


(** A ready shard that has used up the unreserved budget of its global
    bucket: two sends for the handshake, 113 member requests. *)
Definition busy : list Input :=
  handshake ++ List.repeat (call_requestClubMembers (JStr "A") None) 113.
Definition busy_shard : Shard := steps busy fresh_shard.



Definition update_g : VoiceConnectionManager.ServerUpdate :=
  {| VoiceConnectionManager.club_id := "g";
     VoiceConnectionManager.endpoint := "voice.example";
     VoiceConnectionManager.token := "t";
     VoiceConnectionManager.session_id := Some "abc";
     VoiceConnectionManager.user_id := "u";
     VoiceConnectionManager.shard := 0 |}.
End Scenario.

(** * Properties of the voice connection manager *)

Module VoiceFacts.
Import Js VoiceConnectionManager.

Lemma timer_gone_after_drop {A} (h : nat) (l : list (nat * A)) :
  find_timer h (drop_timer h l) = None.
Proof.
  induction l as [|[i x] l IH]; simpl; [reflexivity|].
  destruct (Nat.eqb i h) eqn:E; simpl; rewrite ?E; exact IH.
Qed.



Lemma pendingClubs_once club ev h m : pendingClubs (once club ev h m) = pendingClubs m.
Proof. unfold once. destruct (connections m !! club); reflexivity. Qed.


(** C10.  A VOICE_SERVER_UPDATE for a club that has neither a session nor a
    pending join changes nothing: no session is constructed, nothing is
    connected, no listener is attached, and the manager is as it was. *)
Theorem voiceServerUpdate_unmatched_noop data m :
  connections m !! club_id data = None ->
  pendingClubs m !! club_id data = None ->
  voiceServerUpdate data m = m.
Proof.
  intros Hc Hp. unfold voiceServerUpdate. rewrite Hp, Hc, Hp. reflexivity.
Qed.

Lemma voiceServerUpdate_unmatched_noop_witness :
  connections new !! club_id Scenario.update_g = None
  /\ pendingClubs new !! club_id Scenario.update_g = None
  /\ voiceServerUpdate Scenario.update_g new = new.
Proof.
  split; [reflexivity|]. split; [reflexivity|].
  apply (voiceServerUpdate_unmatched_noop Scenario.update_g new); reflexivity.
Defined.


Tactic Notation "mgr_simpl" "in" hyp(H) :=
  unfold effect, clearTimeout in H;
  cbn [connections pendingClubs timers fresh log set_connections set_pendingClubs
       set_timers set_fresh set_log effect clearTimeout fst snd
       ws ready channelID listeners set_listeners
       p_channelID options res timeout waiting group kind] in H.
































(** ** A pending join and its timer along a run *)











End VoiceFacts.

(** * Properties of the shard *)

Module ShardFacts.
Import Js Shard.

(** Compute field reads through field updates and log appends; every
    other definition stays folded. *)
Ltac sh_simpl :=
  cbn [
      id client rt _token ws status seq sessionID connecting ready preReady
      connectAttempts reconnectInterval heartbeatInterval connectTimeout
      clubCreateTimeout lastHeartbeatAck lastHeartbeatSent lastHeartbeatReceived
      latency requestMembersPromise getAllUsersCount getAllUsersQueue
      getAllUsersLength clubSyncQueue clubSyncQueueLength unsyncedClubs presence
      helseliaServerTrace globalBucket presenceUpdateBucket funcs timers fresh draws
      now log set_client set__token set_ws set_status set_seq set_sessionID
      set_connecting set_ready set_preReady set_connectAttempts set_reconnectInterval
      set_heartbeatInterval set_connectTimeout set_clubCreateTimeout
      set_lastHeartbeatAck set_lastHeartbeatSent set_lastHeartbeatReceived set_latency
      set_requestMembersPromise set_getAllUsersCount set_getAllUsersQueue
      set_getAllUsersLength set_clubSyncQueue set_clubSyncQueueLength
      set_unsyncedClubs set_presence set_helseliaServerTrace set_globalBucket
      set_presenceUpdateBucket set_funcs set_timers set_fresh set_draws set_now
      set_log effect emit super_emit setTimer clearTimer options token client_presence
      clubs unavailableClubs rawWS_listeners set_token set_clubs].

Tactic Notation "sh_simpl" "in" hyp(H) :=
  cbn [
      id client rt _token ws status seq sessionID connecting ready preReady
      connectAttempts reconnectInterval heartbeatInterval connectTimeout
      clubCreateTimeout lastHeartbeatAck lastHeartbeatSent lastHeartbeatReceived
      latency requestMembersPromise getAllUsersCount getAllUsersQueue
      getAllUsersLength clubSyncQueue clubSyncQueueLength unsyncedClubs presence
      helseliaServerTrace globalBucket presenceUpdateBucket funcs timers fresh draws
      now log set_client set__token set_ws set_status set_seq set_sessionID
      set_connecting set_ready set_preReady set_connectAttempts set_reconnectInterval
      set_heartbeatInterval set_connectTimeout set_clubCreateTimeout
      set_lastHeartbeatAck set_lastHeartbeatSent set_lastHeartbeatReceived set_latency
      set_requestMembersPromise set_getAllUsersCount set_getAllUsersQueue
      set_getAllUsersLength set_clubSyncQueue set_clubSyncQueueLength
      set_unsyncedClubs set_presence set_helseliaServerTrace set_globalBucket
      set_presenceUpdateBucket set_funcs set_timers set_fresh set_draws set_now
      set_log effect emit super_emit setTimer clearTimer options token client_presence
      clubs unavailableClubs rawWS_listeners set_token set_clubs] in H.

Tactic Notation "sh_simpl" "in" "*" :=
  cbn [
      id client rt _token ws status seq sessionID connecting ready preReady
      connectAttempts reconnectInterval heartbeatInterval connectTimeout
      clubCreateTimeout lastHeartbeatAck lastHeartbeatSent lastHeartbeatReceived
      latency requestMembersPromise getAllUsersCount getAllUsersQueue
      getAllUsersLength clubSyncQueue clubSyncQueueLength unsyncedClubs presence
      helseliaServerTrace globalBucket presenceUpdateBucket funcs timers fresh draws
      now log set_client set__token set_ws set_status set_seq set_sessionID
      set_connecting set_ready set_preReady set_connectAttempts set_reconnectInterval
      set_heartbeatInterval set_connectTimeout set_clubCreateTimeout
      set_lastHeartbeatAck set_lastHeartbeatSent set_lastHeartbeatReceived set_latency
      set_requestMembersPromise set_getAllUsersCount set_getAllUsersQueue
      set_getAllUsersLength set_clubSyncQueue set_clubSyncQueueLength
      set_unsyncedClubs set_presence set_helseliaServerTrace set_globalBucket
      set_presenceUpdateBucket set_funcs set_timers set_fresh set_draws set_now
      set_log effect emit super_emit setTimer clearTimer options token client_presence
      clubs unavailableClubs rawWS_listeners set_token set_clubs] in *.

(** The same by value, for a shard given by its fields. *)
Ltac sh_norm :=
  cbv beta iota zeta delta [
      id client rt _token ws status seq sessionID connecting ready preReady
      connectAttempts reconnectInterval heartbeatInterval connectTimeout
      clubCreateTimeout lastHeartbeatAck lastHeartbeatSent lastHeartbeatReceived
      latency requestMembersPromise getAllUsersCount getAllUsersQueue
      getAllUsersLength clubSyncQueue clubSyncQueueLength unsyncedClubs presence
      helseliaServerTrace globalBucket presenceUpdateBucket funcs timers fresh draws
      now log set_client set__token set_ws set_status set_seq set_sessionID
      set_connecting set_ready set_preReady set_connectAttempts set_reconnectInterval
      set_heartbeatInterval set_connectTimeout set_clubCreateTimeout
      set_lastHeartbeatAck set_lastHeartbeatSent set_lastHeartbeatReceived set_latency
      set_requestMembersPromise set_getAllUsersCount set_getAllUsersQueue
      set_getAllUsersLength set_clubSyncQueue set_clubSyncQueueLength
      set_unsyncedClubs set_presence set_helseliaServerTrace set_globalBucket
      set_presenceUpdateBucket set_funcs set_timers set_fresh set_draws set_now
      set_log effect emit super_emit setTimer clearTimer options token client_presence
      clubs unavailableClubs rawWS_listeners set_token set_clubs].

(** ** Reading the log *)

Lemma sent_app l1 l2 : sent (l1 ++ l2) = sent l1 ++ sent l2.
Proof.
  induction l1 as [|e l1 IH]; simpl; [reflexivity|].
  destruct e; simpl; rewrite ?IH; reflexivity.
Qed.

Lemma errors_app l1 l2 : errors (l1 ++ l2) = errors l1 ++ errors l2.
Proof.
  induction l1 as [|e l1 IH]; simpl; [reflexivity|].
  destruct e as [[]| | | | | | | | | | |]; simpl; rewrite ?IH; reflexivity.
Qed.


Lemma resolved_app p l1 l2 : resolved p (l1 ++ l2) = resolved p l1 ++ resolved p l2.
Proof.
  induction l1 as [|e l1 IH]; simpl; [reflexivity|].
  destruct e; simpl; rewrite ?IH; try reflexivity.
  destruct (Nat.eqb promise p); simpl; rewrite ?IH; reflexivity.
Qed.

(** ** Objects *)

Lemma get_del_eq {V} k (o : list (string * V)) : get k (del k o) = None.
Proof.
  induction o as [|[k' v] o IH]; simpl; [reflexivity|].
  destruct (k' =? k)%string eqn:E; simpl; rewrite ?E; exact IH.
Qed.

Lemma get_del_ne {V} k k' (o : list (string * V)) :
  k <> k' -> get k (del k' o) = get k o.
Proof.
  intros Hne. induction o as [|[k0 v] o IH]; simpl; [reflexivity|].
  destruct (k0 =? k')%string eqn:E; simpl.
  - apply String.eqb_eq in E. subst k0.
    destruct (k' =? k)%string eqn:E'; [|exact IH].
    apply String.eqb_eq in E'. congruence.
  - destruct (k0 =? k)%string; [reflexivity | exact IH].
Qed.

Lemma get_set_eq {V} k (v : V) o : get k (set k v o) = Some v.
Proof.
  induction o as [|[k' v'] o IH]; simpl.
  - rewrite String.eqb_refl. reflexivity.
  - destruct (k' =? k)%string eqn:E; simpl; rewrite ?E, ?String.eqb_refl; auto.
Qed.

Lemma get_set_ne {V} k k' (v : V) o : k <> k' -> get k (set k' v o) = get k o.
Proof.
  intros Hne. induction o as [|[k0 v0] o IH]; simpl.
  - destruct (k' =? k)%string eqn:E; [|reflexivity].
    apply String.eqb_eq in E. congruence.
  - destruct (k0 =? k')%string eqn:E; simpl.
    + apply String.eqb_eq in E. subst k0.
      destruct (k' =? k)%string eqn:E'; [|reflexivity].
      apply String.eqb_eq in E'. congruence.
    + destruct (k0 =? k)%string; [reflexivity | exact IH].
Qed.

Lemma strip_token_no_token d_ : prop (strip_token d_) "token" = JUndefined \/
                                 truthy (prop (strip_token d_) "token") = false.
Proof.
  unfold strip_token. destruct (truthy (prop d_ "token")) eqn:E; [left | right; exact E].
  destruct d_; simpl in *; try reflexivity. rewrite get_del_eq. reflexivity.
Qed.

(** ** The send path *)

Lemma queue_has_room {T : Type} (n now_ : Z) (f : T) (prio : bool) (b : Bucket.t T) :
  1 <= n -> Bucket.has_room n b ->
  Bucket.queue now_ f prio b = (Bucket.take now_ b, [f])
  /\ Bucket.has_room (n - 1) (Bucket.take now_ b).
Proof.
  intros Hn (Hq & Ht & H0 & Hroom).
  destruct b as [lim itv rsv lr tk q to]; simpl in *; subst.
  unfold Bucket.queue, Bucket.check, Bucket.take, Bucket.has_room; simpl.
  destruct (lr + itv <=? now_); simpl.
  - replace (0 <? lim - rsv) with true by (symmetry; apply Z.ltb_lt; lia).
    simpl. split; [reflexivity | repeat split; lia].
  - replace (tk <? lim - rsv) with true by (symmetry; apply Z.ltb_lt; lia).
    simpl. split; [reflexivity | repeat split; lia].
Qed.

Lemma ws_open_inv sh : ws_open sh = true -> ws sh = Some OPEN.
Proof. unfold ws_open. destruct (ws sh) as [[]|]; congruence. Qed.

(** With the socket open and room in the global bucket, [sendWS] writes the
    frame at once. *)
Lemma sendWS_open op_ d_ prio sh :
  ws_open sh = true -> Bucket.has_room 1 (globalBucket sh) ->
  op_ <> GatewayOPCodes.STATUS_UPDATE ->
  sendWS op_ d_ prio sh = transmit op_ d_ sh.
Proof.
  intros Hopen Hroom Hop.
  unfold sendWS. rewrite Hopen.
  apply Z.eqb_neq in Hop. rewrite Hop.
  unfold queue_global. sh_simpl.
  destruct (queue_has_room 1 (now sh) (fresh sh) prio (globalBucket sh)) as [-> _];
    [lia | assumption |].
  unfold run, func, transmit, ws_open in *. cbn [fold_left]. sh_simpl.
  rewrite lookup_insert_eq. cbn [f_i f_op f_data f_waitFor].
  destruct (ws sh) as [[]|] eqn:Hws; try discriminate.
  change (1 <=? 0 + 1) with true. cbn [andb].
  destruct sh. sh_simpl in Hws. subst. sh_norm.
  rewrite !insert_insert_eq, <- app_assoc. reflexivity.
Qed.

Lemma identify_open sh :
  ws_open sh = true -> Bucket.has_room 1 (globalBucket sh) -> zlib_ok sh ->
  identify sh = transmit GatewayOPCodes.IDENTIFY (identify_payload sh) sh.
Proof.
  intros Hopen Hroom Hz. unfold identify. rewrite Hz.
  apply sendWS_open; [assumption | assumption | discriminate].
Qed.


Lemma sent_transmit op_ d_ sh :
  sent (log (transmit op_ d_ sh))
  = sent (log sh) ++ [{| etf := Erlpack (rt sh); op := op_; d := d_ |}].
Proof. unfold transmit. sh_simpl. rewrite sent_app. reflexivity. Qed.






(** ** The head of onPacket *)

(** What the rawWS event and the sequence bookkeeping add to the log. *)
Lemma emit_rawWS_frame packet sh :
  exists l, emit_rawWS packet sh = set_log (log sh ++ l) sh /\ sent l = [] /\ errors l = [].
Proof.
  unfold emit_rawWS. destruct (rawWS_listeners (client sh)).
  - eexists. split; [reflexivity|]. split; reflexivity.
  - exists []. rewrite app_nil_r. split; [reflexivity|]. split; reflexivity.
Qed.

Lemma onPacket_seq_frame packet sh :
  exists l, onPacket_seq packet sh = set_seq (seq_after packet sh) (set_log (log sh ++ l) sh)
            /\ sent l = [] /\ errors l = [].
Proof.
  unfold onPacket_seq, seq_after. destruct (s packet) as [n|].
  - destruct (n =? 0).
    + exists []. rewrite app_nil_r. split; [reflexivity|]. split; reflexivity.
    + match goal with |- context [if ?c then _ else _] => destruct c end.
      * eexists. split; [reflexivity|]. split; reflexivity.
      * exists []. rewrite app_nil_r. split; [reflexivity|]. split; reflexivity.
  - exists []. rewrite app_nil_r. split; [reflexivity|]. split; reflexivity.
Qed.

(** The two together: only [seq] and the log change. *)
Lemma prologue_frame packet sh :
  exists l, onPacket_seq packet (emit_rawWS packet sh)
            = set_seq (seq_after packet sh) (set_log (log sh ++ l) sh)
            /\ sent l = [] /\ errors l = [].
Proof.
  destruct (emit_rawWS_frame packet sh) as (l1 & -> & Hs1 & He1).
  destruct (onPacket_seq_frame packet (set_log (log sh ++ l1) sh)) as (l2 & -> & Hs2 & He2).
  exists (l1 ++ l2). unfold seq_after. sh_simpl. rewrite <- app_assoc.
  split; [reflexivity|]. rewrite sent_app, errors_app, Hs1, Hs2, He1, He2. auto.
Qed.

(** ** The pieces of HELLO *)


Lemma clear_connectTimeout_frame sh :
  exists tm, clear_connectTimeout sh = set_connectTimeout None (set_timers tm sh).
Proof.
  unfold clear_connectTimeout. destruct (connectTimeout sh); eexists; reflexivity.
Qed.


Lemma heartbeat_open sh :
  status sh <> st_resuming ->
  ws_open sh = true -> Bucket.has_room 1 (globalBucket sh) ->
  heartbeat false sh
  = transmit GatewayOPCodes.HEARTBEAT (JNum (seq sh)) (set_lastHeartbeatSent (Some (now sh)) sh).
Proof.
  intros Hst Hopen Hroom. unfold heartbeat.
  destruct (status sh); try congruence; cbn [andb];
    apply sendWS_open; try assumption; discriminate.
Qed.

(** ** reset and disconnect *)

(** Two states that differ in how the log is bracketed. *)
Ltac log_eq :=
  unfold effect, emit, super_emit, setTimer; sh_simpl;
  rewrite <- ?app_assoc; cbn [app]; reflexivity.

Lemma connects_app l1 l2 : connects (l1 ++ l2) = (connects l1 + connects l2)%nat.
Proof.
  induction l1 as [|e l1 IH]; simpl; [reflexivity|].
  destruct e; simpl; rewrite ?IH; reflexivity.
Qed.

Lemma quiet_nil : quiet [].
Proof. repeat split. Qed.

Lemma quiet_app l1 l2 : quiet l1 -> quiet l2 -> quiet (l1 ++ l2).
Proof.
  intros (H1 & H2 & H3) (H4 & H5 & H6). unfold quiet.
  rewrite sent_app, errors_app, connects_app, H1, H2, H3, H4, H5, H6. auto.
Qed.

Lemma quiet_resolutions l : quiet (resolutions l).
Proof. induction l; repeat split; simpl; try apply IHl. Qed.

Lemma resolved_resolutions p l :
  resolved p (resolutions l)
  = map (fun e => VNumber (received e.2)) (List.filter (fun e => Nat.eqb (res e.2) p) l).
Proof.
  induction l as [|e l IH]; simpl; [reflexivity|].
  destruct (Nat.eqb (res e.2) p); simpl; rewrite IH; reflexivity.
Qed.

Lemma In_drop_timer h x l : In x (drop_timer h l) -> In x l.
Proof.
  induction l as [|[i y] l IH]; simpl; [auto|].
  destruct (Nat.eqb i h); simpl; intuition.
Qed.

Lemma In_drop_all rs x l : In x (drop_all rs l) -> In x l.
Proof.
  revert l. induction rs as [|e rs IH]; simpl; intros l H; [exact H|].
  apply IH in H. eapply In_drop_timer, H.
Qed.

Lemma find_drop_timer h l : find_timer h (drop_timer h l) = None.
Proof.
  induction l as [|[i x] l IH]; simpl; [reflexivity|].
  destruct (Nat.eqb i h) eqn:E; simpl; rewrite ?E; exact IH.
Qed.

Lemma find_drop_none h h' l : find_timer h l = None -> find_timer h (drop_timer h' l) = None.
Proof.
  induction l as [|[i x] l IH]; simpl; [auto|].
  destruct (Nat.eqb i h) eqn:E; [discriminate|].
  intros H. destruct (Nat.eqb i h'); simpl; rewrite ?E; auto.
Qed.

Lemma find_drop_all_none h rs l : find_timer h l = None -> find_timer h (drop_all rs l) = None.
Proof.
  revert l. induction rs as [|e rs IH]; simpl; intros l H; [exact H|].
  apply IH, find_drop_none, H.
Qed.

Lemma find_drop_all (e : string * MemberRequest) rs l :
  In e rs -> find_timer (timeout e.2) (drop_all rs l) = None.
Proof.
  revert l. induction rs as [|e' rs IH]; simpl; intros l [].
  - subst e'. apply find_drop_all_none, find_drop_timer.
  - apply IH. assumption.
Qed.

Lemma find_timer_In h x l : find_timer h l = Some x -> In (h, x) l.
Proof.
  induction l as [|[i y] l IH]; simpl; [discriminate|].
  destruct (Nat.eqb i h) eqn:E.
  - apply Nat.eqb_eq in E. intros [= ->]. subst. auto.
  - auto.
Qed.

Lemma find_timer_not_In h x l : find_timer h l = None -> ~ In (h, x) l.
Proof.
  induction l as [|[i y] l IH]; simpl; [tauto|].
  destruct (Nat.eqb i h) eqn:E; [discriminate|].
  intros H [[= -> ->]|Hin]; [rewrite Nat.eqb_refl in E; discriminate | exact (IH H Hin)].
Qed.

Lemma reset_loop l sh :
  fold_left settle_request l sh
  = set_log (log sh ++ resolutions l) (set_timers (drop_all l (timers sh)) sh).
Proof.
  revert sh. induction l as [|e l IH]; intros sh.
  - simpl. rewrite app_nil_r. reflexivity.
  - simpl. rewrite IH. unfold settle_request. sh_simpl.
    rewrite <- app_assoc. reflexivity.
Qed.

(** [reset] in one piece: the fields it sets, the timers it clears and the
    promises it settles. *)
Lemma reset_eq sh :
  exists tm,
    reset sh =
    sh |> set_connecting false |> set_ready false |> set_preReady false
       |> set_requestMembersPromise []
       |> set_getAllUsersCount []
       |> set_getAllUsersQueue []
       |> set_getAllUsersLength 1
       |> set_clubSyncQueue []
       |> set_clubSyncQueueLength 1
       |> set_unsyncedClubs 0
       |> set_latency None
       |> set_lastHeartbeatAck true
       |> set_lastHeartbeatReceived None
       |> set_lastHeartbeatSent None
       |> set_status st_disconnected
       |> set_connectTimeout None
       |> set_timers tm
       |> set_log (log sh ++ resolutions (requestMembersPromise sh))
    /\ (forall x, In x tm -> In x (timers sh))
    /\ (forall e, In e (requestMembersPromise sh) -> find_timer (timeout e.2) tm = None).
Proof.
  unfold reset. rewrite reset_loop. sh_simpl.
  match goal with |- context [clear_connectTimeout ?b] =>
    destruct (clear_connectTimeout_frame b) as (tm' & Htm') end.
  unfold clear_connectTimeout in *. sh_simpl in Htm'. sh_simpl.
  destruct (connectTimeout sh) as [h|]; sh_simpl.
  - exists (drop_timer h (drop_all (requestMembersPromise sh) (timers sh))).
    split; [reflexivity|]. split.
    + intros x Hx. eapply In_drop_all, In_drop_timer, Hx.
    + intros e He. apply find_drop_none, find_drop_all, He.
  - exists (drop_all (requestMembersPromise sh) (timers sh)).
    split; [reflexivity|]. split.
    + intros x Hx. eapply In_drop_all, Hx.
    + intros e He. apply find_drop_all, He.
Qed.

Lemma stop_heartbeat_frame sh :
  exists tm,
    stop_heartbeat sh = set_heartbeatInterval None (set_timers tm sh)
    /\ (forall x, In x tm -> In x (timers sh)).
Proof.
  unfold stop_heartbeat. destruct (heartbeatInterval sh) as [h|] eqn:E.
  - eexists. split; [reflexivity|]. intros x. apply In_drop_timer.
  - exists (timers sh). split; [|auto].
    destruct sh. sh_simpl in E. subst. reflexivity.
Qed.

Lemma close_ws_frame rs r sh :
  exists l, close_ws rs (Some r) sh = set_log (log sh ++ l) sh /\ quiet l
            /\ forall p, resolved p l = [].
Proof.
  unfold close_ws.
  destruct rs; try (exists []; rewrite app_nil_r; repeat split; reflexivity);
    sh_simpl; destruct (reconnect_truthy r && held (sessionID sh));
    eexists [_; _]; (split; [log_eq | repeat split; reflexivity]).
Qed.

Lemma emit_error_eq err sh :
  emit_error err sh
  = set_log (log sh ++ match err with Some e => [Emit (error e)] | None => [] end) sh.
Proof. destruct err; simpl; rewrite ?app_nil_r; reflexivity. Qed.

Lemma invalidate_session_frame sh :
  exists l sid,
    invalidate_session sh = set_sessionID sid (set_log (log sh ++ l) sh)
    /\ quiet l /\ (forall p, resolved p l = [])
    /\ (sid = None \/ sid = sessionID sh).
Proof.
  unfold invalidate_session.
  match goal with |- context [if ?c then _ else _] => destruct c end.
  - eexists [_], None. split; [log_eq | repeat split; auto].
  - exists [], (sessionID sh). rewrite app_nil_r. repeat split; auto.
Qed.

(** Under [reconnect: "auto"] the last block keeps the session and the
    sequence, and with [autoreconnect] it asks for a connect at once or
    arms a timer that will. *)
Lemma reconnect_auto_frame sh :
  exists l tm fr ri dr,
    reconnect_or_reset (Some r_auto) sh
    = sh |> set_log (log sh ++ l) |> set_timers (timers sh ++ tm) |> set_fresh fr
         |> set_reconnectInterval ri |> set_draws dr
    /\ sent l = [] /\ errors l = [] /\ (forall p, resolved p l = [])
    /\ (autoreconnect (options (client sh)) = true ->
          (connects l = 1%nat /\ tm = [])
          \/ (connects l = 0%nat
              /\ tm = [(fresh sh, {| cb := CbReconnect; delay := reconnectInterval sh;
                                     repeat := false |})])).
Proof.
  unfold reconnect_or_reset.
  destruct (autoreconnect (options (client sh))).
  - destruct (held (sessionID sh)).
    + exists [Emit (debug ("Immediately reconnecting for potential resume | Attempt "
                           +:+ pretty (connectAttempts sh)) None); ShardsConnect],
        [], (fresh sh), (reconnectInterval sh), (draws sh).
      rewrite app_nil_r. split; [log_eq | repeat split; auto].
    + eexists [_], [_], _, _, _. split; [log_eq | repeat split; auto].
  - exists [], [], (fresh sh), (reconnectInterval sh), (draws sh).
    rewrite !app_nil_r. repeat split; auto. discriminate.
Qed.

(** [hardReset] keeps the log apart from what its [reset] settles, and
    arms nothing. *)
Lemma hardReset_frame sh :
  log (hardReset sh) = log sh ++ resolutions (requestMembersPromise sh)
  /\ (forall x, In x (timers (hardReset sh)) -> In x (timers sh))
  /\ sessionID (hardReset sh) = None
  /\ seq (hardReset sh) = 0
  /\ ws (hardReset sh) = None
  /\ status (hardReset sh) = st_disconnected.
Proof.
  unfold hardReset. destruct (reset_eq sh) as (tm & -> & Htm & _). sh_simpl.
  repeat split; auto.
Qed.

(** What [disconnect] does when a socket is held and [options] is given. *)
Lemma disconnect_facts r err sh :
  ws sh <> None ->
  let sh' := disconnect (Some r) err sh in
  ws sh' = None
  /\ status sh' = st_disconnected
  /\ (exists l1 l2,
        log sh' = log sh ++ l1 ++ resolutions (requestMembersPromise sh)
                  ++ match err with Some e => [Emit (error e)] | None => [] end
                  ++ [SuperEmit "disconnect"] ++ l2
        /\ quiet l1 /\ (forall p, resolved p l1 = [])
        /\ sent l2 = [] /\ errors l2 = [] /\ (forall p, resolved p l2 = [])
        /\ (r <> r_auto -> connects l2 = 0%nat))
  /\ (r <> r_false -> seq sh' = seq sh)
  /\ (r = r_false -> sessionID sh' = None /\ seq sh' = 0
                     /\ forall x, In x (timers sh') -> In x (timers sh))
  /\ (forall e, In e (requestMembersPromise sh) -> r <> r_auto ->
        find_timer (timeout e.2) (timers sh') = None)
  /\ (r = r_auto -> autoreconnect (options (client sh)) = true ->
        connects (log sh') = S (connects (log sh))
        \/ exists h ms, In (h, {| cb := CbReconnect; delay := ms; repeat := false |})
                           (timers sh')).
Proof.
  intros Hws. cbn zeta. unfold disconnect.
  destruct (ws sh) as [rs|]; [clear Hws | congruence].
  destruct (stop_heartbeat_frame sh) as (tm1 & -> & Htm1).
  match goal with |- context [close_ws ?a ?b ?c] =>
    destruct (close_ws_frame a r c) as (l1 & -> & Hq1 & Hr1) end.
  sh_simpl.
  match goal with |- context [reset ?c] =>
    destruct (reset_eq c) as (tm2 & -> & Htm2 & Hclr) end.
  sh_simpl. rewrite emit_error_eq. sh_simpl.
  match goal with |- context [invalidate_session ?c] =>
    destruct (invalidate_session_frame c) as (l2 & sid & -> & Hq2 & Hr2 & Hsid) end.
  sh_simpl.
  pose proof Hq1 as (Hs1 & He1 & Hc1). pose proof Hq2 as (Hs2 & He2 & Hc2).
  destruct r.
  - (* false *)
    cbn [reconnect_or_reset].
    match goal with |- context [hardReset ?c] =>
      destruct (hardReset_frame c) as (Hl & Ht & Hs & Hq & Hw & Hst) end.
    sh_simpl in *. cbn [resolutions map] in Hl. rewrite app_nil_r in Hl.
    rewrite Hl, Hs, Hq, Hw, Hst.
    split; [reflexivity|]. split; [reflexivity|]. split.
    { exists l1, l2. rewrite <- !app_assoc. repeat split; auto. }
    split; [congruence|]. split.
    { intros _. repeat split. intros x Hx. auto. }
    split; [|discriminate].
    intros e He _.
    match goal with |- find_timer ?h ?t = None =>
      destruct (find_timer h t) as [x|] eqn:Hf; [|reflexivity] end.
    apply find_timer_In, Ht in Hf.
    exfalso. eapply find_timer_not_In; [apply Hclr, He | exact Hf].
  - (* true *)
    cbn [reconnect_or_reset]. sh_simpl.
    split; [reflexivity|]. split; [reflexivity|]. split.
    { exists l1, l2. rewrite <- !app_assoc. repeat split; auto. }
    split; [reflexivity|]. split; [discriminate|]. split; [|discriminate].
    intros e He _. sh_simpl in *. apply Hclr. exact He.
  - (* auto *)
    match goal with |- context [reconnect_or_reset _ ?c] =>
      destruct (reconnect_auto_frame c) as (l3 & tm3 & fr & ri & dr & -> & Hs3 & He3 & Hr3 & Hc3)
    end.
    sh_simpl.
    split; [reflexivity|]. split; [reflexivity|]. split.
    { exists l1, (l2 ++ l3). rewrite <- !app_assoc.
      rewrite sent_app, errors_app, Hs2, He2, Hs3, He3.
      repeat split; auto.
      - intros p. rewrite resolved_app, Hr2, Hr3. reflexivity.
      - congruence. }
    split; [reflexivity|]. split; [discriminate|]. split; [congruence|].
    intros _ Hauto. specialize (Hc3 Hauto). destruct Hc3 as [[Hc ->]|[Hc ->]].
    + left. rewrite !connects_app, Hc1, Hc2, Hc.
      destruct (quiet_resolutions (requestMembersPromise sh)) as (_ & _ & ->).
      destruct err; simpl; lia.
    + right. do 2 eexists. apply in_or_app. right. left. reflexivity.
Qed.

(** ** Heartbeat *)

(** C2, as the code has it.  When the heartbeat timer comes due while the
    last heartbeat is unacknowledged and the shard is not "resuming", the
    shard disconnects with [reconnect: "auto"] and the error "Server didn't
    acknowledge previous heartbeat, possible lost connection": the socket
    is dropped, the error is emitted, no frame is written, and with
    [autoreconnect] a connect is asked for or a reconnect timer is armed. *)
Theorem unacknowledged_heartbeat_disconnects h ms sh :
  find_timer h (timers sh) = Some {| cb := CbHeartbeat; delay := ms; repeat := true |} ->
  status sh <> st_resuming ->
  lastHeartbeatAck sh = false ->
  ws sh <> None ->
  let sh' := step (timer h) sh in
  ws sh' = None
  /\ status sh' = st_disconnected
  /\ errors (log sh')
     = errors (log sh)
       ++ [Err "Server didn't acknowledge previous heartbeat, possible lost connection"]
  /\ sent (log sh') = sent (log sh)
  /\ (autoreconnect (options (client sh)) = true ->
        connects (log sh') = S (connects (log sh))
        \/ exists h' ms', In (h', {| cb := CbReconnect; delay := ms'; repeat := false |})
                             (timers sh')).
Proof.
  intros Hfind Hst Hack Hws. cbn zeta.
  unfold step, fire. rewrite Hfind. cbn [repeat cb callback].
  unfold heartbeat. rewrite Hack. cbn [andb negb].
  set (dbg := debug _ _).
  assert (Hws' : ws (emit dbg sh) <> None) by (sh_simpl; exact Hws).
  pose proof (disconnect_facts r_auto
                (Some (Err "Server didn't acknowledge previous heartbeat, possible lost connection"))
                (emit dbg sh) Hws') as H.
  cbn zeta in H. sh_simpl in H.
  destruct H as (H1 & H2 & (l1 & l2 & Hlog & (Hs1 & He1 & Hc1) & _ & Hs2 & He2 & _ & _)
                 & _ & _ & _ & Hre).
  destruct (quiet_resolutions (requestMembersPromise sh)) as (Hs3 & He3 & Hc3).
  assert (Hgoal :
    let sh' := disconnect (Some r_auto)
                 (Some (Err "Server didn't acknowledge previous heartbeat, possible lost connection"))
                 (emit dbg sh) in
    ws sh' = None /\ status sh' = st_disconnected
    /\ errors (log sh')
       = errors (log sh)
         ++ [Err "Server didn't acknowledge previous heartbeat, possible lost connection"]
    /\ sent (log sh') = sent (log sh)
    /\ (autoreconnect (options (client sh)) = true ->
          connects (log sh') = S (connects (log sh))
          \/ exists h' ms', In (h', {| cb := CbReconnect; delay := ms'; repeat := false |})
                               (timers sh'))).
  { cbn zeta. split; [exact H1|]. split; [exact H2|]. split; [|split].
    - rewrite Hlog, !errors_app, He1, He2, He3.
      subst dbg. cbn [errors app]. rewrite !app_nil_r. reflexivity.
    - rewrite Hlog, !sent_app, Hs1, Hs2, Hs3.
      subst dbg. cbn [sent app]. rewrite !app_nil_r. reflexivity.
    - intros Hauto. destruct (Hre eq_refl Hauto) as [Hc|Ht]; [left | right; exact Ht].
      rewrite Hc, connects_app. subst dbg. cbn [connects]. lia. }
  destruct (status sh); try congruence; exact Hgoal.
Qed.

Lemma unacknowledged_heartbeat_disconnects_witness :
  let sh := step (timer 1) Scenario.ready_shard in
  ws (step (timer 1) sh) = None
  /\ errors (log (step (timer 1) sh))
     = [Err "Server didn't acknowledge previous heartbeat, possible lost connection"].
Proof.
  cbn zeta.
  destruct (unacknowledged_heartbeat_disconnects 1 41250
              (step (timer 1) Scenario.ready_shard)) as (H1 & _ & H2 & _).
  - vm_compute. reflexivity.
  - vm_compute. discriminate.
  - vm_compute. reflexivity.
  - vm_compute. discriminate.
  - split; [exact H1 | exact H2].
Defined.

(** C2 as stated fails while the shard is "resuming": the timer comes due
    with the last heartbeat unacknowledged, and the shard keeps its socket
    and emits no error. *)
Lemma resuming_heartbeat_counterexample :
  let sh := Scenario.resuming_unacknowledged in
  find_timer 5 (timers sh) = Some {| cb := CbHeartbeat; delay := 41250; repeat := true |}
  /\ lastHeartbeatAck sh = false
  /\ ws (step (timer 5) sh) = Some OPEN
  /\ errors (log (step (timer 5) sh)) = errors (log sh)
  /\ log (step (timer 5) sh) = log sh.
Proof. vm_compute. repeat split; reflexivity. Qed.

(** C3 as stated fails: the IDENTIFY goes out in the step that handles
    INVALID_SESSION, and no timer is armed to delay it. *)
Lemma invalid_session_delay_counterexample :
  let sh := Scenario.ready_shard in
  let sh' := step (ws_on_message (Scenario.packet INVALID_SESSION)) sh in
  map op (sent (log sh)) = [2; 1]
  /\ map op (sent (log sh')) = [2; 1; 2]
  /\ timers sh' = timers sh.
Proof. vm_compute. repeat split; reflexivity. Qed.

(** ** Close codes *)

(** C4, as the code has it.  A close with code 4004 on the socket the shard
    holds emits two errors, "Invalid token: <token>" from the close handler
    and "Authentication failed" from [disconnect]; the session id is
    dropped and nothing is set up to connect again. *)
Theorem close_4004_gives_up reason sh :
  ws sh <> None ->
  let sh' := step (ws_on_close 4004 reason) sh in
  errors (log sh')
  = errors (log sh)
    ++ [Err ("Invalid token: " +:+ _token sh);
        {| message := "Authentication failed"; code := Some 4004 |}]
  /\ sessionID sh' = None
  /\ ws sh' = None
  /\ connects (log sh') = connects (log sh)
  /\ (forall x, In x (timers sh') -> In x (timers sh)).
Proof.
  intros Hws. cbn zeta. unfold step.
  destruct (ws sh) as [rs|] eqn:Ers; [clear Hws | congruence].
  lazy beta iota zeta delta [_onWSClose Z.eqb Pos.eqb orb andb negb].
  set (d1 := debug "WS disconnected: " _). set (d2 := debug _ None).
  cbn [fmap option_fmap option_map with_code message Err].
  match goal with |- context [disconnect (Some r_false) ?e ?X] =>
    assert (Hws' : ws X <> None) by (sh_simpl; discriminate);
    pose proof (disconnect_facts r_false e X Hws') as H
  end.
  cbn zeta in H. sh_simpl in H.
  destruct H as (H1 & _ & (l1 & l2 & Hlog & (Hs1 & He1 & Hc1) & _ & Hs2 & He2 & _ & Hc2)
                 & _ & Hfalse & _).
  destruct (Hfalse eq_refl) as (Hsid & _ & Htm).
  destruct (quiet_resolutions (requestMembersPromise sh)) as (Hs3 & He3 & Hc3).
  sh_simpl. rewrite Hlog.
  rewrite !errors_app, !connects_app, He1, He2, He3, Hc1, Hc2, Hc3 by congruence.
  subst d1 d2. cbn [errors connects app]. rewrite !app_nil_r, <- !app_assoc.
  split; [reflexivity|]. split; [exact Hsid|]. split; [exact H1|].
  split; [lia|]. exact Htm.
Qed.

Lemma close_4004_gives_up_witness :
  let sh' := step (ws_on_close 4004 "Authentication failed.") Scenario.ready_shard in
  sessionID sh' = None /\ ws sh' = None.
Proof.
  cbn zeta.
  destruct (close_4004_gives_up "Authentication failed." Scenario.ready_shard)
    as (_ & H1 & H2 & _).
  - vm_compute. discriminate.
  - split; [exact H1 | exact H2].
Defined.

(** C4 as stated fails on the count: a close with code 4004 emits two
    errors, not one. *)
Lemma close_4004_two_errors_counterexample :
  let sh := Scenario.ready_shard in
  let sh' := step (ws_on_close 4004 "Authentication failed.") sh in
  errors (log sh) = []
  /\ errors (log sh')
     = [{| message := "Invalid token: Bot X"; code := None |};
        {| message := "Authentication failed"; code := Some 4004 |}]
  /\ length (errors (log sh')) <> 1%nat.
Proof. vm_compute. repeat split; try reflexivity. discriminate. Qed.

(** ** Pending member requests at disconnect *)

(** C6 fails on the code by a slip in [reset]: a pending request is
    resolved with its [received] field, the number 0, and not with the
    members collected.  Here the request holds member "u1" when the shard
    disconnects; its timer is cleared, and its promise is resolved with 0. *)
Theorem disconnect_resolves_with_received :
  let sh := Scenario.requesting_shard in
  let sh' := step (call_disconnect r_auto None) sh in
  requestMembersPromise sh
  = [("1700000000000.n0", {| res := 5; received := 0; members := ["u1"]; timeout := 6 |})]
  /\ find_timer 6 (timers sh)
     = Some {| cb := CbRequestMembers "1700000000000.n0" 5; delay := 15000; repeat := false |}
  /\ resolved 5 (log sh) = []
  /\ resolved 5 (log sh') = [VNumber 0]
  /\ find_timer 6 (timers sh') = None.
Proof. vm_compute. repeat split; reflexivity. Qed.


(** ** What a send leaves alone *)

(** Settle [after_sends] for a state given by updates of [sh]. *)
Ltac sends_now sh :=
  unfold after_sends; destruct sh; sh_norm; do 5 eexists;
  (split; [rewrite <- ?app_assoc; cbn [app]; reflexivity
          | repeat split; auto]).

Ltac sends_quiet sh :=
  unfold after_sends; exists []; destruct sh; sh_norm; do 4 eexists;
  (split; [rewrite app_nil_r; reflexivity | repeat split; auto]).

Lemma after_sends_refl sh : after_sends sh sh.
Proof.
  exists [], (globalBucket sh), (presenceUpdateBucket sh), (funcs sh), (fresh sh).
  rewrite app_nil_r. repeat split; auto.
Qed.

Lemma after_sends_trans sh1 sh2 sh3 :
  after_sends sh1 sh2 -> after_sends sh2 sh3 -> after_sends sh1 sh3.
Proof.
  intros (l & gb & pb & fs & fr & -> & Hfr & He & Hc & Hr)
         (l' & gb' & pb' & fs' & fr' & -> & Hfr' & He' & Hc' & Hr').
  sh_simpl in *. exists (l ++ l'), gb', pb', fs', fr'.
  rewrite app_assoc, errors_app, connects_app, He, He', Hc, Hc'.
  repeat split; auto; try lia.
  intros p. rewrite resolved_app, Hr, Hr'. reflexivity.
Qed.

Lemma func_sends fid sh : after_sends sh (func fid sh).
Proof.
  unfold func. destruct (funcs sh !! fid) as [f|]; [|apply after_sends_refl].
  cbn [f_waitFor f_i f_op f_data].
  match goal with |- context [if ?c then _ else _] => destruct c end.
  - sends_now sh.
  - sends_quiet sh.
Qed.

Lemma run_sends fids sh : after_sends sh (run fids sh).
Proof.
  unfold run. revert sh. induction fids as [|fid fids IH]; intros sh; simpl.
  - apply after_sends_refl.
  - eapply after_sends_trans; [apply func_sends | apply IH].
Qed.

Lemma set_globalBucket_sends b sh : after_sends sh (set_globalBucket b sh).
Proof.
  exists [], b, (presenceUpdateBucket sh), (funcs sh), (fresh sh).
  rewrite app_nil_r. repeat split; auto.
Qed.

Lemma set_presenceUpdateBucket_sends b sh : after_sends sh (set_presenceUpdateBucket b sh).
Proof.
  exists [], (globalBucket sh), b, (funcs sh), (fresh sh).
  rewrite app_nil_r. repeat split; auto.
Qed.

Lemma queue_global_sends fid prio sh : after_sends sh (queue_global fid prio sh).
Proof.
  unfold queue_global. destruct (Bucket.queue _ _ _ _) as [b fids].
  eapply after_sends_trans; [apply set_globalBucket_sends | apply run_sends].
Qed.

Lemma queue_presence_sends fid prio sh : after_sends sh (queue_presence fid prio sh).
Proof.
  unfold queue_presence. destruct (Bucket.queue _ _ _ _) as [b fids].
  eapply after_sends_trans; [apply set_presenceUpdateBucket_sends | apply run_sends].
Qed.

Lemma wake_global_sends sh : after_sends sh (wake_global sh).
Proof.
  unfold wake_global. destruct (Bucket.wake _ _) as [b fids].
  eapply after_sends_trans; [apply set_globalBucket_sends | apply run_sends].
Qed.

Lemma wake_presence_sends sh : after_sends sh (wake_presence sh).
Proof.
  unfold wake_presence. destruct (Bucket.wake _ _) as [b fids].
  eapply after_sends_trans; [apply set_presenceUpdateBucket_sends | apply run_sends].
Qed.

(** Whatever the socket and the buckets are, [sendWS] only sends. *)
Lemma sendWS_sends op_ d_ prio sh : after_sends sh (sendWS op_ d_ prio sh).
Proof.
  unfold sendWS. destruct (ws_open sh); [|apply after_sends_refl].
  destruct (op_ =? GatewayOPCodes.STATUS_UPDATE).
  - eapply after_sends_trans; [|apply queue_global_sends].
    eapply after_sends_trans; [|apply queue_presence_sends].
    sends_quiet sh.
  - eapply after_sends_trans; [|apply queue_global_sends].
    sends_quiet sh.
Qed.

Lemma identify_sends sh :
  exists l, after_sends (set_log (log sh ++ l) sh) (identify sh)
            /\ connects l = 0%nat /\ forall p, resolved p l = [].
Proof.
  unfold identify.
  match goal with |- context [if ?c then _ else _] => destruct c end.
  - eexists [_]. split; [apply after_sends_refl|]. split; reflexivity.
  - exists []. rewrite app_nil_r.
    split; [apply sendWS_sends|]. split; reflexivity.
Qed.

(** ** The sequence number *)













Lemma READY_prologue_frame sh :
  exists tm,
    READY_prologue sh
    = sh |> set_connectAttempts 0 |> set_reconnectInterval 1000 |> set_connecting false
         |> set_timers tm |> set_connectTimeout None |> set_status st_ready
         |> set_presence (set_prop (presence sh) "status" (JStr "online"))
         |> effect ReadyPacketCB
    /\ forall x, In x tm -> In x (timers sh).
Proof.
  unfold READY_prologue, clear_connectTimeout. sh_simpl.
  destruct (connectTimeout sh).
  - eexists. split; [reflexivity|]. intros x. apply In_drop_timer.
  - eexists. split; [reflexivity|]. auto.
Qed.







(** ** Member chunks *)

Lemma find_timer_app_ne h h' x l :
  h <> h' -> find_timer h (l ++ [(h', x)]) = find_timer h l.
Proof.
  intros Hne. induction l as [|[i y] l IH]; simpl.
  - destruct (Nat.eqb h' h) eqn:E; [|reflexivity].
    apply Nat.eqb_eq in E. congruence.
  - destruct (Nat.eqb i h); [reflexivity | exact IH].
Qed.

Lemma keeps_requests_refl sh : keeps_requests sh sh.
Proof. split; [exists []; rewrite app_nil_r; reflexivity | split; reflexivity]. Qed.

Lemma keeps_requests_sends sh sh' : after_sends sh sh' -> keeps_requests sh sh'.
Proof.
  intros (l & gb & pb & fs & fr & -> & _). sh_simpl.
  split; [exists l; reflexivity | split; reflexivity].
Qed.

Lemma requestClubMembers_keeps c o sh : keeps_requests sh (requestClubMembers c o sh).1.
Proof.
  unfold requestClubMembers.
  match goal with |- context [if ?c then _ else _] => destruct c end;
    [cbn [fst]; split; [exists []; rewrite app_nil_r; reflexivity | split; reflexivity]|].
  match goal with |- context [if ?c then _ else _] => destruct c end;
    [cbn [fst]; split; [exists []; rewrite app_nil_r; reflexivity | split; reflexivity]|].
  cbn [fst].
  match goal with |- context [sendWS ?a ?b ?c ?x] =>
    destruct (sendWS_sends a b c x) as (l & gb & pb & fs & fr & -> & Hfr & _) end.
  sh_simpl in *. split; [exists l; reflexivity|]. split.
  - intros k Hk. apply get_set_ne. congruence.
  - intros h Hh. apply find_timer_app_ne. sh_simpl. lia.
Qed.

Lemma checkReady_keeps sh : keeps_requests sh (checkReady sh).1.
Proof.
  unfold checkReady. destruct (ready sh); [apply keeps_requests_refl|].
  destruct (clubSyncQueue sh) as [|q0 qs0].
  - destruct (0 <? unsyncedClubs sh); [apply keeps_requests_refl|].
    destruct (getAllUsersQueue sh) as [|q qs].
    + destruct (getAllUsersCount sh); cbn [fst]; [|apply keeps_requests_refl].
      split; [eexists [_]; reflexivity | split; reflexivity].
    + unfold bind, lift.
      pose proof (requestClubMembers_keeps (JArr (JStr <$> q :: qs)) None sh) as H.
      destruct (requestClubMembers _ _ sh) as [sh' [p|e]]; exact H.
  - cbn [fst]. unfold requestClubSync.
    match goal with |- context [sendWS ?a ?b ?c ?x] =>
      destruct (sendWS_sends a b c x) as (l & gb & pb & fs & fr & -> & Hfr & _) end.
    split; [exists l; reflexivity | split; reflexivity].
Qed.

Lemma chunk_sweep_keeps d sh : keeps_requests sh (chunk_sweep d sh).1.
Proof.
  unfold chunk_sweep. destruct (has _ _); [|apply keeps_requests_refl].
  unfold bind, lift.
  match goal with |- context [checkReady ?x] =>
    pose proof (checkReady_keeps x) as H3; destruct (checkReady x) as [sh3 [u|e]] end;
    exact H3.
Qed.

(** C5, as the code has it.  For a chunk of a club that is cached and a
    request pending under the chunk's nonce: a chunk that is not the last
    appends its members to the request; the last chunk resolves the promise
    with everything collected, in arrival order, deletes the entry and
    clears its timer; and when the timer comes due first, the promise is
    resolved with what was collected so far and the entry is deleted.  A
    member request is only ever resolved. *)
Theorem member_chunk_reassembly packet d club r sh :
  clubs (client sh) !! club_id d = Some club ->
  get (chunk_nonce d) (requestMembersPromise sh) = Some r ->
  let sh' := (wsEvent packet (CLUB_MEMBERS_CHUNK d) sh).1 in
  let collected := members r ++ chunk_members d in
  (chunk_index d < chunk_count d - 1 ->
     get (chunk_nonce d) (requestMembersPromise sh')
     = Some {| res := res r; received := received r; members := collected;
               timeout := timeout r |}
     /\ log sh' = log sh ++ [Emit (clubMemberChunk (club_id d) (chunk_members d))]
     /\ timers sh' = timers sh)
  /\ (chunk_count d - 1 <= chunk_index d ->
        (timeout r < fresh sh)%nat -> nonce (rt sh) (draws sh) <> chunk_nonce d ->
        (exists l, log sh' = log sh ++ Resolve (res r) (VMembers collected) :: l)
        /\ get (chunk_nonce d) (requestMembersPromise sh') = None
        /\ find_timer (timeout r) (timers sh') = None)
  /\ (forall ms,
        find_timer (timeout r) (timers sh)
        = Some {| cb := CbRequestMembers (chunk_nonce d) (res r); delay := ms;
                  repeat := false |} ->
        let sh2 := step (timer (timeout r)) sh in
        log sh2 = log sh ++ [Resolve (res r) (VMembers (members r))]
        /\ get (chunk_nonce d) (requestMembersPromise sh2) = None
        /\ find_timer (timeout r) (timers sh2) = None).
Proof.
  intros Hclub Hget. cbn zeta. split; [|split].
  - intros Hlt. cbn [wsEvent]. unfold CLUB_MEMBERS_CHUNK_case. rewrite Hclub.
    unfold bind, lift, ret.
    assert ((chunk_count d - 1 <=? chunk_index d) = false) as -> by (apply Z.leb_gt; lia).
    cbn [fst]. unfold chunk_collect, chunk_cache. sh_simpl. rewrite Hget. sh_simpl.
    split; [apply get_set_eq|]. split; reflexivity.
  - intros Hge Hfresh Hnonce. cbn [wsEvent]. unfold CLUB_MEMBERS_CHUNK_case. rewrite Hclub.
    unfold bind, lift, ret.
    assert ((chunk_count d - 1 <=? chunk_index d) = true) as -> by (apply Z.leb_le; lia).
    set (sh3 := chunk_resolve d (chunk_collect d (chunk_cache d club sh))).
    assert (Hsh3 : sh3
                   = set_requestMembersPromise
                       (del (chunk_nonce d)
                            (set (chunk_nonce d)
                                 {| res := res r; received := received r;
                                    members := members r ++ chunk_members d;
                                    timeout := timeout r |}
                                 (requestMembersPromise sh)))
                       (effect (Resolve (res r) (VMembers (members r ++ chunk_members d)))
                          (clearTimer (timeout r)
                             (set_requestMembersPromise
                                (set (chunk_nonce d)
                                     {| res := res r; received := received r;
                                        members := members r ++ chunk_members d;
                                        timeout := timeout r |}
                                     (requestMembersPromise sh))
                                (chunk_cache d club sh))))).
    { subst sh3. unfold chunk_resolve, chunk_collect, chunk_cache. sh_simpl.
      rewrite Hget. sh_simpl. rewrite get_set_eq. reflexivity. }
    destruct (chunk_sweep_keeps d sh3) as ((l & Hl) & Hreq & Htm).
    assert (Hlog3 : log sh3 = log sh ++ [Resolve (res r) (VMembers (members r ++ chunk_members d))])
      by (rewrite Hsh3; reflexivity).
    assert (Hget3 : get (chunk_nonce d) (requestMembersPromise sh3) = None)
      by (rewrite Hsh3; sh_simpl; apply get_del_eq).
    assert (Htm3 : find_timer (timeout r) (timers sh3) = None)
      by (rewrite Hsh3; unfold chunk_cache; sh_simpl; apply find_drop_timer).
    assert (Hrt : nonce (rt sh3) (draws sh3) = nonce (rt sh) (draws sh))
      by (rewrite Hsh3; reflexivity).
    assert (Hfr : fresh sh3 = fresh sh) by (rewrite Hsh3; reflexivity).
    rewrite Hrt in Hreq. rewrite Hfr in Htm.
    specialize (Hreq (chunk_nonce d) (not_eq_sym Hnonce)).
    specialize (Htm (timeout r) Hfresh).
    rewrite Hlog3 in Hl. rewrite Hget3 in Hreq. rewrite Htm3 in Htm.
    destruct (chunk_sweep d sh3) as [sh4 [u|e]]; cbn [fst] in *; sh_simpl.
    + split; [|split; assumption].
      exists (l ++ [Emit (clubMemberChunk (club_id d) (chunk_members d))]).
      rewrite Hl, <- !app_assoc. reflexivity.
    + split; [|split; assumption].
      exists l. rewrite Hl, <- !app_assoc. reflexivity.
  - intros ms Hfind. cbn zeta. unfold step, fire. rewrite Hfind.
    cbn [repeat cb callback]. sh_simpl. rewrite Hget. sh_simpl.
    split; [reflexivity|]. split; [apply get_del_eq | apply find_drop_timer].
Qed.

Lemma member_chunk_reassembly_witness :
  let sh := Scenario.requesting_shard in
  let last := Scenario.dispatch 3 (CLUB_MEMBERS_CHUNK (Scenario.chunk 1 2 ["u2"])) in
  (exists l, log (wsEvent last (CLUB_MEMBERS_CHUNK (Scenario.chunk 1 2 ["u2"])) sh).1
             = log sh ++ Resolve 5 (VMembers ["u1"; "u2"]) :: l)
  /\ log (step (timer 6) sh) = log sh ++ [Resolve 5 (VMembers ["u1"])].
Proof.
  cbn zeta.
  pose proof (member_chunk_reassembly
                (Scenario.dispatch 3 (CLUB_MEMBERS_CHUNK (Scenario.chunk 1 2 ["u2"])))
                (Scenario.chunk 1 2 ["u2"])
                {["u1" := {| m_id := "u1"; m_presence := None |}]}
                {| res := 5; received := 0; members := ["u1"]; timeout := 6 |}
                Scenario.requesting_shard) as H.
  cbn zeta in H.
  destruct H as (_ & H2 & H3).
  - vm_compute. reflexivity.
  - vm_compute. reflexivity.
  - split.
    + apply H2.
      * vm_compute. discriminate.
      * vm_compute. lia.
      * vm_compute. discriminate.
    + apply (H3 15000). vm_compute. reflexivity.
Defined.

(** C5 as stated fails for a chunk of a club that is not cached: the chunk
    is dropped with a debug message, so its members are not appended and
    a last chunk does not resolve the request. *)
Lemma uncached_club_chunk_counterexample :
  let sh := Scenario.requesting_shard in
  let d := {| club_id := "B"; chunk_members := ["u2"]; presences := None;
              chunk_nonce := "1700000000000.n0"; chunk_index := 1; chunk_count := 2 |} in
  let sh' := step (ws_on_message (Scenario.dispatch 3 (CLUB_MEMBERS_CHUNK d))) sh in
  get "1700000000000.n0" (requestMembersPromise sh)
  = Some {| res := 5; received := 0; members := ["u1"]; timeout := 6 |}
  /\ requestMembersPromise sh' = requestMembersPromise sh
  /\ resolved 5 (log sh') = []
  /\ log sh' = log sh ++ [Emit (debug "Received CLUB_MEMBERS_CHUNK, but club B is missing" None)].
Proof. vm_compute. repeat split; reflexivity. Qed.

(** ** A bucket that makes a send wait *)

Lemma enqueue_last {T} (f : T) (q : list (Bucket.Item T)) :
  Bucket.enqueue {| Bucket.fn := f; Bucket.priority := false |} q
  = q ++ [{| Bucket.fn := f; Bucket.priority := false |}].
Proof. induction q as [|x q IH]; simpl; [reflexivity | rewrite IH; reflexivity]. Qed.







(** A task that has to wait is queued and nothing runs. *)
Lemma queue_must_wait {T} prio now_ (f : T) (b : Bucket.t T) :
  Bucket.must_wait prio now_ b ->
  exists to,
    Bucket.queue now_ f prio b
    = ({| Bucket.tokenLimit := Bucket.tokenLimit b; Bucket.interval := Bucket.interval b;
          Bucket.reservedTokens := Bucket.reservedTokens b;
          Bucket.lastReset := Bucket.lastReset b; Bucket.tokens := Bucket.tokens b;
          Bucket._queue := Bucket.enqueue {| Bucket.fn := f; Bucket.priority := prio |}
                             (Bucket._queue b);
          Bucket.timeout := Some to |}, [])
    /\ (Bucket.timeout b = None -> to = Bucket.interval b - (now_ - Bucket.lastReset b)).
Proof.
  intros [Hto|(Hq & Hnow & Hres & Hlim)]; unfold Bucket.queue.
  - destruct (Bucket.timeout b) as [to|]; [|congruence].
    exists to. split; [reflexivity | discriminate].
  - destruct (Bucket.timeout b) as [to|].
    + exists to. split; [reflexivity | discriminate].
    + exists (Bucket.interval b - (now_ - Bucket.lastReset b)). split; [|reflexivity].
      unfold Bucket.check. cbn [Bucket.lastReset Bucket.interval Bucket.tokens Bucket._queue
                                Bucket.tokenLimit Bucket.reservedTokens].
      rewrite Hq. cbn [Bucket.enqueue Bucket.drain Bucket.priority].
      replace (Bucket.lastReset b + Bucket.interval b <=? now_) with false
        by (symmetry; apply Z.leb_gt; lia).
      replace (Bucket.tokens b <? Bucket.tokenLimit b - Bucket.reservedTokens b) with false
        by (symmetry; apply Z.ltb_ge; lia).
      destruct prio; cbn [orb andb].
      * replace (Bucket.tokens b <? Bucket.tokenLimit b) with false
          by (symmetry; apply Z.ltb_ge; auto).
        reflexivity.
      * rewrite andb_false_r. reflexivity.
Qed.

(** With the socket open and the global bucket making it wait, [sendWS]
    stores the closure and queues it; nothing is written. *)
Lemma sendWS_waits op_ d_ prio sh :
  ws_open sh = true -> op_ <> GatewayOPCodes.STATUS_UPDATE ->
  Bucket.must_wait prio (now sh) (globalBucket sh) ->
  exists to,
    sendWS op_ d_ prio sh
    = sh |> set_funcs (<[fresh sh := {| f_op := op_; f_data := d_; f_i := 0;
                                        f_waitFor := 1 |}]> (funcs sh))
         |> set_fresh (S (fresh sh))
         |> set_globalBucket
              {| Bucket.tokenLimit := Bucket.tokenLimit (globalBucket sh);
                 Bucket.interval := Bucket.interval (globalBucket sh);
                 Bucket.reservedTokens := Bucket.reservedTokens (globalBucket sh);
                 Bucket.lastReset := Bucket.lastReset (globalBucket sh);
                 Bucket.tokens := Bucket.tokens (globalBucket sh);
                 Bucket._queue := Bucket.enqueue {| Bucket.fn := fresh sh;
                                                    Bucket.priority := prio |}
                                    (Bucket._queue (globalBucket sh));
                 Bucket.timeout := Some to |}
    /\ (Bucket.timeout (globalBucket sh) = None ->
        to = Bucket.interval (globalBucket sh)
             - (now sh - Bucket.lastReset (globalBucket sh))).
Proof.
  intros Hopen Hop Hwait. unfold sendWS. rewrite Hopen.
  apply Z.eqb_neq in Hop. rewrite Hop.
  unfold queue_global. sh_simpl.
  destruct (queue_must_wait prio (now sh) (fresh sh) (globalBucket sh) Hwait) as (to & -> & Hto).
  exists to. split; [reflexivity | exact Hto].
Qed.

(** A closure that was queued and has not run writes the payload it was
    created with, whatever the shard has become. *)
Lemma func_writes fid op_ d_ sh :
  funcs sh !! fid = Some {| f_op := op_; f_data := d_; f_i := 0; f_waitFor := 1 |} ->
  ws_open sh = true ->
  sent (log (func fid sh))
  = sent (log sh) ++ [{| etf := Erlpack (rt sh); op := op_; d := d_ |}].
Proof.
  intros Hf Hopen. unfold func. rewrite Hf. cbn [f_i f_op f_data f_waitFor].
  unfold ws_open in *. sh_simpl. rewrite Hopen. cbn [Z.leb Z.add Z.compare Pos.compare andb].
  change (1 <=? 0 + 1) with true. cbn [andb]. sh_simpl.
  rewrite !sent_app. cbn [sent]. rewrite app_nil_r. reflexivity.
Qed.

(** When the window of the global bucket has turned over, its wake-up
    writes the one send that waits. *)
Lemma wake_writes_waiting fid prio op_ d_ ms sh :
  Bucket._queue (globalBucket sh) = [{| Bucket.fn := fid; Bucket.priority := prio |}] ->
  funcs sh !! fid = Some {| f_op := op_; f_data := d_; f_i := 0; f_waitFor := 1 |} ->
  ws_open sh = true ->
  0 < Bucket.tokenLimit (globalBucket sh) - Bucket.reservedTokens (globalBucket sh) ->
  0 <= ms ->
  Bucket.lastReset (globalBucket sh) + Bucket.interval (globalBucket sh) <= now sh + ms ->
  sent (log (steps [elapse ms; bucket_wake false] sh))
  = sent (log sh) ++ [{| etf := Erlpack (rt sh); op := op_; d := d_ |}].
Proof.
  intros Hq Hf Hopen Hlim Hms Hel. unfold steps. cbn [fold_left step].
  rewrite Z.max_r by lia. unfold wake_global, Bucket.wake, Bucket.check. sh_simpl.
  cbn [Bucket.lastReset Bucket.interval Bucket.tokens Bucket._queue
       Bucket.tokenLimit Bucket.reservedTokens].
  rewrite Hq.
  replace (Bucket.lastReset (globalBucket sh) + Bucket.interval (globalBucket sh)
           <=? now sh + ms) with true by (symmetry; apply Z.leb_le; lia).
  cbn [Bucket.drain].
  replace (0 <? Bucket.tokenLimit (globalBucket sh) - Bucket.reservedTokens (globalBucket sh))
    with true by (symmetry; apply Z.ltb_lt; lia).
  cbn [orb Bucket.fn]. unfold run. cbn [fold_left].
  rewrite (func_writes fid op_ d_); [reflexivity | exact Hf | exact Hopen].
Qed.

(** ** INVALID_SESSION *)

(** Sends leave the session, the timers and the random source alone. *)
Lemma after_sends_fields sh sh' :
  after_sends sh sh' ->
  seq sh' = seq sh /\ sessionID sh' = sessionID sh /\ timers sh' = timers sh
  /\ draws sh' = draws sh /\ status sh' = status sh /\ ws sh' = ws sh /\ now sh' = now sh.
Proof. intros (l & gb & pb & fs & fr & -> & _). repeat split. Qed.

(** C3, as the code has it.  On INVALID_SESSION the sequence is set to 0,
    the session id is dropped and [identify] is called in the same step: no
    timer of the shard is armed and no random number is drawn.  With the
    socket open the IDENTIFY goes to the global bucket.  When the bucket has
    room the frame is written in that step.  When the bucket makes it wait,
    nothing is written in that step and the IDENTIFY is queued behind what
    waits already; if it waits alone it is written, with the payload built
    at INVALID_SESSION, by the wake-up once the window of the bucket has
    turned over. *)
Theorem invalid_session_identifies_at_once packet sh :
  body packet = INVALID_SESSION ->
  let sh' := _onWSMessage packet sh in
  let gb := globalBucket sh in
  let frame := {| etf := Erlpack (rt sh); op := GatewayOPCodes.IDENTIFY;
                  d := identify_payload sh |} in
  (seq sh' = 0 /\ sessionID sh' = None /\ timers sh' = timers sh /\ draws sh' = draws sh)
  /\ (ws_open sh = true -> zlib_ok sh -> Bucket.has_room 1 gb ->
        sent (log sh') = sent (log sh) ++ [frame])
  /\ (ws_open sh = true -> zlib_ok sh -> Bucket.must_wait false (now sh) gb ->
        sent (log sh') = sent (log sh)
        /\ Bucket._queue (globalBucket sh')
           = Bucket._queue gb ++ [{| Bucket.fn := fresh sh; Bucket.priority := false |}]
        /\ Bucket.timeout (globalBucket sh') <> None
        /\ funcs sh' !! fresh sh
           = Some {| f_op := GatewayOPCodes.IDENTIFY; f_data := identify_payload sh;
                     f_i := 0; f_waitFor := 1 |}
        /\ (Bucket._queue gb = [] ->
            0 < Bucket.tokenLimit gb - Bucket.reservedTokens gb ->
            forall ms, 0 <= ms -> Bucket.lastReset gb + Bucket.interval gb <= now sh + ms ->
              sent (log (steps [elapse ms; bucket_wake false] sh'))
              = sent (log sh) ++ [frame])).
Proof.
  intros Hbody. cbn zeta.
  unfold _onWSMessage, onPacket, bind, lift. rewrite Hbody.
  destruct (prologue_frame packet sh) as (l & -> & Hs & He).
  set (sh1 := emit (warn "Invalid session, reidentifying!") _).
  assert (H1 : sh1 = sh |> set_sessionID None |> set_seq 0
                        |> set_log (log sh ++ l ++ [Emit (warn "Invalid session, reidentifying!")])).
  { subst sh1. destruct sh. sh_norm. rewrite <- app_assoc. reflexivity. }
  assert (Hp : identify_payload sh1 = identify_payload sh) by (rewrite H1; reflexivity).
  split; [|split].
  - destruct (identify_sends sh1) as (l1 & Hsends & _).
    apply after_sends_fields in Hsends. destruct Hsends as (Ha & Hb & Hc & Hd & _).
    rewrite Ha, Hb, Hc, Hd, H1. repeat split.
  - intros Hopen Hz Hroom.
    rewrite identify_open; [| rewrite H1; exact Hopen | rewrite H1; exact Hroom
                            | rewrite H1; exact Hz].
    rewrite sent_transmit, Hp, H1. sh_simpl.
    rewrite !sent_app, Hs. cbn [sent]. rewrite !app_nil_r. reflexivity.
  - intros Hopen Hz Hwait.
    assert (Hid : identify sh1 = sendWS GatewayOPCodes.IDENTIFY (identify_payload sh) false sh1).
    { unfold identify. rewrite <- Hp.
      replace (compress (options (client sh1)) && negb (ZlibSync (rt sh1))) with false
        by (rewrite H1; symmetry; exact Hz).
      reflexivity. }
    rewrite Hid.
    destruct (sendWS_waits GatewayOPCodes.IDENTIFY (identify_payload sh) false sh1)
      as (to & -> & Hto); [rewrite H1; exact Hopen | discriminate | rewrite H1; exact Hwait |].
    rewrite enqueue_last, H1. sh_simpl. cbn [Bucket._queue Bucket.timeout].
    split; [rewrite !sent_app, Hs; cbn [sent]; rewrite !app_nil_r; reflexivity|].
    split; [reflexivity|]. split; [discriminate|].
    split; [apply lookup_insert_eq|].
    intros Hq Hlim ms Hms Hel.
    erewrite (wake_writes_waiting (fresh sh) false GatewayOPCodes.IDENTIFY (identify_payload sh) ms).
    + sh_simpl. rewrite !sent_app, Hs. cbn [sent]. rewrite !app_nil_r. reflexivity.
    + sh_simpl. cbn [Bucket._queue]. rewrite Hq. reflexivity.
    + sh_simpl. apply lookup_insert_eq.
    + exact Hopen.
    + sh_simpl. exact Hlim.
    + exact Hms.
    + sh_simpl. exact Hel.
Qed.

(** ** Heartbeats while the shard is resuming *)


Lemma heartbeats_quiet l : sent l = [] -> heartbeats l = [].
Proof. unfold heartbeats. intros ->. reflexivity. Qed.




Section Closures.
(** A set of closures none of which sends a HEARTBEAT. *)
Variable waiting : nat -> Prop.



End Closures.





(** *** What the methods do to the status *)

Lemma status_sendWS op_ d_ prio sh : status (sendWS op_ d_ prio sh) = status sh.
Proof. apply (after_sends_fields sh), sendWS_sends. Qed.


Lemma status_requestClubMembers c o sh : status (requestClubMembers c o sh).1 = status sh.
Proof.
  unfold requestClubMembers.
  repeat match goal with |- context [if ?c then _ else _] => destruct c end;
    cbn [fst]; sh_simpl; rewrite ?status_sendWS; reflexivity.
Qed.

Lemma status_checkReady sh : status (checkReady sh).1 = status sh.
Proof.
  unfold checkReady. destruct (ready sh); [reflexivity|].
  destruct (clubSyncQueue sh).
  - destruct (0 <? unsyncedClubs sh); [reflexivity|].
    destruct (getAllUsersQueue sh) as [|q qs].
    + destruct (getAllUsersCount sh); reflexivity.
    + unfold bind, lift.
      pose proof (status_requestClubMembers (JArr (JStr <$> q :: qs)) None sh) as H.
      destruct (requestClubMembers _ _ sh) as [sh' [p|e]]; exact H.
  - cbn [fst]. sh_simpl. unfold requestClubSync. apply status_sendWS.
Qed.

Lemma status_chunk d sh : status (CLUB_MEMBERS_CHUNK_case d sh).1 = status sh.
Proof.
  unfold CLUB_MEMBERS_CHUNK_case.
  destruct (clubs (client sh) !! club_id d) as [club|]; [|reflexivity].
  unfold bind, lift, ret.
  assert (H1 : forall x, status (chunk_collect d x) = status x)
    by (intros x; unfold chunk_collect; destruct (get _ _); reflexivity).
  assert (H2 : forall x, status (chunk_resolve d x) = status x)
    by (intros x; unfold chunk_resolve; destruct (get _ _); reflexivity).
  assert (H3 : forall x, status (chunk_sweep d x).1 = status x).
  { intros x. unfold chunk_sweep. destruct (has _ _); [|reflexivity].
    unfold bind, lift.
    match goal with |- context [checkReady ?y] =>
      pose proof (status_checkReady y) as H4; destruct (checkReady y) as [sh3 [u|e]] end;
      exact H4. }
  destruct (chunk_count d - 1 <=? chunk_index d).
  - match goal with |- context [chunk_sweep d ?x] =>
      pose proof (H3 x) as H4; destruct (chunk_sweep d x) as [sh3 [u|e]] end;
      cbn [fst] in *; sh_simpl; rewrite H4, H2, H1; reflexivity.
  - cbn [fst]. sh_simpl. rewrite H1. reflexivity.
Qed.





(** *** What the methods write and queue *)















(** ** HELLO *)




(** ** The sequence number on the wire *)





(** ** The statements above on the scenarios *)

(** Room in the bucket of a concrete shard. *)
Ltac room :=
  unfold Bucket.has_room; vm_compute;
  repeat split; first [reflexivity | discriminate | intros ?; discriminate].

Lemma invalid_session_identifies_at_once_witness :
  let p := Scenario.packet INVALID_SESSION in
  (let sh' := _onWSMessage p Scenario.ready_shard in
   seq sh' = 0 /\ sessionID sh' = None /\ timers sh' = timers Scenario.ready_shard
   /\ map op (sent (log sh')) = [2; 1; 2])
  /\ (let sh' := _onWSMessage p Scenario.busy_shard in
      sent (log sh') = sent (log Scenario.busy_shard)
      /\ Bucket.timeout (globalBucket sh') <> None
      /\ sent (log (steps [elapse 60000; bucket_wake false] sh'))
         = sent (log Scenario.busy_shard)
           ++ [{| etf := false; op := 2; d := identify_payload Scenario.busy_shard |}]).
Proof.
  cbn zeta. split.
  - destruct (invalid_session_identifies_at_once (Scenario.packet INVALID_SESSION)
                Scenario.ready_shard eq_refl) as ((H1 & H2 & H3 & _) & H4 & _).
    split; [exact H1|]. split; [exact H2|]. split; [exact H3|].
    rewrite H4; [vm_compute; reflexivity | vm_compute; reflexivity | vm_compute; reflexivity
                 | room].
  - destruct (invalid_session_identifies_at_once (Scenario.packet INVALID_SESSION)
                Scenario.busy_shard eq_refl) as (_ & _ & H).
    destruct H as (H1 & _ & H3 & _ & H5).
    + vm_compute. reflexivity.
    + vm_compute. reflexivity.
    + right. vm_compute. repeat split; try reflexivity; discriminate.
    + split; [exact H1|]. split; [exact H3|].
      apply (H5 eq_refl); [vm_compute; reflexivity | lia | vm_compute; discriminate].
Defined.




End ShardFacts.

(** * Invariants of the event loop *)

Module ShardInvariants.
Import Js Shard ShardFacts.

Lemma In_set {V} (x : string * V) k v o : In x (set k v o) -> x = (k, v) \/ In x o.
Proof.
  induction o as [|[k' v'] o IH]; simpl.
  - intros [<-|[]]. auto.
  - destruct (k' =? k)%string; simpl; intros [<-|H]; auto.
    destruct (IH H); auto.
Qed.

Lemma In_del {V} (x : string * V) k o : In x (del k o) -> In x o.
Proof.
  induction o as [|[k' v'] o IH]; simpl; [auto|].
  destruct (k' =? k)%string; simpl; intuition.
Qed.

Lemma get_In {V} k (v : V) o : get k o = Some v -> In (k, v) o.
Proof.
  induction o as [|[k' v'] o IH]; simpl; [discriminate|].
  destruct (k' =? k)%string eqn:E; [|auto].
  apply String.eqb_eq in E. intros [= ->]. subst. auto.
Qed.

(** A state whose handles only grew, whose timers and requests were
    already there and whose delay is in bounds keeps the invariant. *)
Lemma invariant_kept sh sh' :
  invariant sh ->
  (fresh sh <= fresh sh')%nat ->
  reconnectInterval sh' <= 30000 ->
  (forall x, In x (timers sh') -> In x (timers sh)) ->
  (forall k r', In (k, r') (requestMembersPromise sh') ->
     exists r, In (k, r) (requestMembersPromise sh)
               /\ timeout r' = timeout r /\ res r' = res r) ->
  invariant sh'.
Proof.
  intros [[Ht Hr] [Hi Hd]] Hfr Hi' Htm Hrq. split; split.
  - intros h tm H. apply Htm, Ht in H. lia.
  - intros k r' H. destruct (Hrq _ _ H) as (r0 & Hin & -> & ->). apply Hr in Hin. lia.
  - exact Hi'.
  - intros h tm H. apply Htm in H. eauto.
Qed.

Lemma invariant_setTimer c ms rep sh :
  invariant sh -> (c = CbReconnect -> ms <= 30000) -> invariant (setTimer c ms rep sh).
Proof.
  intros [[Ht Hr] [Hi Hd]] Hms. unfold setTimer. split; split; sh_simpl.
  - intros h tm [H|[[= <- <-]|[]]]%in_app_or; [apply Ht in H|]; lia.
  - intros k r H. apply Hr in H. lia.
  - exact Hi.
  - intros h tm [H|[[= <- <-]|[]]]%in_app_or; [eauto | exact Hms].
Qed.

Lemma invariant_clearTimer h sh : invariant sh -> invariant (clearTimer h sh).
Proof.
  intros H. apply (invariant_kept sh); auto; try apply H.
  - intros x. apply In_drop_timer.
  - intros k r' Hin. eauto.
Qed.

Lemma invariant_after_sends sh sh' : after_sends sh sh' -> invariant sh -> invariant sh'.
Proof.
  intros (l & gb & pb & fs & fr & -> & Hfr & _) H.
  apply (invariant_kept sh); sh_simpl; auto; try apply H. eauto.
Qed.

Lemma invariant_sendWS op_ d_ prio sh : invariant sh -> invariant (sendWS op_ d_ prio sh).
Proof. apply invariant_after_sends, sendWS_sends. Qed.

Lemma invariant_identify sh : invariant sh -> invariant (identify sh).
Proof.
  intros H. destruct (identify_sends sh) as (l & Hs & _).
  eapply invariant_after_sends; [exact Hs | exact H].
Qed.

Lemma invariant_resume sh : invariant sh -> invariant (resume sh).
Proof. intros H. unfold resume. apply invariant_sendWS. exact H. Qed.

Lemma invariant_reset sh : invariant sh -> invariant (reset sh).
Proof.
  intros H. destruct (reset_eq sh) as (tm & -> & Htm & _).
  apply (invariant_kept sh); sh_simpl; auto; try apply H.
  intros k r' [].
Qed.

Lemma invariant_hardReset sh : invariant sh -> invariant (hardReset sh).
Proof.
  intros H. apply invariant_reset in H. unfold hardReset.
  apply (invariant_kept (reset sh)); sh_simpl; auto; try apply H; [lia | eauto].
Qed.

Lemma invariant_stop_heartbeat sh : invariant sh -> invariant (stop_heartbeat sh).
Proof.
  intros H. unfold stop_heartbeat. destruct (heartbeatInterval sh); [|exact H].
  apply (invariant_clearTimer n) in H. exact H.
Qed.

Lemma invariant_close_ws rs o sh : invariant sh -> invariant (close_ws rs o sh).
Proof.
  intros H. unfold close_ws.
  destruct rs; try exact H; destruct o as [r|]; try exact H;
    match goal with |- context [if ?c then _ else _] => destruct c end; exact H.
Qed.

Lemma invariant_invalidate_session sh : invariant sh -> invariant (invalidate_session sh).
Proof.
  intros H. unfold invalidate_session.
  match goal with |- context [if ?c then _ else _] => destruct c end; exact H.
Qed.

Lemma invariant_reconnect_or_reset o sh :
  invariant sh -> invariant (reconnect_or_reset o sh).
Proof.
  intros H. unfold reconnect_or_reset. destruct o as [[| |]|]; try exact H.
  - apply invariant_hardReset, H.
  - destruct (autoreconnect (options (client sh))); [|exact H].
    destruct (held (sessionID sh)); [exact H|].
    pose proof (invariant_setTimer CbReconnect (reconnectInterval sh) false
                  (emit (debug ("Queueing reconnect in " +:+ pretty (reconnectInterval sh)
                                +:+ "ms | Attempt " +:+ pretty (connectAttempts sh)) None) sh))
      as H'.
    match type of H' with _ -> _ -> invariant ?x =>
      apply (invariant_kept x); sh_simpl; auto; [apply H'| lia | eauto] end;
      try exact H; intros _; apply H.
Qed.

Lemma invariant_disconnect o err sh : invariant sh -> invariant (disconnect o err sh).
Proof.
  intros H. unfold disconnect. destruct (ws sh) as [rs|]; [|exact H].
  apply invariant_reconnect_or_reset, invariant_invalidate_session.
  assert (invariant (reset (set_ws None (close_ws rs o (stop_heartbeat sh))))) as H'.
  { apply invariant_reset.
    apply invariant_stop_heartbeat, (invariant_close_ws rs o) in H. exact H. }
  destruct err; exact H'.
Qed.

Lemma invariant_heartbeat normal sh : invariant sh -> invariant (heartbeat normal sh).
Proof.
  intros H. unfold heartbeat.
  destruct (status sh); try exact H;
    (destruct (normal && negb (lastHeartbeatAck sh));
     [apply invariant_disconnect; exact H
     |apply invariant_sendWS; destruct normal; exact H]).
Qed.

Lemma invariant_requestClubMembers c o sh :
  invariant sh -> invariant (requestClubMembers c o sh).1.
Proof.
  intros H. unfold requestClubMembers.
  match goal with |- context [setTimer _ ?ms _ _] => generalize ms; intros ms0 end.
  repeat match goal with |- context [if ?c then _ else _] => destruct c end;
    cbn [fst]; try exact H;
    (match goal with |- context [sendWS ?a ?b ?c ?d] =>
       pose proof (invariant_sendWS a b c d H) as H1; set (sh1 := sendWS a b c d) in * end;
     match goal with |- context [setTimer ?a ?b ?c ?d] =>
       assert (invariant (setTimer a b c d)) as H2;
       [apply invariant_setTimer;
        [apply (invariant_kept sh1); sh_simpl; auto; try apply H1; eauto
        |intros Hc; discriminate Hc]
       |set (sh2 := setTimer a b c d) in *] end;
     destruct H2 as [[Ht Hr] [Hi Hd]];
     split; split; [exact Ht | | exact Hi | exact Hd];
     sh_simpl; intros k r [[= -> ->]|Hin]%In_set;
     [subst sh2; unfold setTimer; sh_simpl; cbn [timeout res]; lia
     |apply Hr in Hin; apply Hin]).
Qed.

Lemma invariant_checkReady sh : invariant sh -> invariant (checkReady sh).1.
Proof.
  intros H. unfold checkReady. destruct (ready sh); [exact H|].
  destruct (clubSyncQueue sh).
  - destruct (0 <? unsyncedClubs sh); [exact H|].
    destruct (getAllUsersQueue sh) as [|q qs].
    + destruct (getAllUsersCount sh); exact H.
    + unfold bind, lift.
      pose proof (invariant_requestClubMembers (JArr (JStr <$> q :: qs)) None sh H) as H1.
      destruct (requestClubMembers _ _ sh) as [sh' [p|e]]; exact H1.
  - cbn [fst]. unfold requestClubSync.
    match goal with |- context [sendWS ?a ?b ?c ?d] =>
      pose proof (invariant_sendWS a b c d H) as H1 end.
    exact H1.
Qed.

Lemma invariant_chunk_collect d sh : invariant sh -> invariant (chunk_collect d sh).
Proof.
  intros H. unfold chunk_collect.
  destruct (get _ _) as [r|] eqn:E; [|exact H].
  apply (invariant_kept sh); sh_simpl; auto; try apply H.
  intros k r' [[= -> ->]|Hin]%In_set; [|eauto].
  exists r. split; [apply get_In, E | auto].
Qed.

Lemma invariant_chunk_resolve d sh : invariant sh -> invariant (chunk_resolve d sh).
Proof.
  intros H. unfold chunk_resolve.
  destruct (get _ _) as [r|] eqn:E; [|exact H].
  apply (invariant_kept sh); sh_simpl; auto; try apply H.
  - intros x. apply In_drop_timer.
  - intros k r' Hin. apply In_del in Hin. eauto.
Qed.

Lemma invariant_chunk_sweep d sh : invariant sh -> invariant (chunk_sweep d sh).1.
Proof.
  intros H. unfold chunk_sweep. destruct (has _ _); [|exact H].
  unfold bind, lift.
  match goal with |- context [checkReady ?x] =>
    pose proof (invariant_checkReady x H) as H3; destruct (checkReady x) as [sh3 [u|e]] end;
    exact H3.
Qed.

Lemma invariant_chunk d sh : invariant sh -> invariant (CLUB_MEMBERS_CHUNK_case d sh).1.
Proof.
  intros H. unfold CLUB_MEMBERS_CHUNK_case.
  destruct (clubs (client sh) !! club_id d) as [club|]; [|exact H].
  unfold bind, lift, ret.
  assert (invariant (chunk_collect d (chunk_cache d club sh))) as H1.
  { apply invariant_chunk_collect. exact H. }
  destruct (chunk_count d - 1 <=? chunk_index d).
  - apply (invariant_chunk_resolve d), (invariant_chunk_sweep d) in H1.
    destruct (chunk_sweep d _) as [sh3 [u|e]]; exact H1.
  - exact H1.
Qed.

Lemma invariant_READY_prologue sh : invariant sh -> invariant (READY_prologue sh).
Proof.
  intros H. destruct (READY_prologue_frame sh) as (tm & -> & Htm).
  apply (invariant_kept sh); sh_simpl; auto; try apply H; [lia | eauto].
Qed.

Lemma invariant_wsEvent packet ev sh : invariant sh -> invariant (wsEvent packet ev sh).1.
Proof.
  intros H. destruct ev as [sid bot tr| |d|name]; cbn [wsEvent].
  - unfold bind, lift. apply invariant_READY_prologue in H.
    match goal with |- context [checkReady ?x] =>
      assert (invariant x) as H2;
      [|pose proof (invariant_checkReady x H2) as H3;
        destruct (checkReady x) as [sh3 [u|e]]; exact H3] end.
    repeat match goal with |- context [if ?c then _ else _] => destruct c end; exact H.
  - unfold lift. cbn [fst].
    apply invariant_READY_prologue, (invariant_heartbeat false) in H. exact H.
  - apply invariant_chunk, H.
  - exact H.
Qed.

Lemma invariant_start_heartbeat hb sh : invariant sh -> invariant (start_heartbeat hb sh).
Proof.
  intros H. unfold start_heartbeat. destruct (0 <? hb); [|exact H].
  destruct (heartbeatInterval sh) as [h|].
  - apply (invariant_clearTimer h) in H.
    apply (invariant_setTimer CbHeartbeat hb true) in H; [exact H | discriminate].
  - apply (invariant_setTimer CbHeartbeat hb true) in H; [exact H | discriminate].
Qed.

Lemma invariant_clear_connectTimeout sh : invariant sh -> invariant (clear_connectTimeout sh).
Proof.
  intros H. unfold clear_connectTimeout. destruct (connectTimeout sh) as [h|]; [|exact H].
  apply (invariant_clearTimer h) in H. exact H.
Qed.

Lemma invariant_HELLO_case hb tr sh : invariant sh -> invariant (HELLO_case hb tr sh).
Proof.
  intros H. unfold HELLO_case.
  apply (invariant_start_heartbeat hb) in H.
  match goal with |- context [clear_connectTimeout ?b] =>
    assert (invariant (clear_connectTimeout b)) as H1
      by (apply invariant_clear_connectTimeout; exact H);
    set (sh1 := clear_connectTimeout b) in * end.
  destruct (held (sessionID sh1)).
  - apply invariant_resume in H1. exact H1.
  - apply invariant_identify, (invariant_heartbeat false) in H1. exact H1.
Qed.

Lemma invariant_onPacket packet sh : invariant sh -> invariant (onPacket packet sh).1.
Proof.
  intros H. unfold onPacket, bind, lift.
  destruct (prologue_frame packet sh) as (l & -> & _).
  set (sh1 := set_seq _ _).
  assert (H1 : invariant sh1) by exact H.
  destruct (body packet) as [ev| | | |hb tr| |o]; cbn [fst].
  - destruct (bool_decide _); [exact H1|]. apply invariant_wsEvent, H1.
  - apply invariant_heartbeat, H1.
  - apply invariant_identify. exact H1.
  - apply invariant_disconnect, H1.
  - apply invariant_HELLO_case, H1.
  - exact H1.
  - exact H1.
Qed.

Lemma invariant_onWSMessage packet sh : invariant sh -> invariant (_onWSMessage packet sh).
Proof.
  intros H. unfold _onWSMessage.
  pose proof (invariant_onPacket packet sh H) as H1.
  destruct (onPacket packet sh) as [sh' [u|e]]; exact H1.
Qed.

Lemma invariant_onWSClose code_ reason sh : invariant sh -> invariant (_onWSClose code_ reason sh).
Proof.
  intros H. unfold _onWSClose.
  destruct (code_ =? 0); [apply invariant_disconnect; exact H|].
  repeat match goal with
         | |- context [if ?c then _ else _] => destruct c
         end; apply invariant_disconnect; exact H.
Qed.

Lemma invariant_initializeWS sh : invariant sh -> invariant (initializeWS sh).
Proof.
  intros H. unfold initializeWS.
  destruct (negb (nonempty (_token sh))); [apply invariant_disconnect, H|].
  sh_simpl.
  destruct (compress (options (client sh))); cbn [andb].
  - destruct (negb (ZlibSync (rt sh))); [exact H|].
    match goal with |- invariant (setTimer ?c ?ms ?r ?x) =>
      apply (invariant_setTimer c ms r); [exact H | discriminate] end.
  - match goal with |- invariant (setTimer ?c ?ms ?r ?x) =>
      apply (invariant_setTimer c ms r); [exact H | discriminate] end.
Qed.

Lemma invariant_connect sh : invariant sh -> invariant (connect sh).
Proof.
  intros H. unfold connect.
  destruct (ws sh) as [[]|]; try exact H; apply invariant_initializeWS; exact H.
Qed.

Lemma invariant_callback c sh : invariant sh -> invariant (callback c sh).
Proof.
  intros H. destruct c; cbn [callback].
  - apply invariant_heartbeat, H.
  - destruct (connecting sh); [apply invariant_disconnect, H | exact H].
  - destruct (get _ _); [|exact H].
    apply (invariant_kept sh); sh_simpl; auto; try apply H.
    intros k r' Hin. apply In_del in Hin. eauto.
  - exact H.
Qed.

Lemma invariant_fire h sh : invariant sh -> invariant (fire h sh).
Proof.
  intros H. unfold fire. destruct (find_timer h (timers sh)) as [tm|]; [|exact H].
  apply invariant_callback. destruct (repeat tm); [exact H|].
  apply invariant_clearTimer, H.
Qed.

Lemma invariant_step i sh : invariant sh -> invariant (step i sh).
Proof.
  intros H. destruct i; cbn [step].
  - apply invariant_connect, H.
  - apply invariant_disconnect, H.
  - pose proof (invariant_requestClubMembers clubID o sh H) as H1.
    destruct (requestClubMembers clubID o sh) as [sh' [p|e]]; exact H1.
  - destruct (ws sh) as [[]|]; exact H.
  - destruct (ws sh) as [[]|]; try exact H. apply invariant_onWSMessage, H.
  - destruct (ws sh); [|exact H]. apply invariant_onWSClose. exact H.
  - destruct (ws sh); exact H.
  - apply invariant_fire, H.
  - destruct presence_bucket.
    + eapply invariant_after_sends; [apply wake_presence_sends | exact H].
    + eapply invariant_after_sends; [apply wake_global_sends | exact H].
  - exact H.
Qed.

Lemma invariant_steps l sh : invariant sh -> invariant (steps l sh).
Proof.
  unfold steps. revert sh. induction l as [|i l IH]; intros sh H; [exact H|].
  apply IH, invariant_step, H.
Qed.

Lemma invariant_new id_ c r : invariant (new id_ c r).
Proof.
  unfold new. apply invariant_hardReset.
  split; split; sh_simpl; try lia; intros; contradiction.
Qed.

(** X2.  In every state a shard reaches from [new Shard(id, client)], the
    reconnect delay is at most 30000 ms, and so is the delay of every
    reconnect timer that is armed. *)
Theorem reconnect_delay_bounded id_ c r inputs : backoff_bounded (steps inputs (new id_ c r)).
Proof. apply (invariant_steps inputs), invariant_new. Qed.

End ShardInvariants.

(** * Pending requests and their timers *)

Module ShardTimers.
Import Js Shard ShardFacts ShardInvariants.

Lemma find_timer_drop_ne h h' l : h <> h' -> find_timer h (drop_timer h' l) = find_timer h l.
Proof.
  intros Hne. induction l as [|[i x] l IH]; simpl; [reflexivity|].
  destruct (Nat.eqb i h') eqn:E; simpl.
  - apply Nat.eqb_eq in E. subst i.
    destruct (Nat.eqb h' h) eqn:E'; [apply Nat.eqb_eq in E'; congruence | exact IH].
  - destruct (Nat.eqb i h); [reflexivity | exact IH].
Qed.

Lemma find_timer_drop_some h h' l x :
  find_timer h (drop_timer h' l) = Some x -> find_timer h l = Some x.
Proof.
  destruct (Nat.eq_dec h h') as [->|Hne].
  - rewrite find_drop_timer. discriminate.
  - rewrite find_timer_drop_ne by exact Hne. auto.
Qed.

Lemma find_timer_drop_all_some h rs l x :
  find_timer h (drop_all rs l) = Some x -> find_timer h l = Some x.
Proof.
  revert l. induction rs as [|e rs IH]; simpl; intros l H; [exact H|].
  apply IH in H. eapply find_timer_drop_some, H.
Qed.

Lemma find_timer_app_old h l l' x : find_timer h l = Some x -> find_timer h (l ++ l') = Some x.
Proof.
  induction l as [|[i y] l IH]; simpl; [discriminate|].
  destruct (Nat.eqb i h); auto.
Qed.

Lemma find_timer_fresh h x l : find_timer h l = None -> find_timer h (l ++ [(h, x)]) = Some x.
Proof.
  induction l as [|[i y] l IH]; simpl.
  - rewrite Nat.eqb_refl. reflexivity.
  - destruct (Nat.eqb i h); [discriminate | exact IH].
Qed.

Lemma later_unarmed h sh :
  invariant sh -> (fresh sh <= h)%nat -> find_timer h (timers sh) = None.
Proof.
  intros [[Ht _] _] Hle. destruct (find_timer h (timers sh)) eqn:E; [|reflexivity].
  apply find_timer_In, Ht in E. lia.
Qed.

Lemma fresh_unarmed sh : invariant sh -> find_timer (fresh sh) (timers sh) = None.
Proof. intros H. apply later_unarmed; [exact H | lia]. Qed.

(** The timers of two pending requests are two timers. *)
Lemma request_timers_differ sh k k' rq rq' :
  timers_owned sh -> k <> k' ->
  get k (requestMembersPromise sh) = Some rq ->
  get k' (requestMembersPromise sh) = Some rq' ->
  timeout rq <> timeout rq'.
Proof.
  intros (Hr & _) Hne H1 H2 Heq.
  destruct (Hr _ _ H1) as (ms & F1). destruct (Hr _ _ H2) as (ms' & F2).
  rewrite Heq in F1. congruence.
Qed.

(** A state with the same handles or fewer, whose requests were there
    with their timers, keeps its timers owned. *)
Lemma owned_kept sh sh' :
  timers_owned sh ->
  (fresh sh <= fresh sh')%nat ->
  (forall k rq', get k (requestMembersPromise sh') = Some rq' ->
     exists rq, get k (requestMembersPromise sh) = Some rq
                /\ timeout rq' = timeout rq /\ res rq' = res rq
                /\ find_timer (timeout rq) (timers sh') = find_timer (timeout rq) (timers sh)) ->
  (forall h x, find_timer h (timers sh') = Some x -> find_timer h (timers sh) = Some x) ->
  heartbeatInterval sh' = heartbeatInterval sh \/ heartbeatInterval sh' = None ->
  connectTimeout sh' = connectTimeout sh \/ connectTimeout sh' = None ->
  timers_owned sh'.
Proof.
  intros (Hr & Hh & Hc) Hfr Hrq Htm Hhb Hct. split; [|split].
  - intros k rq' H. destruct (Hrq _ _ H) as (rq & Hg & -> & -> & ->). eauto.
  - intros h H. destruct Hhb as [E|E]; rewrite E in H; [|discriminate].
    destruct (Hh _ H) as [Hlt Hcb]. split; [lia|]. intros tm Hf. apply Hcb, Htm, Hf.
  - intros h H. destruct Hct as [E|E]; rewrite E in H; [|discriminate].
    destruct (Hc _ H) as [Hlt Hcb]. split; [lia|]. intros tm Hf. apply Hcb, Htm, Hf.
Qed.

(** A timer armed under a new handle takes nothing from the others. *)
Lemma owned_setTimer c ms rep sh :
  invariant sh -> timers_owned sh -> timers_owned (setTimer c ms rep sh).
Proof.
  intros Hinv (Hr & Hh & Hc). unfold setTimer. split; [|split]; sh_simpl.
  - intros k rq H. destruct (Hr _ _ H) as (ms' & F). exists ms'.
    apply find_timer_app_old, F.
  - intros h H. destruct (Hh _ H) as [Hlt Hcb]. split; [lia|].
    intros tm. rewrite find_timer_app_ne by lia. apply Hcb.
  - intros h H. destruct (Hc _ H) as [Hlt Hcb]. split; [lia|].
    intros tm. rewrite find_timer_app_ne by lia. apply Hcb.
Qed.

(** Clearing a timer that no pending request waits for. *)
Lemma owned_clearTimer h sh :
  timers_owned sh ->
  (forall k rq, get k (requestMembersPromise sh) = Some rq -> timeout rq <> h) ->
  timers_owned (clearTimer h sh).
Proof.
  intros Ho Hne. apply (owned_kept sh); sh_simpl; auto.
  - intros k rq H. exists rq. repeat split; auto.
    apply find_timer_drop_ne, (Hne _ _ H).
  - intros h' x. apply find_timer_drop_some.
Qed.

Lemma heartbeat_handle_free sh h k rq :
  timers_owned sh -> heartbeatInterval sh = Some h ->
  get k (requestMembersPromise sh) = Some rq -> timeout rq <> h.
Proof.
  intros (Hr & Hh & _) H Hg Heq. destruct (Hr _ _ Hg) as (ms & F). rewrite Heq in F.
  destruct (Hh _ H) as [_ Hcb]. specialize (Hcb _ F). discriminate Hcb.
Qed.

Lemma connect_handle_free sh h k rq :
  timers_owned sh -> connectTimeout sh = Some h ->
  get k (requestMembersPromise sh) = Some rq -> timeout rq <> h.
Proof.
  intros (Hr & _ & Hc) H Hg Heq. destruct (Hr _ _ Hg) as (ms & F). rewrite Heq in F.
  destruct (Hc _ H) as [_ Hcb]. specialize (Hcb _ F). discriminate Hcb.
Qed.

Lemma owned_after_sends sh sh' : after_sends sh sh' -> timers_owned sh -> timers_owned sh'.
Proof.
  intros (l & gb & pb & fs & fr & -> & Hfr & _) H.
  apply (owned_kept sh); sh_simpl; auto. intros k rq Hg. exists rq. auto.
Qed.

Lemma owned_sendWS op_ d_ prio sh : timers_owned sh -> timers_owned (sendWS op_ d_ prio sh).
Proof. apply owned_after_sends, sendWS_sends. Qed.

Lemma owned_identify sh : timers_owned sh -> timers_owned (identify sh).
Proof.
  intros H. destruct (identify_sends sh) as (l & Hs & _).
  eapply owned_after_sends; [exact Hs | exact H].
Qed.

Lemma owned_resume sh : timers_owned sh -> timers_owned (resume sh).
Proof. intros H. unfold resume. apply owned_sendWS. exact H. Qed.

Lemma owned_stop_heartbeat sh : timers_owned sh -> timers_owned (stop_heartbeat sh).
Proof.
  intros H. unfold stop_heartbeat. destruct (heartbeatInterval sh) as [h|] eqn:E; [|exact H].
  apply (owned_kept sh); sh_simpl; auto.
  - intros k rq Hg. exists rq. repeat split; auto.
    apply find_timer_drop_ne, (heartbeat_handle_free sh h k rq H E Hg).
  - intros h' x. apply find_timer_drop_some.
Qed.

Lemma owned_clear_connectTimeout sh : timers_owned sh -> timers_owned (clear_connectTimeout sh).
Proof.
  intros H. unfold clear_connectTimeout. destruct (connectTimeout sh) as [h|] eqn:E.
  - apply (owned_kept sh); sh_simpl; auto.
    + intros k rq Hg. exists rq. repeat split; auto.
      apply find_timer_drop_ne, (connect_handle_free sh h k rq H E Hg).
    + intros h' x. apply find_timer_drop_some.
  - apply (owned_kept sh); sh_simpl; auto. intros k rq Hg. exists rq. auto.
Qed.

Lemma owned_reset sh : timers_owned sh -> timers_owned (reset sh).
Proof.
  intros H. unfold reset. rewrite reset_loop. sh_simpl.
  match goal with |- timers_owned (clear_connectTimeout ?X) =>
    assert (timers_owned X) as HX end.
  { apply (owned_kept sh); sh_simpl; auto.
    - intros k rq Hg. discriminate Hg.
    - intros h x. apply find_timer_drop_all_some. }
  apply owned_clear_connectTimeout, HX.
Qed.

Lemma owned_hardReset sh : timers_owned sh -> timers_owned (hardReset sh).
Proof.
  intros H. apply owned_reset in H. unfold hardReset.
  apply (owned_kept (reset sh)); sh_simpl; auto.
  intros k rq Hg. exists rq. auto.
Qed.

Lemma owned_close_ws rs o sh : timers_owned sh -> timers_owned (close_ws rs o sh).
Proof.
  intros H. unfold close_ws.
  destruct rs; try exact H; destruct o as [r|]; try exact H;
    match goal with |- context [if ?c then _ else _] => destruct c end; exact H.
Qed.

Lemma owned_invalidate_session sh : timers_owned sh -> timers_owned (invalidate_session sh).
Proof.
  intros H. unfold invalidate_session.
  match goal with |- context [if ?c then _ else _] => destruct c end; exact H.
Qed.

Lemma owned_reconnect_or_reset o sh :
  invariant sh -> timers_owned sh -> timers_owned (reconnect_or_reset o sh).
Proof.
  intros Hinv H. unfold reconnect_or_reset. destruct o as [[| |]|]; try exact H.
  - apply owned_hardReset, H.
  - destruct (autoreconnect (options (client sh))); [|exact H].
    destruct (held (sessionID sh)); [exact H|].
    pose proof (owned_setTimer CbReconnect (reconnectInterval sh) false
                  (emit (debug ("Queueing reconnect in " +:+ pretty (reconnectInterval sh)
                                +:+ "ms | Attempt " +:+ pretty (connectAttempts sh)) None) sh)
                  Hinv H) as H'.
    exact H'.
Qed.

Lemma owned_disconnect o err sh :
  invariant sh -> timers_owned sh -> timers_owned (disconnect o err sh).
Proof.
  intros Hinv H. unfold disconnect. destruct (ws sh) as [rs|]; [|exact H].
  assert (invariant (reset (set_ws None (close_ws rs o (stop_heartbeat sh))))) as Hinv'.
  { apply invariant_reset.
    apply invariant_stop_heartbeat, (invariant_close_ws rs o) in Hinv. exact Hinv. }
  assert (timers_owned (reset (set_ws None (close_ws rs o (stop_heartbeat sh))))) as H'.
  { apply owned_reset.
    apply owned_stop_heartbeat, (owned_close_ws rs o) in H. exact H. }
  apply owned_reconnect_or_reset.
  - apply invariant_invalidate_session. destruct err; exact Hinv'.
  - apply owned_invalidate_session. destruct err; exact H'.
Qed.

Lemma owned_heartbeat normal sh :
  invariant sh -> timers_owned sh -> timers_owned (heartbeat normal sh).
Proof.
  intros Hinv H. unfold heartbeat.
  destruct (status sh); try exact H;
    (destruct (normal && negb (lastHeartbeatAck sh));
     [apply owned_disconnect; [exact Hinv | exact H]
     |apply owned_sendWS; destruct normal; exact H]).
Qed.

Lemma owned_requestClubMembers c o sh :
  invariant sh -> timers_owned sh -> timers_owned (requestClubMembers c o sh).1.
Proof.
  intros Hinv H. unfold requestClubMembers.
  match goal with |- context [setTimer _ ?ms _ _] => generalize ms; intros ms0 end.
  repeat match goal with |- context [if ?c then _ else _] => destruct c end;
    cbn [fst]; try exact H;
    (match goal with |- context [sendWS ?a ?b ?c ?d] =>
       pose proof (owned_sendWS a b c d H) as H1;
       pose proof (invariant_sendWS a b c d Hinv) as Hinv1;
       set (sh1 := sendWS a b c d) in * end;
     assert (Hun : find_timer (S (fresh sh1)) (timers sh1) = None)
       by (apply later_unarmed; [exact Hinv1 | lia]);
     destruct H1 as (Hr & Hh & Hc);
     unfold setTimer; split; [|split]; sh_simpl;
     [intros k rq Hg;
      destruct (String.eqb_spec k (nonce (rt sh) (draws sh))) as [->|Hne];
      [rewrite get_set_eq in Hg; injection Hg as <-; cbn [timeout res];
       eexists; apply find_timer_fresh, Hun
      |rewrite get_set_ne in Hg by exact Hne;
       destruct (Hr _ _ Hg) as (ms' & F); exists ms'; apply find_timer_app_old, F]
     |intros h Hb; destruct (Hh _ Hb) as [Hlt Hcb]; split; [lia|];
      intros tm; rewrite find_timer_app_ne by lia; apply Hcb
     |intros h Hb; destruct (Hc _ Hb) as [Hlt Hcb]; split; [lia|];
      intros tm; rewrite find_timer_app_ne by lia; apply Hcb]).
Qed.

Lemma owned_checkReady sh :
  invariant sh -> timers_owned sh -> timers_owned (checkReady sh).1.
Proof.
  intros Hinv H. unfold checkReady. destruct (ready sh); [exact H|].
  destruct (clubSyncQueue sh).
  - destruct (0 <? unsyncedClubs sh); [exact H|].
    destruct (getAllUsersQueue sh) as [|q qs].
    + destruct (getAllUsersCount sh); exact H.
    + unfold bind, lift.
      pose proof (owned_requestClubMembers (JArr (JStr <$> q :: qs)) None sh Hinv H) as H1.
      destruct (requestClubMembers _ _ sh) as [sh' [p|e]]; exact H1.
  - cbn [fst]. unfold requestClubSync.
    match goal with |- context [sendWS ?a ?b ?c ?d] =>
      pose proof (owned_sendWS a b c d H) as H1 end.
    exact H1.
Qed.

Lemma owned_chunk_collect d sh : timers_owned sh -> timers_owned (chunk_collect d sh).
Proof.
  intros H. unfold chunk_collect.
  destruct (get _ _) as [r|] eqn:E; [|exact H].
  apply (owned_kept sh); sh_simpl; auto.
  intros k rq' Hg. destruct (String.eqb_spec k (chunk_nonce d)) as [->|Hne].
  - rewrite get_set_eq in Hg. injection Hg as <-. exists r. auto.
  - rewrite get_set_ne in Hg by exact Hne. exists rq'. auto.
Qed.

Lemma owned_chunk_resolve d sh : timers_owned sh -> timers_owned (chunk_resolve d sh).
Proof.
  intros H. unfold chunk_resolve.
  destruct (get _ _) as [r|] eqn:E; [|exact H].
  apply (owned_kept sh); sh_simpl; auto.
  - intros k rq' Hg. destruct (String.eqb_spec k (chunk_nonce d)) as [->|Hne].
    + rewrite get_del_eq in Hg. discriminate.
    + rewrite get_del_ne in Hg by exact Hne. exists rq'. repeat split; auto.
      apply find_timer_drop_ne.
      apply (request_timers_differ sh k (chunk_nonce d)); assumption.
  - intros h x. apply find_timer_drop_some.
Qed.

Lemma owned_chunk_sweep d sh :
  invariant sh -> timers_owned sh -> timers_owned (chunk_sweep d sh).1.
Proof.
  intros Hinv H. unfold chunk_sweep. destruct (has _ _); [|exact H].
  unfold bind, lift.
  match goal with |- context [checkReady ?x] =>
    pose proof (owned_checkReady x Hinv H) as H3; destruct (checkReady x) as [sh3 [u|e]] end;
    exact H3.
Qed.

Lemma owned_chunk d sh :
  invariant sh -> timers_owned sh -> timers_owned (CLUB_MEMBERS_CHUNK_case d sh).1.
Proof.
  intros Hinv H. unfold CLUB_MEMBERS_CHUNK_case.
  destruct (clubs (client sh) !! club_id d) as [club|]; [|exact H].
  unfold bind, lift, ret.
  assert (invariant (chunk_collect d (chunk_cache d club sh))) as Hinv1
    by (apply invariant_chunk_collect; exact Hinv).
  assert (timers_owned (chunk_collect d (chunk_cache d club sh))) as H1
    by (apply owned_chunk_collect; exact H).
  destruct (chunk_count d - 1 <=? chunk_index d).
  - apply (invariant_chunk_resolve d) in Hinv1. apply (owned_chunk_resolve d) in H1.
    pose proof (owned_chunk_sweep d _ Hinv1 H1) as H2.
    destruct (chunk_sweep d _) as [sh3 [u|e]]; exact H2.
  - exact H1.
Qed.

Lemma owned_READY_prologue sh : timers_owned sh -> timers_owned (READY_prologue sh).
Proof.
  intros H. unfold READY_prologue.
  match goal with |- context [clear_connectTimeout ?X] =>
    pose proof (owned_clear_connectTimeout X H) as H1 end.
  exact H1.
Qed.

Lemma owned_wsEvent packet ev sh :
  invariant sh -> timers_owned sh -> timers_owned (wsEvent packet ev sh).1.
Proof.
  intros Hinv H. destruct ev as [sid bot tr| |d|name]; cbn [wsEvent].
  - unfold bind, lift.
    apply invariant_READY_prologue in Hinv. apply owned_READY_prologue in H.
    match goal with |- context [checkReady ?x] =>
      assert (invariant x /\ timers_owned x) as [Hi2 H2];
      [|pose proof (owned_checkReady x Hi2 H2) as H3;
        destruct (checkReady x) as [sh3 [u|e]]; exact H3] end.
    repeat match goal with |- context [if ?c then _ else _] => destruct c end;
      split; assumption.
  - unfold lift. cbn [fst].
    apply invariant_READY_prologue in Hinv. apply owned_READY_prologue in H.
    apply (owned_heartbeat false) in H; [exact H | exact Hinv].
  - apply owned_chunk; assumption.
  - exact H.
Qed.

Lemma owned_start_heartbeat hb sh :
  invariant sh -> timers_owned sh -> timers_owned (start_heartbeat hb sh).
Proof.
  intros Hinv H. unfold start_heartbeat. destruct (0 <? hb); [|exact H].
  assert (exists sh0, invariant sh0 /\ timers_owned sh0 /\ fresh sh0 = fresh sh
                      /\ (match heartbeatInterval sh with
                          | Some h => clearTimer h sh
                          | None => sh
                          end) = sh0) as (sh0 & Hinv0 & (Hr & Hh & Hc) & Hfr & ->).
  { eexists. split; [|split; [|split; [|reflexivity]]].
    - destruct (heartbeatInterval sh) as [h|]; [apply invariant_clearTimer|]; exact Hinv.
    - destruct (heartbeatInterval sh) as [h|] eqn:E; [|exact H].
      apply owned_clearTimer; [exact H|].
      intros k rq Hg. apply (heartbeat_handle_free sh h k rq H E Hg).
    - destruct (heartbeatInterval sh); reflexivity. }
  pose proof (fresh_unarmed sh0 Hinv0) as Hun.
  unfold setTimer. split; [|split]; sh_simpl.
  - intros k rq Hg. destruct (Hr _ _ Hg) as (ms' & F). exists ms'.
    apply find_timer_app_old, F.
  - intros h [= <-]. split; [lia|].
    intros tm. rewrite (find_timer_fresh _ _ _ Hun). intros [= <-]. reflexivity.
  - intros h Hb. destruct (Hc _ Hb) as [Hlt Hcb]. split; [lia|].
    intros tm. rewrite find_timer_app_ne by lia. apply Hcb.
Qed.

Lemma owned_HELLO_case hb tr sh :
  invariant sh -> timers_owned sh -> timers_owned (HELLO_case hb tr sh).
Proof.
  intros Hinv H. unfold HELLO_case.
  pose proof (invariant_start_heartbeat hb sh Hinv) as Hinv0.
  pose proof (owned_start_heartbeat hb sh Hinv H) as H0.
  match goal with |- context [clear_connectTimeout ?b] =>
    assert (invariant (clear_connectTimeout b)) as Hinv1
      by (apply invariant_clear_connectTimeout; exact Hinv0);
    assert (timers_owned (clear_connectTimeout b)) as H1
      by (apply owned_clear_connectTimeout; exact H0);
    set (sh1 := clear_connectTimeout b) in * end.
  destruct (held (sessionID sh1)).
  - apply owned_resume in H1. exact H1.
  - apply (owned_heartbeat false); [apply invariant_identify, Hinv1|].
    apply owned_identify, H1.
Qed.

Lemma owned_onPacket packet sh :
  invariant sh -> timers_owned sh -> timers_owned (onPacket packet sh).1.
Proof.
  intros Hinv H. unfold onPacket, bind, lift.
  destruct (prologue_frame packet sh) as (l & -> & _).
  set (sh1 := set_seq _ _).
  assert (Hinv1 : invariant sh1) by exact Hinv.
  assert (H1 : timers_owned sh1) by exact H.
  destruct (body packet) as [ev| | | |hb tr| |o]; cbn [fst].
  - destruct (bool_decide _); [exact H1|]. apply owned_wsEvent; assumption.
  - apply owned_heartbeat; assumption.
  - apply owned_identify. exact H1.
  - apply owned_disconnect; assumption.
  - apply owned_HELLO_case; assumption.
  - exact H1.
  - exact H1.
Qed.

Lemma owned_onWSMessage packet sh :
  invariant sh -> timers_owned sh -> timers_owned (_onWSMessage packet sh).
Proof.
  intros Hinv H. unfold _onWSMessage.
  pose proof (owned_onPacket packet sh Hinv H) as H1.
  destruct (onPacket packet sh) as [sh' [u|e]]; exact H1.
Qed.

Lemma owned_onWSClose code_ reason sh :
  invariant sh -> timers_owned sh -> timers_owned (_onWSClose code_ reason sh).
Proof.
  intros Hinv H. unfold _onWSClose.
  destruct (code_ =? 0); [apply owned_disconnect; [exact Hinv | exact H]|].
  repeat match goal with
         | |- context [if ?c then _ else _] => destruct c
         end; (apply owned_disconnect; [exact Hinv | exact H]).
Qed.

Lemma owned_initializeWS sh :
  invariant sh -> timers_owned sh -> timers_owned (initializeWS sh).
Proof.
  intros Hinv H. unfold initializeWS.
  destruct (negb (nonempty (_token sh))); [apply owned_disconnect; assumption|].
  sh_simpl.
  pose proof (fresh_unarmed sh Hinv) as Hun. destruct H as (Hr & Hh & Hc).
  assert (Hgoal : forall l,
            timers_owned (setTimer CbConnect (connectionTimeout (options (client sh))) false
                            (set_connectTimeout (Some (fresh sh))
                               (set_log l (set_ws (Some CONNECTING)
                                             (set_status st_connecting sh)))))).
  { intros l. unfold setTimer. split; [|split]; sh_simpl.
    - intros k rq Hg. destruct (Hr _ _ Hg) as (ms' & F). exists ms'.
      apply find_timer_app_old, F.
    - intros h Hb. destruct (Hh _ Hb) as [Hlt Hcb]. split; [lia|].
      intros tm. rewrite find_timer_app_ne by lia. apply Hcb.
    - intros h [= <-]. split; [lia|].
      intros tm. rewrite (find_timer_fresh _ _ _ Hun). intros [= <-]. reflexivity. }
  destruct (compress (options (client sh))); cbn [andb].
  - destruct (negb (ZlibSync (rt sh))); [exact (conj Hr (conj Hh Hc))|]. apply Hgoal.
  - apply Hgoal.
Qed.

Lemma owned_connect sh : invariant sh -> timers_owned sh -> timers_owned (connect sh).
Proof.
  intros Hinv H. unfold connect.
  destruct (ws sh) as [[]|]; try exact H; apply owned_initializeWS; assumption.
Qed.

Lemma owned_callback c sh :
  invariant sh -> timers_owned sh -> timers_owned (callback c sh).
Proof.
  intros Hinv H. destruct c; cbn [callback].
  - apply owned_heartbeat; assumption.
  - destruct (connecting sh); [apply owned_disconnect; assumption | exact H].
  - destruct (get _ _); [|exact H].
    apply (owned_kept sh); sh_simpl; auto.
    intros k rq' Hg. destruct (String.eqb_spec k nonce0) as [->|Hne].
    + rewrite get_del_eq in Hg. discriminate.
    + rewrite get_del_ne in Hg by exact Hne. exists rq'. auto.
  - exact H.
Qed.


Lemma owned_fire h sh : invariant sh -> timers_owned sh -> timers_owned (fire h sh).
Proof.
  intros Hinv H. unfold fire. destruct (find_timer h (timers sh)) as [tm|] eqn:F; [|exact H].
  destruct (repeat tm); [apply owned_callback; assumption|].
  assert (Hother : (forall k p, cb tm <> CbRequestMembers k p) ->
                   timers_owned (callback (cb tm) (clearTimer h sh))).
  { intros Hcb. apply owned_callback; [apply invariant_clearTimer, Hinv|].
    apply owned_clearTimer; [exact H|].
    intros k rq Hg Heq. destruct H as (Hr & _). destruct (Hr _ _ Hg) as (ms & F').
    rewrite Heq, F in F'. injection F' as ->. apply (Hcb k (res rq)). reflexivity. }
  destruct (cb tm) as [| |k p|] eqn:Ecb;
    try (apply Hother; intros k0 p0; discriminate).
  cbn [callback]. sh_simpl.
  assert (Hmine : forall k' rq', get k' (requestMembersPromise sh) = Some rq' ->
                                 timeout rq' = h -> k' = k).
  { intros k' rq' Hg Heq. destruct H as (Hr & _). destruct (Hr _ _ Hg) as (ms & F').
    rewrite Heq, F in F'. injection F' as ->. cbn [cb] in Ecb. congruence. }
  destruct (get k (requestMembersPromise sh)) as [rq|] eqn:G.
  - apply (owned_kept sh); sh_simpl; auto.
    + intros k' rq' Hg. destruct (String.eqb_spec k' k) as [->|Hne].
      * rewrite get_del_eq in Hg. discriminate.
      * rewrite get_del_ne in Hg by exact Hne. exists rq'. repeat split; auto.
        apply find_timer_drop_ne. intros Heq. apply Hne, (Hmine k' rq' Hg Heq).
    + intros h' x. apply find_timer_drop_some.
  - apply (owned_clearTimer h sh H).
    intros k' rq' Hg Heq. rewrite (Hmine k' rq' Hg Heq) in Hg. congruence.
Qed.

Lemma owned_step i sh : invariant sh -> timers_owned sh -> timers_owned (step i sh).
Proof.
  intros Hinv H. destruct i; cbn [step].
  - apply owned_connect; assumption.
  - apply owned_disconnect; assumption.
  - pose proof (owned_requestClubMembers clubID o sh Hinv H) as H1.
    destruct (requestClubMembers clubID o sh) as [sh' [p|e]]; exact H1.
  - destruct (ws sh) as [[]|]; exact H.
  - destruct (ws sh) as [[]|]; try exact H. apply owned_onWSMessage; assumption.
  - destruct (ws sh); [|exact H]. apply owned_onWSClose; assumption.
  - destruct (ws sh); exact H.
  - apply owned_fire; assumption.
  - destruct presence_bucket.
    + eapply owned_after_sends; [apply wake_presence_sends | exact H].
    + eapply owned_after_sends; [apply wake_global_sends | exact H].
  - exact H.
Qed.

Lemma owned_steps l sh :
  invariant sh -> timers_owned sh -> invariant (steps l sh) /\ timers_owned (steps l sh).
Proof.
  unfold steps. revert sh. induction l as [|i l IH]; intros sh Hinv H; [auto|].
  apply IH; [apply invariant_step, Hinv | apply owned_step; assumption].
Qed.

Lemma owned_new id_ c r : timers_owned (new id_ c r).
Proof.
  unfold new. apply owned_hardReset.
  split; [|split]; sh_simpl; intros; discriminate.
Qed.

(** X28.  No member request is left waiting for ever: in every state a
    shard reaches from [new Shard(id, client)], each pending member
    request has its timeout armed, and when that timer comes due the
    request is resolved with the members collected so far and its entry
    is removed. *)
Theorem pending_request_is_timed id_ c r inputs k rq :
  let sh := steps inputs (new id_ c r) in
  get k (requestMembersPromise sh) = Some rq ->
  exists ms,
    find_timer (timeout rq) (timers sh)
    = Some {| cb := CbRequestMembers k (res rq); delay := ms; repeat := false |}
    /\ get k (requestMembersPromise (step (timer (timeout rq)) sh)) = None
    /\ log (step (timer (timeout rq)) sh)
       = log sh ++ [Resolve (res rq) (VMembers (members rq))].
Proof.
  cbn zeta. intros Hg.
  destruct (owned_steps inputs (new id_ c r) (invariant_new id_ c r) (owned_new id_ c r))
    as (_ & Hr & _).
  destruct (Hr _ _ Hg) as (ms & F). exists ms. split; [exact F|].
  unfold step, fire. rewrite F. cbn [repeat cb callback]. sh_simpl. rewrite Hg. sh_simpl.
  split; [apply get_del_eq | reflexivity].
Qed.

Lemma pending_request_is_timed_witness :
  exists ms,
    find_timer 6 (timers Scenario.requesting_shard)
    = Some {| cb := CbRequestMembers "1700000000000.n0" 5; delay := ms; repeat := false |}
    /\ log (step (timer 6) Scenario.requesting_shard)
       = log Scenario.requesting_shard ++ [Resolve 5 (VMembers ["u1"])].
Proof.
  destruct (pending_request_is_timed 0 Scenario.client_ Scenario.runtime Scenario.requesting
              "1700000000000.n0"
              {| res := 5; received := 0; members := ["u1"]; timeout := 6 |})
    as (ms & H1 & _ & H2).
  - vm_compute. reflexivity.
  - exists ms. split; [exact H1 | exact H2].
Defined.

End ShardTimers.

(** * The shard from connect to close *)

Module ShardLifecycle.
Import Js Shard ShardFacts.

(** ** disconnect *)

Lemma disconnect_errors r err sh :
  ws sh <> None ->
  errors (log (disconnect (Some r) err sh))
  = errors (log sh) ++ match err with Some e => [e] | None => [] end.
Proof.
  intros Hws.
  destruct (disconnect_facts r err sh Hws)
    as (_ & _ & (l1 & l2 & Hlog & (Hs1 & He1 & Hc1) & _ & Hs2 & He2 & _) & _).
  destruct (quiet_resolutions (requestMembersPromise sh)) as (_ & He3 & _).
  rewrite Hlog, !errors_app, He1, He2, He3.
  destruct err; cbn [errors app]; rewrite ?app_nil_r; reflexivity.
Qed.

Lemma disconnect_sent r err sh :
  ws sh <> None -> sent (log (disconnect (Some r) err sh)) = sent (log sh).
Proof.
  intros Hws.
  destruct (disconnect_facts r err sh Hws)
    as (_ & _ & (l1 & l2 & Hlog & (Hs1 & He1 & Hc1) & _ & Hs2 & He2 & _) & _).
  destruct (quiet_resolutions (requestMembersPromise sh)) as (Hs3 & _ & _).
  rewrite Hlog, !sent_app, Hs1, Hs2, Hs3.
  destruct err; cbn [sent app]; rewrite ?app_nil_r; reflexivity.
Qed.

(** The fields [reset] leaves behind survive the rest of [disconnect]. *)
Lemma disconnect_fields r err sh :
  ws sh <> None ->
  let sh' := disconnect (Some r) err sh in
  requestMembersPromise sh' = [] /\ ready sh' = false /\ preReady sh' = false
  /\ connecting sh' = false /\ heartbeatInterval sh' = None
  /\ connectTimeout sh' = None /\ lastHeartbeatAck sh' = true /\ latency sh' = None.
Proof.
  intros Hws. cbn zeta. unfold disconnect.
  destruct (ws sh) as [rs|]; [clear Hws | congruence].
  destruct (stop_heartbeat_frame sh) as (tm1 & -> & Htm1).
  match goal with |- context [close_ws ?a ?b ?c] =>
    destruct (close_ws_frame a r c) as (l1 & -> & Hq1 & Hr1) end.
  sh_simpl.
  match goal with |- context [reset ?c] =>
    destruct (reset_eq c) as (tm2 & -> & Htm2 & Hclr) end.
  sh_simpl. rewrite emit_error_eq. sh_simpl.
  match goal with |- context [invalidate_session ?c] =>
    destruct (invalidate_session_frame c) as (l2 & sid & -> & Hq2 & Hr2 & Hsid) end.
  sh_simpl.
  destruct r.
  - cbn [reconnect_or_reset]. unfold hardReset.
    match goal with |- context [reset ?c] =>
      destruct (reset_eq c) as (tm3 & -> & _) end.
    sh_simpl. repeat split; reflexivity.
  - cbn [reconnect_or_reset]. sh_simpl. repeat split; reflexivity.
  - match goal with |- context [reconnect_or_reset _ ?c] =>
      destruct (reconnect_auto_frame c) as (l3 & tm3 & fr & ri & dr & -> & _) end.
    sh_simpl. repeat split; reflexivity.
Qed.

Lemma In_resolutions k rq l :
  In (k, rq) l -> In (Resolve (res rq) (VNumber (received rq))) (resolutions l).
Proof.
  intros H. unfold resolutions.
  apply (in_map (fun e : string * MemberRequest =>
                   Resolve (res e.2) (VNumber (received e.2)))) in H.
  exact H.
Qed.

(** X3.  Whatever the [reconnect] option, a [disconnect] on a held socket
    leaves the shard without socket, heartbeat or pending request: every
    pending member request is settled (with its [received] field), the
    "disconnect" event is emitted, and nothing is written to the socket. *)
Theorem disconnect_settles_everything r err sh :
  ws sh <> None ->
  let sh' := disconnect (Some r) err sh in
  ws sh' = None /\ status sh' = st_disconnected /\ ready sh' = false
  /\ heartbeatInterval sh' = None /\ connectTimeout sh' = None
  /\ requestMembersPromise sh' = []
  /\ sent (log sh') = sent (log sh)
  /\ In (SuperEmit "disconnect") (log sh')
  /\ (forall k rq, In (k, rq) (requestMembersPromise sh) ->
        In (Resolve (res rq) (VNumber (received rq))) (log sh')).
Proof.
  intros Hws. cbn zeta.
  destruct (disconnect_fields r err sh Hws) as (H1 & H2 & _ & _ & H3 & H4 & _).
  destruct (disconnect_facts r err sh Hws) as (H5 & H6 & (l1 & l2 & Hlog & _) & _).
  split; [exact H5|]. split; [exact H6|]. split; [exact H2|]. split; [exact H3|].
  split; [exact H4|]. split; [exact H1|].
  split; [apply disconnect_sent, Hws|].
  rewrite Hlog. split.
  - rewrite !in_app_iff. right. right. right. right. left. left. reflexivity.
  - intros k rq Hin. rewrite !in_app_iff. right. right. left.
    eapply In_resolutions, Hin.
Qed.

Lemma disconnect_settles_everything_witness :
  let sh' := disconnect (Some r_true) None Scenario.requesting_shard in
  ws sh' = None /\ requestMembersPromise sh' = []
  /\ sent (log sh') = sent (log Scenario.requesting_shard).
Proof.
  cbn zeta.
  destruct (disconnect_settles_everything r_true None Scenario.requesting_shard)
    as (H1 & _ & _ & _ & _ & H2 & H3 & _).
  - vm_compute. discriminate.
  - split; [exact H1|]. split; [exact H2 | exact H3].
Defined.

(** X4.  A second [disconnect] does nothing: the first one dropped the
    socket, so no further error or "disconnect" event is emitted and no
    second reconnect is asked for. *)
Theorem disconnect_twice r err o2 err2 sh :
  disconnect o2 err2 (disconnect (Some r) err sh) = disconnect (Some r) err sh.
Proof.
  destruct (ws sh) as [rs|] eqn:E.
  - assert (Hws : ws sh <> None) by congruence.
    destruct (disconnect_facts r err sh Hws) as (H & _).
    unfold disconnect at 1. rewrite H. reflexivity.
  - unfold disconnect. rewrite E. cbn. rewrite E. reflexivity.
Qed.

(** [disconnect] with [reconnect: "auto"] when no session is held and the
    client reconnects by itself. *)
Lemma disconnect_auto_queues err sh :
  ws sh <> None -> held (sessionID sh) = false ->
  autoreconnect (options (client sh)) = true ->
  let sh' := disconnect (Some r_auto) err sh in
  sessionID sh' = sessionID sh /\ seq sh' = seq sh
  /\ connects (log sh') = connects (log sh)
  /\ In (fresh sh, {| cb := CbReconnect; delay := reconnectInterval sh; repeat := false |})
        (timers sh')
  /\ reconnectInterval sh'
     = Z.min (scaled (rt sh) (draws sh) (reconnectInterval sh)) 30000.
Proof.
  intros Hws Hsid Hauto. cbn zeta. unfold disconnect.
  destruct (ws sh) as [rs|]; [clear Hws | congruence].
  destruct (stop_heartbeat_frame sh) as (tm1 & -> & Htm1).
  match goal with |- context [close_ws ?a ?b ?c] =>
    destruct (close_ws_frame a r_auto c) as (l1 & -> & Hq1 & Hr1) end.
  sh_simpl.
  match goal with |- context [reset ?c] =>
    destruct (reset_eq c) as (tm2 & -> & Htm2 & Hclr) end.
  sh_simpl. rewrite emit_error_eq. sh_simpl.
  unfold invalidate_session. sh_simpl. rewrite Hsid. cbn [andb].
  unfold reconnect_or_reset. sh_simpl. rewrite Hauto, Hsid.
  sh_simpl. destruct Hq1 as (_ & _ & Hc1).
  destruct (quiet_resolutions (requestMembersPromise sh)) as (_ & _ & Hc3).
  split; [reflexivity|]. split; [reflexivity|]. split.
  - rewrite <- !app_assoc, !connects_app, Hc1, Hc3.
    destruct err; cbn [connects app]; lia.
  - split; [|reflexivity]. apply in_or_app. right. left. reflexivity.
Qed.

(** [disconnect] with [reconnect: "auto"] when a session is held and may
    still be resumed. *)
Lemma disconnect_auto_resumes err sh :
  ws sh <> None -> held (sessionID sh) = true ->
  connectAttempts sh < maxResumeAttempts (options (client sh)) ->
  autoreconnect (options (client sh)) = true ->
  let sh' := disconnect (Some r_auto) err sh in
  sessionID sh' = sessionID sh /\ seq sh' = seq sh
  /\ connects (log sh') = S (connects (log sh))
  /\ (forall x, In x (timers sh') -> In x (timers sh))
  /\ reconnectInterval sh' = reconnectInterval sh.
Proof.
  intros Hws Hsid Hatt Hauto. cbn zeta. unfold disconnect.
  destruct (ws sh) as [rs|]; [clear Hws | congruence].
  destruct (stop_heartbeat_frame sh) as (tm1 & -> & Htm1).
  match goal with |- context [close_ws ?a ?b ?c] =>
    destruct (close_ws_frame a r_auto c) as (l1 & -> & Hq1 & Hr1) end.
  sh_simpl.
  match goal with |- context [reset ?c] =>
    destruct (reset_eq c) as (tm2 & -> & Htm2 & Hclr) end.
  sh_simpl. rewrite emit_error_eq. sh_simpl.
  unfold invalidate_session. sh_simpl. rewrite Hsid.
  replace (maxResumeAttempts (options (client sh)) <=? connectAttempts sh) with false
    by (symmetry; apply Z.leb_gt; lia).
  cbn [andb].
  unfold reconnect_or_reset. sh_simpl. rewrite Hauto, Hsid.
  sh_simpl. destruct Hq1 as (_ & _ & Hc1).
  destruct (quiet_resolutions (requestMembersPromise sh)) as (_ & _ & Hc3).
  split; [reflexivity|]. split; [reflexivity|]. split.
  - rewrite <- !app_assoc, !connects_app, Hc1, Hc3.
    destruct err; cbn [connects app]; lia.
  - split; [|reflexivity]. intros x Hx. sh_simpl in Htm2. auto.
Qed.


(** [disconnect] with [reconnect: "auto"] when the session was tried too
    often. *)
Lemma disconnect_auto_gives_up err sh :
  ws sh <> None -> held (sessionID sh) = true ->
  maxResumeAttempts (options (client sh)) <= connectAttempts sh ->
  autoreconnect (options (client sh)) = true ->
  let sh' := disconnect (Some r_auto) err sh in
  sessionID sh' = None /\ seq sh' = seq sh
  /\ connects (log sh') = connects (log sh)
  /\ In (fresh sh, {| cb := CbReconnect; delay := reconnectInterval sh; repeat := false |})
        (timers sh').
Proof.
  intros Hws Hsid Hatt Hauto. cbn zeta. unfold disconnect.
  destruct (ws sh) as [rs|]; [clear Hws | congruence].
  destruct (stop_heartbeat_frame sh) as (tm1 & -> & Htm1).
  match goal with |- context [close_ws ?a ?b ?c] =>
    destruct (close_ws_frame a r_auto c) as (l1 & -> & Hq1 & Hr1) end.
  sh_simpl.
  match goal with |- context [reset ?c] =>
    destruct (reset_eq c) as (tm2 & -> & Htm2 & Hclr) end.
  sh_simpl. rewrite emit_error_eq. sh_simpl.
  unfold invalidate_session. sh_simpl. rewrite Hsid.
  replace (maxResumeAttempts (options (client sh)) <=? connectAttempts sh) with true
    by (symmetry; apply Z.leb_le; lia).
  cbn [andb].
  unfold reconnect_or_reset. sh_simpl. rewrite Hauto. cbn [held].
  sh_simpl. destruct Hq1 as (_ & _ & Hc1).
  destruct (quiet_resolutions (requestMembersPromise sh)) as (_ & _ & Hc3).
  split; [reflexivity|]. split; [reflexivity|]. split.
  - rewrite <- !app_assoc, !connects_app, Hc1, Hc3.
    destruct err; cbn [connects app]; lia.
  - apply in_or_app. right. left. reflexivity.
Qed.

Lemma disconnect_session r err sh :
  let sh' := disconnect (Some r) err sh in
  sessionID sh' = sessionID sh \/ sessionID sh' = None.
Proof.
  cbn zeta. unfold disconnect.
  destruct (ws sh) as [rs|]; [|left; reflexivity].
  destruct (stop_heartbeat_frame sh) as (tm1 & -> & Htm1).
  match goal with |- context [close_ws ?a ?b ?c] =>
    destruct (close_ws_frame a r c) as (l1 & -> & Hq1 & Hr1) end.
  sh_simpl.
  match goal with |- context [reset ?c] =>
    destruct (reset_eq c) as (tm2 & -> & Htm2 & Hclr) end.
  sh_simpl. rewrite emit_error_eq. sh_simpl.
  match goal with |- context [invalidate_session ?c] =>
    destruct (invalidate_session_frame c) as (l2 & sid & -> & Hq2 & Hr2 & Hsid) end.
  sh_simpl in Hsid.
  destruct r.
  - right. cbn [reconnect_or_reset]. apply hardReset_frame.
  - cbn [reconnect_or_reset]. sh_simpl. tauto.
  - match goal with |- context [reconnect_or_reset _ ?c] =>
      destruct (reconnect_auto_frame c) as (l3 & tm3 & fr & ri & dr & -> & _) end.
    sh_simpl. tauto.
Qed.

(** X5.  After a [disconnect] with [reconnect: "auto"] on a client that
    reconnects by itself: a session that may still be resumed is kept and
    the connect is asked for at once; a session tried [maxResumeAttempts]
    times is dropped, and then, as when none was held, the connect waits
    for a timer armed with the current reconnect delay. *)
Theorem auto_reconnect_resumes_or_requeues err sh :
  ws sh <> None ->
  autoreconnect (options (client sh)) = true ->
  let sh' := disconnect (Some r_auto) err sh in
  let waits := In (fresh sh, {| cb := CbReconnect; delay := reconnectInterval sh;
                                repeat := false |}) (timers sh') in
  (held (sessionID sh) = true ->
   connectAttempts sh < maxResumeAttempts (options (client sh)) ->
   sessionID sh' = sessionID sh /\ seq sh' = seq sh
   /\ connects (log sh') = S (connects (log sh))
   /\ forall x, In x (timers sh') -> In x (timers sh))
  /\ (held (sessionID sh) = true ->
      maxResumeAttempts (options (client sh)) <= connectAttempts sh ->
      sessionID sh' = None /\ connects (log sh') = connects (log sh) /\ waits)
  /\ (held (sessionID sh) = false ->
      connects (log sh') = connects (log sh) /\ waits
      /\ reconnectInterval sh'
         = Z.min (scaled (rt sh) (draws sh) (reconnectInterval sh)) 30000).
Proof.
  intros Hws Hauto. cbn zeta. split; [|split].
  - intros Hsid Hatt.
    destruct (disconnect_auto_resumes err sh Hws Hsid Hatt Hauto) as (H1 & H2 & H3 & H4 & _).
    auto.
  - intros Hsid Hatt.
    destruct (disconnect_auto_gives_up err sh Hws Hsid Hatt Hauto) as (H1 & _ & H3 & H4).
    auto.
  - intros Hsid.
    destruct (disconnect_auto_queues err sh Hws Hsid Hauto) as (_ & _ & H3 & H4 & H5).
    auto.
Qed.

Lemma auto_reconnect_resumes_or_requeues_witness :
  let sh := Scenario.ready_shard in
  let sh' := disconnect (Some r_auto) None sh in
  sessionID sh' = sessionID sh /\ connects (log sh') = S (connects (log sh)).
Proof.
  cbn zeta.
  destruct (auto_reconnect_resumes_or_requeues None Scenario.ready_shard) as (H & _).
  - vm_compute. discriminate.
  - reflexivity.
  - destruct H as (H1 & _ & H3 & _).
    + reflexivity.
    + vm_compute. reflexivity.
    + split; [exact H1 | exact H3].
Defined.

(** ** Close codes *)

(** What [_onWSClose] hands to [disconnect], reported. *)
Lemma close_report r e pre sh0 X :
  ws X <> None ->
  sent (log X) = sent (log sh0) ->
  errors (log X) = errors (log sh0) ++ pre ->
  let sh' := disconnect (Some r) (Some e) X in
  ws sh' = None /\ status sh' = st_disconnected
  /\ sent (log sh') = sent (log sh0)
  /\ errors (log sh') = errors (log sh0) ++ pre ++ [e].
Proof.
  intros Hws Hs He. cbn zeta.
  destruct (disconnect_facts r (Some e) X Hws) as (H1 & H2 & _).
  split; [exact H1|]. split; [exact H2|].
  rewrite disconnect_sent, disconnect_errors, Hs, He, <- app_assoc by exact Hws.
  auto.
Qed.

Ltac close_code :=
  lazy beta iota zeta delta [_onWSClose Z.eqb Pos.eqb orb andb negb];
  cbn [fmap option_fmap option_map with_code message Err].

Lemma close_reported_ex r msg c pre sh0 X :
  ws X <> None ->
  sent (log X) = sent (log sh0) ->
  errors (log X) = errors (log sh0) ++ pre ->
  let sh' := disconnect (Some r) (Some {| message := msg; code := Some c |}) X in
  ws sh' = None /\ status sh' = st_disconnected
  /\ sent (log sh') = sent (log sh0)
  /\ exists msg', errors (log sh')
                  = errors (log sh0) ++ pre ++ [{| message := msg'; code := Some c |}].
Proof.
  intros Hws Hs He.
  destruct (close_report r {| message := msg; code := Some c |} pre sh0 X Hws Hs He)
    as (A & B & C & D).
  cbn zeta. eauto 6.
Qed.

Ltac close_reported sh :=
  eapply (close_reported_ex _ _ _ _ sh);
  [sh_simpl; discriminate
  |sh_simpl; rewrite <- ?app_assoc; cbn [app]; rewrite sent_app;
   cbn [sent]; apply app_nil_r
  |sh_simpl; rewrite <- ?app_assoc; cbn [app]; rewrite errors_app;
   cbn [errors]; reflexivity].

(** X6.  Every close of the socket with a code other than 1000 is reported
    as one error that carries the code (after the "Invalid token" error
    when the code is 4004); the shard ends without socket, and nothing is
    written to the socket that closed. *)
Theorem unclean_close_reports_code code_ reason sh :
  ws sh <> None -> code_ <> 0 -> code_ <> 1000 ->
  let sh' := step (ws_on_close code_ reason) sh in
  ws sh' = None /\ status sh' = st_disconnected
  /\ sent (log sh') = sent (log sh)
  /\ exists msg,
       errors (log sh')
       = errors (log sh)
         ++ (if code_ =? 4004 then [Err ("Invalid token: " +:+ _token sh)] else [])
         ++ [{| message := msg; code := Some code_ |}].
Proof.
  intros Hws H0 H1000. cbn zeta. unfold step.
  destruct (ws sh) as [rs|] eqn:Ers; [clear Hws | congruence].
  destruct (Z.eqb_spec code_ 4001) as [->|?]; [close_code; close_reported sh|].
  destruct (Z.eqb_spec code_ 4002) as [->|?]; [close_code; close_reported sh|].
  destruct (Z.eqb_spec code_ 4003) as [->|?]; [close_code; close_reported sh|].
  destruct (Z.eqb_spec code_ 4004) as [->|?]; [close_code; close_reported sh|].
  destruct (Z.eqb_spec code_ 4005) as [->|?]; [close_code; close_reported sh|].
  destruct (Z.eqb_spec code_ 4006) as [->|?]; [close_code; close_reported sh|].
  destruct (Z.eqb_spec code_ 4009) as [->|?]; [close_code; close_reported sh|].
  destruct (Z.eqb_spec code_ 4007) as [->|?]; [close_code; close_reported sh|].
  destruct (Z.eqb_spec code_ 4008) as [->|?]; [close_code; close_reported sh|].
  destruct (Z.eqb_spec code_ 4010) as [->|?]; [close_code; close_reported sh|].
  destruct (Z.eqb_spec code_ 4011) as [->|?]; [close_code; close_reported sh|].
  destruct (Z.eqb_spec code_ 4013) as [->|?]; [close_code; close_reported sh|].
  destruct (Z.eqb_spec code_ 4014) as [->|?]; [close_code; close_reported sh|].
  destruct (Z.eqb_spec code_ 1006) as [->|?]; [close_code; close_reported sh|].
  unfold _onWSClose.
  repeat match goal with
         | H : code_ <> ?k |- _ => rewrite (proj2 (Z.eqb_neq code_ k) H); clear H
         end.
  cbn [orb negb andb].
  destruct (nonempty reason);
    cbn [fmap option_fmap option_map with_code message Err]; close_reported sh.
Qed.

Lemma unclean_close_reports_code_witness :
  let sh' := step (ws_on_close 1006 "") Scenario.ready_shard in
  ws sh' = None /\ sent (log sh') = sent (log Scenario.ready_shard).
Proof.
  cbn zeta.
  destruct (unclean_close_reports_code 1006 "" Scenario.ready_shard) as (H1 & _ & H2 & _).
  - vm_compute. discriminate.
  - discriminate.
  - discriminate.
  - split; [exact H1 | exact H2].
Defined.


(** X7.  A close with code 1000, or with no code, is not an error: nothing
    is emitted as "error".  The shard still drops the socket and, keeping
    its sequence number and at most forgetting its session, reconnects as
    after any other loss of the connection. *)
Theorem clean_close_reports_nothing code_ reason sh :
  ws sh <> None -> code_ = 0 \/ code_ = 1000 ->
  let sh' := step (ws_on_close code_ reason) sh in
  errors (log sh') = errors (log sh)
  /\ ws sh' = None /\ seq sh' = seq sh
  /\ (sessionID sh' = sessionID sh \/ sessionID sh' = None)
  /\ (autoreconnect (options (client sh)) = true ->
        connects (log sh') = S (connects (log sh))
        \/ exists h ms, In (h, {| cb := CbReconnect; delay := ms; repeat := false |})
                            (timers sh')).
Proof.
  intros Hws Hcode. cbn zeta. unfold step.
  destruct (ws sh) as [rs|] eqn:Ers; [clear Hws | congruence].
  assert (Hgen : forall d1 d2,
            let X := emit d2 (emit d1 (set_ws (Some CLOSED) sh)) in
            let sh' := disconnect (Some r_auto) None X in
            errors (log X) = errors (log sh) -> connects (log X) = connects (log sh) ->
            errors (log sh') = errors (log sh)
            /\ ws sh' = None /\ seq sh' = seq sh
            /\ (sessionID sh' = sessionID sh \/ sessionID sh' = None)
            /\ (autoreconnect (options (client sh)) = true ->
                  connects (log sh') = S (connects (log sh))
                  \/ exists h ms, In (h, {| cb := CbReconnect; delay := ms; repeat := false |})
                                      (timers sh'))).
  { intros d1 d2 X sh' He Hc.
    assert (HX : ws X <> None) by (subst X; sh_simpl; discriminate).
    destruct (disconnect_facts r_auto None X HX) as (H1 & _ & _ & H2 & _ & _ & H3).
    split; [subst sh'; rewrite disconnect_errors, He, app_nil_r by exact HX; reflexivity|].
    split; [exact H1|]. split; [apply H2; discriminate|].
    split; [apply (disconnect_session r_auto None X)|].
    intros Hauto. fold sh' in H3. rewrite Hc in H3. apply H3; [reflexivity | exact Hauto]. }
  destruct Hcode as [-> | ->]; close_code; apply Hgen; sh_simpl;
    rewrite <- ?app_assoc; cbn [app]; rewrite ?errors_app, ?connects_app;
    cbn [errors connects]; rewrite ?app_nil_r; lia || reflexivity.
Qed.

Lemma clean_close_reports_nothing_witness :
  let sh' := step (ws_on_close 1000 "bye") Scenario.ready_shard in
  errors (log sh') = errors (log Scenario.ready_shard) /\ ws sh' = None.
Proof.
  cbn zeta.
  destruct (clean_close_reports_nothing 1000 "bye" Scenario.ready_shard) as (H1 & H2 & _).
  - vm_compute. discriminate.
  - right. reflexivity.
  - split; [exact H1 | exact H2].
Defined.

(** X8.  The close codes 4010, 4011, 4013 and 4014 end the session for
    good: the shard is hard reset (no session, sequence 0), no connect is
    asked for and no timer is armed. *)
Theorem fatal_close_codes_give_up code_ reason sh :
  ws sh <> None -> In code_ [4010; 4011; 4013; 4014] ->
  let sh' := step (ws_on_close code_ reason) sh in
  sessionID sh' = None /\ seq sh' = 0 /\ ws sh' = None
  /\ connects (log sh') = connects (log sh)
  /\ (forall x, In x (timers sh') -> In x (timers sh)).
Proof.
  intros Hws Hcode. cbn zeta. unfold step.
  destruct (ws sh) as [rs|] eqn:Ers; [clear Hws | congruence].
  assert (Hgen : forall e d1 d2,
            let X := set_sessionID None (emit d2 (emit d1 (set_ws (Some CLOSED) sh))) in
            let sh' := disconnect (Some r_false) e X in
            sessionID sh' = None /\ seq sh' = 0 /\ ws sh' = None
            /\ connects (log sh') = connects (log sh)
            /\ (forall x, In x (timers sh') -> In x (timers sh))).
  { intros e d1 d2 X sh'.
    assert (HX : ws X <> None) by (subst X; sh_simpl; discriminate).
    destruct (disconnect_facts r_false e X HX)
      as (H1 & _ & (l1 & l2 & Hlog & (_ & _ & Hc1) & _ & _ & _ & _ & Hc2) & _ & Hfalse & _).
    destruct (Hfalse eq_refl) as (Hsid & Hseq & Htm).
    destruct (quiet_resolutions (requestMembersPromise X)) as (_ & _ & Hc3).
    split; [exact Hsid|]. split; [exact Hseq|]. split; [exact H1|]. split; [|exact Htm].
    fold sh' in Hlog. rewrite Hlog, !connects_app, Hc1, Hc2, Hc3 by discriminate.
    subst X. sh_simpl. rewrite <- !app_assoc, connects_app. cbn [app connects].
    destruct e; cbn [connects]; lia. }
  destruct Hcode as [<-|[<-|[<-|[<-|[]]]]]; close_code; apply Hgen.
Qed.

Lemma fatal_close_codes_give_up_witness :
  let sh' := step (ws_on_close 4014 "Disallowed intents.") Scenario.ready_shard in
  sessionID sh' = None /\ seq sh' = 0.
Proof.
  cbn zeta.
  destruct (fatal_close_codes_give_up 4014 "Disallowed intents." Scenario.ready_shard)
    as (H1 & H2 & _).
  - vm_compute. discriminate.
  - cbn. tauto.
  - split; [exact H1 | exact H2].
Defined.

(** X9.  The close codes 4003, 4006 and 4009 cost the session but not the
    connection: the session id is dropped, the sequence number is kept,
    and a client that reconnects by itself arms the reconnect timer with
    the current delay instead of connecting at once. *)
Theorem session_close_codes_requeue code_ reason sh :
  ws sh <> None -> In code_ [4003; 4006; 4009] ->
  autoreconnect (options (client sh)) = true ->
  let sh' := step (ws_on_close code_ reason) sh in
  sessionID sh' = None /\ seq sh' = seq sh /\ ws sh' = None
  /\ connects (log sh') = connects (log sh)
  /\ In (fresh sh, {| cb := CbReconnect; delay := reconnectInterval sh; repeat := false |})
        (timers sh').
Proof.
  intros Hws Hcode Hauto. cbn zeta. unfold step.
  destruct (ws sh) as [rs|] eqn:Ers; [clear Hws | congruence].
  assert (Hgen : forall e d1 d2,
            let X := set_sessionID None (emit d2 (emit d1 (set_ws (Some CLOSED) sh))) in
            let sh' := disconnect (Some r_auto) e X in
            sessionID sh' = None /\ seq sh' = seq sh /\ ws sh' = None
            /\ connects (log sh') = connects (log sh)
            /\ In (fresh sh, {| cb := CbReconnect; delay := reconnectInterval sh;
                                repeat := false |}) (timers sh')).
  { intros e d1 d2 X sh'.
    assert (HX : ws X <> None) by (subst X; sh_simpl; discriminate).
    destruct (disconnect_auto_queues e X HX eq_refl Hauto) as (H1 & H2 & H3 & H4 & _).
    destruct (disconnect_facts r_auto e X HX) as (H5 & _).
    split; [exact H1|]. split; [exact H2|]. split; [exact H5|]. split; [|exact H4].
    fold sh' in H3. rewrite H3. subst X. sh_simpl.
    rewrite <- !app_assoc, connects_app. cbn [app connects]. lia. }
  destruct Hcode as [<-|[<-|[<-|[]]]]; close_code; apply Hgen.
Qed.

Lemma session_close_codes_requeue_witness :
  let sh' := step (ws_on_close 4009 "Session timed out.") Scenario.ready_shard in
  sessionID sh' = None /\ seq sh' = seq Scenario.ready_shard.
Proof.
  cbn zeta.
  destruct (session_close_codes_requeue 4009 "Session timed out." Scenario.ready_shard)
    as (H1 & H2 & _).
  - vm_compute. discriminate.
  - cbn. tauto.
  - reflexivity.
  - split; [exact H1 | exact H2].
Defined.

(** X10.  The close code 4007 resets the sequence number: the error names
    the number that was refused, and the shard goes on from 0. *)
Theorem close_4007_resets_sequence reason sh :
  ws sh <> None ->
  let sh' := step (ws_on_close 4007 reason) sh in
  seq sh' = 0
  /\ errors (log sh')
     = errors (log sh)
       ++ [{| message := "Invalid sequence number: " +:+ pretty (seq sh);
              code := Some 4007 |}]
  /\ (sessionID sh' = sessionID sh \/ sessionID sh' = None).
Proof.
  intros Hws. cbn zeta. unfold step.
  destruct (ws sh) as [rs|] eqn:Ers; [clear Hws | congruence].
  close_code.
  match goal with |- context [disconnect (Some r_auto) ?e ?X] =>
    assert (HX : ws X <> None) by (sh_simpl; discriminate);
    destruct (disconnect_facts r_auto e X HX) as (_ & _ & _ & H2 & _);
    pose proof (disconnect_session r_auto e X) as H3;
    pose proof (disconnect_errors r_auto e X HX) as H4
  end.
  cbn zeta in *. sh_simpl in *.
  split; [apply H2; discriminate|]. split; [|exact H3].
  rewrite H4, <- !app_assoc. cbn [app]. rewrite errors_app. cbn [errors app].
  rewrite <- app_assoc. reflexivity.
Qed.

Lemma close_4007_resets_sequence_witness :
  seq Scenario.ready_shard = 1
  /\ seq (step (ws_on_close 4007 "Invalid seq.") Scenario.ready_shard) = 0.
Proof.
  split; [reflexivity|].
  apply (close_4007_resets_sequence "Invalid seq." Scenario.ready_shard).
  vm_compute. discriminate.
Defined.

End ShardLifecycle.

(** * Connecting *)

Module ShardConnect.
Import Js Shard ShardFacts ShardLifecycle.

Lemma find_timer_app_new h x l :
  find_timer h l = None -> find_timer h (l ++ [(h, x)]) = Some x.
Proof.
  induction l as [|[i y] l IH]; simpl.
  - rewrite Nat.eqb_refl. reflexivity.
  - destruct (Nat.eqb i h); [discriminate | exact IH].
Qed.

Lemma handles_fresh_unarmed sh : handles_fresh sh -> find_timer (fresh sh) (timers sh) = None.
Proof.
  intros [Ht _]. destruct (find_timer (fresh sh) (timers sh)) eqn:E; [|reflexivity].
  apply find_timer_In, Ht in E. lia.
Qed.

(** [connect] when no socket is in the way, a token is there and the
    compression, if asked for, can be set up. *)
Lemma connect_opens sh :
  ws sh = None \/ ws sh = Some CLOSED -> nonempty (_token sh) = true -> zlib_ok sh ->
  exists l,
    connect sh
    = sh |> set_connectAttempts (connectAttempts sh + 1) |> set_connecting true
         |> set_status st_connecting |> set_log (log sh ++ l)
         |> set_ws (Some CONNECTING) |> set_connectTimeout (Some (fresh sh))
         |> set_timers
              (timers sh ++ [(fresh sh, {| cb := CbConnect;
                                           delay := connectionTimeout (options (client sh));
                                           repeat := false |})])
         |> set_fresh (S (fresh sh))
    /\ errors l = [] /\ sent l = [] /\ connects l = 0%nat.
Proof.
  intros Hws Htok Hz. unfold zlib_ok in Hz.
  assert (connect sh = initializeWS (set_connecting true
                                       (set_connectAttempts (connectAttempts sh + 1) sh))) as ->.
  { unfold connect. destruct Hws as [-> | ->]; reflexivity. }
  unfold initializeWS. sh_simpl. rewrite Htok, Hz. cbn [negb].
  destruct (compress (options (client sh))).
  - exists [Emit (debug "Initializing zlib-sync-based compression" None); ZlibInflateNew; WsNew].
    split; [|repeat split]. destruct sh. sh_norm. rewrite <- !app_assoc. reflexivity.
  - exists [WsNew]. split; [|repeat split]. destruct sh. sh_norm. reflexivity.
Qed.

(** X11.  [connect] opens a socket and arms the connection timeout; the
    shard still counts as connecting after the socket has opened, so when
    the timer comes due before HELLO the shard drops the socket with the
    error "Connection timeout". *)
Theorem connect_times_out sh :
  ws sh = None \/ ws sh = Some CLOSED -> nonempty (_token sh) = true -> zlib_ok sh ->
  handles_fresh sh ->
  let sh1 := connect sh in
  let h := fresh sh in
  ws sh1 = Some CONNECTING /\ status sh1 = st_connecting
  /\ connectAttempts sh1 = connectAttempts sh + 1
  /\ find_timer h (timers sh1)
     = Some {| cb := CbConnect; delay := connectionTimeout (options (client sh));
               repeat := false |}
  /\ (forall sh2, sh2 = sh1 \/ sh2 = step ws_on_open sh1 ->
        let sh3 := step (timer h) sh2 in
        ws sh3 = None /\ status sh3 = st_disconnected
        /\ errors (log sh3) = errors (log sh) ++ [Err "Connection timeout"]).
Proof.
  intros Hws Htok Hz Hfr. cbn zeta.
  destruct (connect_opens sh Hws Htok Hz) as (l & -> & He & Hs & Hc).
  pose proof (find_timer_app_new (fresh sh)
                {| cb := CbConnect; delay := connectionTimeout (options (client sh));
                   repeat := false |} (timers sh) (handles_fresh_unarmed sh Hfr)) as Hfind.
  sh_simpl.
  split; [reflexivity|]. split; [reflexivity|]. split; [reflexivity|]. split; [exact Hfind|].
  intros sh2 [-> | ->]; unfold step, _onWSOpen, fire; sh_simpl; rewrite Hfind;
    cbn [repeat cb callback]; sh_simpl;
    match goal with |- context [disconnect (Some r_auto) ?e ?X] =>
      assert (HX : ws X <> None) by (sh_simpl; discriminate);
      destruct (disconnect_facts r_auto e X HX) as (H1 & H2 & _);
      pose proof (disconnect_errors r_auto e X HX) as H3
    end;
    sh_simpl in H3;
    (split; [exact H1|]; split; [exact H2|]);
    rewrite H3, <- ?app_assoc, errors_app; cbn [app errors]; rewrite ?errors_app, He;
    cbn [errors app]; rewrite ?app_nil_r; reflexivity.
Qed.

Lemma connect_times_out_witness :
  let sh1 := connect Scenario.fresh_shard in
  ws sh1 = Some CONNECTING
  /\ errors (log (step (timer 0) sh1)) = [Err "Connection timeout"].
Proof.
  cbn zeta.
  destruct (connect_times_out Scenario.fresh_shard) as (H1 & _ & _ & _ & H2).
  - left. reflexivity.
  - reflexivity.
  - reflexivity.
  - split; intros; vm_compute in H; contradiction.
  - split; [exact H1|]. apply (H2 (connect Scenario.fresh_shard)). left. reflexivity.
Defined.

(** X12.  [connect] on a shard that has no token opens nothing; on a shard
    that never held a socket the error "Token not specified" is not even
    emitted, because [disconnect] returns before it looks at the error. *)
Theorem connect_without_token sh :
  nonempty (_token sh) = false ->
  (ws sh = None ->
     connect sh = sh |> set_connectAttempts (connectAttempts sh + 1) |> set_connecting true)
  /\ (ws sh = Some CLOSED ->
        let sh' := connect sh in
        ws sh' = None
        /\ errors (log sh') = errors (log sh) ++ [Err "Token not specified"]
        /\ exists l, log sh' = l ++ [Uncaught TypeError]).
Proof.
  intros Htok. split; intros Hws.
  - unfold connect. rewrite Hws. unfold initializeWS. sh_simpl. rewrite Htok. cbn [negb].
    unfold disconnect. sh_simpl. rewrite Hws. reflexivity.
  - cbn zeta. unfold connect. rewrite Hws. unfold initializeWS. sh_simpl.
    rewrite Htok. cbn [negb]. unfold disconnect. sh_simpl. rewrite Hws.
    match goal with |- context [stop_heartbeat ?X] =>
      destruct (stop_heartbeat_frame X) as (tm1 & -> & Htm1) end.
    cbn [close_ws]. sh_simpl.
    match goal with |- context [reset ?c] =>
      destruct (reset_eq c) as (tm2 & -> & Htm2 & Hclr) end.
    sh_simpl. cbn [emit_error]. sh_simpl.
    match goal with |- context [invalidate_session ?c] =>
      destruct (invalidate_session_frame c) as (l2 & sid & -> & (_ & He2 & _) & _) end.
    cbn [reconnect_or_reset]. sh_simpl.
    destruct (quiet_resolutions (requestMembersPromise sh)) as (_ & He3 & _).
    split; [reflexivity|]. split; [|eexists; reflexivity].
    rewrite !errors_app, He2, He3. cbn [errors app]. rewrite !app_nil_r. reflexivity.
Qed.

Lemma connect_without_token_witness :
  let sh := set__token "" Scenario.fresh_shard in
  log (connect sh) = [] /\ ws (connect sh) = None.
Proof.
  cbn zeta.
  destruct (connect_without_token (set__token "" Scenario.fresh_shard)) as (H & _).
  - reflexivity.
  - rewrite H by reflexivity. split; reflexivity.
Defined.

End ShardConnect.

(** * Heartbeat, RESUMED and READY *)

Module ShardSession.
Import Js Shard ShardFacts.

(** ** Heartbeat and its acknowledgement *)

(** X13.  The latency is the time between a heartbeat and its
    acknowledgement: a periodic heartbeat marks itself unacknowledged, and
    the HEARTBEAT_ACK that arrives [ms] later marks it acknowledged and
    sets [latency] to [ms]. *)
Theorem heartbeat_ack_latency ms packet sh :
  status sh <> st_resuming -> lastHeartbeatAck sh = true ->
  body packet = HEARTBEAT_ACK -> 0 <= ms ->
  let sh1 := heartbeat true sh in
  let sh2 := _onWSMessage packet (step (elapse ms) sh1) in
  lastHeartbeatAck sh1 = false /\ lastHeartbeatSent sh1 = Some (now sh)
  /\ lastHeartbeatAck sh2 = true /\ latency sh2 = Some ms
  /\ lastHeartbeatReceived sh2 = Some (now sh + ms).
Proof.
  intros Hst Hack Hbody Hms. cbn zeta.
  assert (exists sh0, heartbeat true sh = sh0
                      /\ after_sends (set_lastHeartbeatSent (Some (now sh))
                                        (set_lastHeartbeatAck false sh)) sh0)
    as (sh0 & -> & (l & gb & pb & fs & fr & -> & _)).
  { eexists. split; [reflexivity|]. unfold heartbeat. rewrite Hack. cbn [andb negb].
    destruct (status sh); try congruence; apply sendWS_sends. }
  sh_simpl. split; [reflexivity|]. split; [reflexivity|].
  unfold step, _onWSMessage, onPacket, bind, lift.
  match goal with |- context [onPacket_seq packet (emit_rawWS packet ?X)] =>
    destruct (prologue_frame packet X) as (l' & -> & _) end.
  rewrite Hbody. sh_simpl. cbn [default from_option Datatypes.id].
  rewrite Z.max_r by lia.
  split; [reflexivity|]. split; [f_equal; lia | reflexivity].
Qed.

Lemma heartbeat_ack_latency_witness :
  let sh1 := heartbeat true Scenario.ready_shard in
  latency (_onWSMessage (Scenario.packet HEARTBEAT_ACK) (step (elapse 42) sh1)) = Some 42.
Proof.
  cbn zeta.
  destruct (heartbeat_ack_latency 42 (Scenario.packet HEARTBEAT_ACK) Scenario.ready_shard)
    as (_ & _ & _ & H & _).
  - vm_compute. discriminate.
  - vm_compute. reflexivity.
  - reflexivity.
  - lia.
  - exact H.
Defined.

(** ** RESUMED and READY *)

Lemma not_disabled name sh :
  ~ In name (disableEvents (options (client sh))) ->
  bool_decide (name ∈ disableEvents (options (client sh))) = false.
Proof.
  intros H. apply bool_decide_eq_false. intros Hin. apply H.
  apply list_elem_of_In. exact Hin.
Qed.

(** X14.  RESUMED ends a resume: the shard is ready again, its connect
    attempts and reconnect delay are back at their initial values, and it
    heartbeats at once with the sequence number it has reached. *)
Theorem resumed_heartbeats_at_once packet sh :
  body packet = EVENT RESUMED ->
  ~ In "RESUMED" (disableEvents (options (client sh))) ->
  ws_open sh = true -> Bucket.has_room 1 (globalBucket sh) ->
  let sh' := _onWSMessage packet sh in
  status sh' = st_ready /\ ready sh' = true /\ connecting sh' = false
  /\ connectAttempts sh' = 0 /\ reconnectInterval sh' = 1000
  /\ sessionID sh' = sessionID sh
  /\ sent (log sh')
     = sent (log sh) ++ [{| etf := Erlpack (rt sh); op := GatewayOPCodes.HEARTBEAT;
                            d := JNum (seq_after packet sh) |}].
Proof.
  intros Hbody Hen Hopen Hroom. cbn zeta.
  unfold _onWSMessage, onPacket, bind, lift.
  destruct (prologue_frame packet sh) as (l & -> & Hs & _).
  rewrite Hbody. rewrite (not_disabled "RESUMED") by exact Hen.
  cbn [wsEvent]. unfold lift.
  match goal with |- context [READY_prologue ?X] =>
    destruct (READY_prologue_frame X) as (tm & -> & _) end.
  sh_simpl.
  rewrite heartbeat_open; [| sh_simpl; discriminate | exact Hopen | exact Hroom].
  unfold transmit. sh_simpl.
  repeat (split; [reflexivity|]).
  rewrite <- !app_assoc, !sent_app, Hs. reflexivity.
Qed.

Lemma resumed_heartbeats_at_once_witness :
  let sh' := _onWSMessage (Scenario.dispatch 7 RESUMED) Scenario.reopened_shard in
  status sh' = st_ready /\ ready sh' = true.
Proof.
  cbn zeta.
  destruct (resumed_heartbeats_at_once (Scenario.dispatch 7 RESUMED) Scenario.reopened_shard)
    as (H1 & H2 & _).
  - reflexivity.
  - vm_compute. tauto.
  - reflexivity.
  - vm_compute. repeat split; discriminate.
  - split; [exact H1 | exact H2].
Defined.

(** X15.  READY on a shard with nothing queued completes the handshake: the
    session id is stored, the shard is ready, connect attempts and
    reconnect delay are back at their initial values, and "shardPreReady"
    comes before "ready".  The token of a bot client gets its "Bot "
    prefix, but the token the shard itself holds for IDENTIFY and RESUME
    stays as [hardReset] captured it. *)
Theorem ready_completes_handshake packet session_id bot _trace sh :
  body packet = EVENT (READY session_id bot _trace) ->
  ~ In "READY" (disableEvents (options (client sh))) ->
  ready sh = false -> clubSyncQueue sh = [] -> unsyncedClubs sh <= 0 ->
  getAllUsersQueue sh = [] -> getAllUsersCount sh = [] ->
  let sh' := _onWSMessage packet sh in
  sessionID sh' = Some session_id /\ status sh' = st_ready
  /\ preReady sh' = true /\ ready sh' = true
  /\ connectAttempts sh' = 0 /\ reconnectInterval sh' = 1000
  /\ token (client sh')
     = (if bot && negb (String.prefix "Bot " (token (client sh)))
        then "Bot " +:+ token (client sh) else token (client sh))
  /\ _token sh' = _token sh
  /\ prop (resume_payload sh') "token" = JStr (_token sh)
  /\ exists l, log sh' = log sh ++ l ++ [ReadyPacketCB; Emit shardPreReady; SuperEmit "ready"].
Proof.
  intros Hbody Hen Hrd Hsq Hun Hq Hc. cbn zeta.
  unfold _onWSMessage, onPacket, bind, lift.
  destruct (prologue_frame packet sh) as (l & -> & _).
  rewrite Hbody. rewrite (not_disabled "READY") by exact Hen.
  cbn [wsEvent]. unfold bind, lift.
  match goal with |- context [READY_prologue ?X] =>
    destruct (READY_prologue_frame X) as (tm & -> & _) end.
  sh_simpl. unfold checkReady.
  assert (Hun' : (0 <? unsyncedClubs sh) = false) by (apply Z.ltb_ge; lia).
  destruct (bot && negb (String.prefix "Bot " (token (client sh))));
    destruct (truthy _trace); sh_simpl; rewrite Hrd, Hsq, Hun', Hq, Hc; sh_simpl;
    (repeat (split; [reflexivity|]));
    exists l; rewrite <- !app_assoc; reflexivity.
Qed.

Lemma ready_completes_handshake_witness :
  let sh := steps Scenario.opening
              (new 0 (set_token "X" Scenario.client_) Scenario.runtime) in
  let sh' := _onWSMessage (Scenario.dispatch 1 (READY "abc" true JNull)) sh in
  token (client sh') = "Bot X" /\ _token sh' = "X" /\ ready sh' = true.
Proof.
  cbn zeta.
  destruct (ready_completes_handshake (Scenario.dispatch 1 (READY "abc" true JNull))
              "abc" true JNull
              (steps Scenario.opening
                 (new 0 (set_token "X" Scenario.client_) Scenario.runtime)))
    as (_ & _ & _ & H1 & _ & _ & H2 & H3 & _);
    [reflexivity | vm_compute; tauto | vm_compute; reflexivity | vm_compute; reflexivity
    | vm_compute; discriminate | vm_compute; reflexivity | vm_compute; reflexivity |].
  split; [exact H2|]. split; [exact H3 | exact H1].
Defined.

End ShardSession.

(** * Queued requests and presence *)

Module ShardQueues.
Import Js Shard ShardFacts.

(** ** What a member request leaves alone *)

Lemma requestClubMembers_queues c o sh :
  let sh' := (requestClubMembers c o sh).1 in
  getAllUsersCount sh' = getAllUsersCount sh
  /\ getAllUsersQueue sh' = getAllUsersQueue sh
  /\ getAllUsersLength sh' = getAllUsersLength sh.
Proof.
  cbn zeta. unfold requestClubMembers.
  match goal with |- context [setTimer _ ?ms _ _] => generalize ms; intros ms0 end.
  repeat match goal with |- context [if ?c then _ else _] => destruct c end;
    cbn [fst]; sh_simpl; try (repeat split; reflexivity);
    match goal with |- context [sendWS ?a ?b ?c ?d] =>
      destruct (sendWS_sends a b c d) as (? & ? & ? & ? & ? & -> & _) end;
    repeat split; reflexivity.
Qed.

Lemma batch_length_snoc q clubID :
  batch_length (q ++ [clubID]) = batch_length q + (Z.of_nat (String.length clubID) + 3).
Proof. unfold batch_length. rewrite fold_left_app. reflexivity. Qed.

(** ** getClubMembers *)

(** X16.  A club can have one pending request for all its members:
    [getClubMembers] marks the club before it checks anything else, so a
    second call for the club throws and changes nothing, also when the
    first call threw for want of the clubMembers intent. *)
Theorem member_request_in_flight clubID sh :
  has clubID (getAllUsersCount sh) = false ->
  let sh1 := (getClubMembers clubID sh).1 in
  has clubID (getAllUsersCount sh1) = true
  /\ getClubMembers clubID sh1
     = (sh1, Throw (Err "Cannot request all members while an existing request is processing"))
  /\ (forall n, intents (options (client sh)) = Some n -> n <> 0 ->
        Z.land n (Intents_clubMembers (rt sh)) = 0 ->
        (getClubMembers clubID sh).2
        = Throw (Err "Cannot request all members without clubMembers intent")).
Proof.
  intros Hno. cbn zeta.
  assert (Hmark : getAllUsersCount (getClubMembers clubID sh).1
                  = set clubID true (getAllUsersCount sh)).
  { unfold getClubMembers, batch_member_request. rewrite Hno. sh_simpl.
    destruct (intents (options (client sh))) as [n|];
      repeat match goal with |- context [if ?c then _ else _] => destruct c end;
      unfold bind, lift, ret; try reflexivity;
      match goal with |- context [requestClubMembers ?a ?b ?c] =>
        destruct (requestClubMembers_queues a b c) as (H & _);
        destruct (requestClubMembers a b c) as [sh' [p|e]] end;
      exact H. }
  assert (Hhas : has clubID (getAllUsersCount (getClubMembers clubID sh).1) = true).
  { rewrite Hmark. unfold has. rewrite get_set_eq. reflexivity. }
  split; [exact Hhas|]. split.
  - unfold getClubMembers at 1. rewrite Hhas. reflexivity.
  - intros n Hn Hn0 Hland. unfold getClubMembers. rewrite Hno. sh_simpl. rewrite Hn.
    apply Z.eqb_neq in Hn0. rewrite Hn0, Hland. reflexivity.
Qed.



Lemma member_request_in_flight_witness :
  let sh1 := (getClubMembers "A" Scenario.ready_shard).1 in
  getClubMembers "A" sh1
  = (sh1, Throw (Err "Cannot request all members while an existing request is processing")).
Proof.
  cbn zeta.
  destruct (member_request_in_flight "A" Scenario.ready_shard) as (_ & H & _).
  - vm_compute. reflexivity.
  - exact H.
Defined.


(** ** syncClub *)

Lemma synced_app fs1 fs2 : synced (fs1 ++ fs2) = synced fs1 ++ synced fs2.
Proof. unfold synced. apply flat_map_app. Qed.

Lemma synced_ids q : flat_map (fun x => match x with JStr c => [c] | _ => [] end) (JStr <$> q) = q.
Proof. induction q as [|c q IH]; [reflexivity|]. cbn. rewrite IH. reflexivity. Qed.

Lemma sent_requestClubSync q sh :
  ws_open sh = true -> Bucket.has_room 1 (globalBucket sh) ->
  exists new, sent (log (requestClubSync q sh)) = sent (log sh) ++ new /\ synced new = q.
Proof.
  intros Hopen Hroom. unfold requestClubSync.
  rewrite sendWS_open, sent_transmit by (assumption || discriminate).
  eexists. split; [reflexivity|].
  unfold synced. cbn [flat_map op d]. rewrite Z.eqb_refl, app_nil_r. apply synced_ids.
Qed.

(** X18.  [clubSyncQueueLength] is the length of the batch that waits in
    [clubSyncQueue], and a batch over 4081 holds one club only. *)
Theorem sync_batch_length clubID sh :
  clubSyncQueueLength sh = batch_length (clubSyncQueue sh) ->
  let sh' := syncClub clubID sh in
  clubSyncQueueLength sh' = batch_length (clubSyncQueue sh')
  /\ (clubSyncQueueLength sh <= 4081 \/ (exists c, clubSyncQueue sh = [c]) ->
      clubSyncQueueLength sh' <= 4081 \/ (exists c, clubSyncQueue sh' = [c])).
Proof.
  intros Hlen. cbn zeta. unfold syncClub, requestClubSync.
  destruct (4081 <? _) eqn:E.
  - sh_simpl. split; [unfold batch_length; simpl; lia | right; eauto].
  - apply Z.ltb_ge in E. destruct (ready sh).
    + match goal with |- context [sendWS ?a ?b ?c ?d] =>
        destruct (sendWS_sends a b c d) as (? & ? & ? & ? & ? & -> & _) end.
      sh_simpl. auto.
    + sh_simpl. rewrite batch_length_snoc, Hlen. split; [reflexivity | left; lia].
Qed.

Lemma sync_batch_length_witness :
  let sh' := syncClub "A" Scenario.open_shard in
  clubSyncQueueLength sh' = batch_length (clubSyncQueue sh').
Proof.
  cbn zeta. apply (sync_batch_length "A" Scenario.open_shard). reflexivity.
Defined.

(** X19.  With the socket open and room in the global bucket, [syncClub]
    loses no club: every club that was queued, and the new one, is either
    still queued or went out in a SYNC_CLUB frame. *)
Theorem syncClub_loses_no_club clubID sh :
  ws_open sh = true -> Bucket.has_room 1 (globalBucket sh) ->
  let sh' := syncClub clubID sh in
  exists new,
    sent (log sh') = sent (log sh) ++ new
    /\ forall c, In c (synced new ++ clubSyncQueue sh') <-> In c (clubSyncQueue sh ++ [clubID]).
Proof.
  intros Hopen Hroom. cbn zeta. unfold syncClub.
  destruct (4081 <? _).
  - destruct (sent_requestClubSync (clubSyncQueue sh) sh Hopen Hroom) as (new & Hs & Hn).
    exists new. sh_simpl. rewrite Hs, Hn. split; [reflexivity | tauto].
  - destruct (ready sh).
    + destruct (sent_requestClubSync [clubID] sh Hopen Hroom) as (new & Hs & Hn).
      exists new. rewrite Hs, Hn. split; [reflexivity|].
      unfold requestClubSync.
      match goal with |- context [sendWS ?a ?b ?c ?d] =>
        destruct (sendWS_sends a b c d) as (? & ? & ? & ? & ? & -> & _) end.
      sh_simpl. intros c. rewrite !in_app_iff. tauto.
    + exists []. sh_simpl. rewrite app_nil_r. split; [reflexivity | tauto].
Qed.

Lemma syncClub_loses_no_club_witness :
  exists new,
    sent (log (syncClub "B" Scenario.ready_shard)) = sent (log Scenario.ready_shard) ++ new
    /\ In "B" (synced new ++ clubSyncQueue (syncClub "B" Scenario.ready_shard)).
Proof.
  destruct (syncClub_loses_no_club "B" Scenario.ready_shard) as (new & H1 & H2).
  - reflexivity.
  - vm_compute. repeat split; discriminate.
  - exists new. split; [exact H1|]. apply H2. vm_compute. auto.
Defined.

(** ** Status updates *)

(** A status update is released by both buckets: the closure runs twice
    and writes its frame the second time. *)
Lemma sendWS_status_open d_ prio sh :
  ws_open sh = true -> Bucket.has_room 1 (globalBucket sh) ->
  Bucket.has_room 1 (presenceUpdateBucket sh) ->
  sent (log (sendWS GatewayOPCodes.STATUS_UPDATE d_ prio sh))
  = sent (log sh) ++ [{| etf := Erlpack (rt sh); op := GatewayOPCodes.STATUS_UPDATE; d := d_ |}].
Proof.
  intros Hopen Hg Hp. unfold sendWS. rewrite Hopen.
  cbn [Z.eqb GatewayOPCodes.STATUS_UPDATE Pos.eqb].
  unfold queue_presence. sh_simpl.
  destruct (queue_has_room 1 (now sh) (fresh sh) prio (presenceUpdateBucket sh)) as [-> _];
    [lia | assumption |].
  unfold run at 1. cbn [fold_left]. unfold func at 1. sh_simpl.
  rewrite lookup_insert_eq. cbn [f_i f_op f_data f_waitFor].
  change (2 <=? 0 + 1) with false. cbn [andb].
  unfold queue_global. sh_simpl.
  destruct (queue_has_room 1 (now sh) (fresh sh) prio (globalBucket sh)) as [-> _];
    [lia | assumption |].
  unfold run, func. cbn [fold_left]. sh_simpl.
  rewrite lookup_insert_eq. cbn [f_i f_op f_data f_waitFor].
  change (2 <=? 0 + 1 + 1) with true. cbn [andb].
  unfold ws_open in *. sh_simpl. rewrite Hopen. sh_simpl.
  rewrite <- app_assoc, sent_app. reflexivity.
Qed.

Lemma prop_set_prop_eq o k v : prop (set_prop (JObj o) k v) k = v.
Proof. cbn. rewrite get_set_eq. reflexivity. Qed.

Lemma prop_set_prop_ne o k k' v : k' <> k -> prop (set_prop (JObj o) k v) k' = prop (JObj o) k'.
Proof. intros H. cbn. rewrite get_set_ne by exact H. reflexivity. Qed.

(** X20.  [editAFK] stores the flag as a boolean and announces it: with the
    socket open and room in both buckets, exactly one STATUS_UPDATE frame
    goes out, carrying the truth value of the argument as [afk] and the
    game and status the shard had. *)
Theorem editAFK_sends_flag afk o sh :
  presence sh = JObj o ->
  ws_open sh = true -> Bucket.has_room 1 (globalBucket sh) ->
  Bucket.has_room 1 (presenceUpdateBucket sh) ->
  let sh' := editAFK afk sh in
  prop (presence sh') "afk" = JBool (truthy afk)
  /\ sent (log sh')
     = sent (log sh)
       ++ [{| etf := Erlpack (rt sh); op := GatewayOPCodes.STATUS_UPDATE;
              d := JObj [("afk", JBool (truthy afk));
                         ("game", prop (presence sh) "game");
                         ("since", JNum match prop (presence sh) "status" with
                                        | JStr "idle" => now sh
                                        | _ => 0
                                        end);
                         ("status", prop (presence sh) "status")] |}].
Proof.
  intros Hp Hopen Hg Hpb. cbn zeta. unfold editAFK, sendStatusUpdate.
  split.
  - match goal with |- context [sendWS ?a ?b ?c ?d] =>
      destruct (sendWS_sends a b c d) as (? & ? & ? & ? & ? & -> & _) end.
    sh_simpl. rewrite Hp. apply prop_set_prop_eq.
  - rewrite sendWS_status_open by assumption.
    unfold status_payload. sh_simpl. rewrite Hp.
    rewrite prop_set_prop_eq, !prop_set_prop_ne by discriminate.
    reflexivity.
Qed.

Lemma editAFK_sends_flag_witness :
  prop (presence (editAFK (JNum 1) Scenario.ready_shard)) "afk" = JBool true.
Proof.
  eapply (editAFK_sends_flag (JNum 1) _ Scenario.ready_shard).
  - vm_compute. reflexivity.
  - reflexivity.
  - vm_compute. repeat split; discriminate.
  - vm_compute. repeat split; discriminate.
Defined.

End ShardQueues.

(** * Sends and the member cache *)

Module ShardCache.
Import Js Shard ShardFacts.

(** X21.  [sendWS] only sends: whatever the socket and the buckets are, it
    emits no error, settles no promise and asks for no connect, and apart
    from the log, the closures, the buckets and the handle counter the
    shard is as it was; on a socket that is not open it does nothing. *)
Theorem sendWS_only_sends op_ d_ priority sh :
  after_sends sh (sendWS op_ d_ priority sh)
  /\ (ws_open sh = false -> sendWS op_ d_ priority sh = sh).
Proof.
  split; [apply sendWS_sends|].
  intros H. unfold sendWS. rewrite H. reflexivity.
Qed.

(** ** Member chunks and the cache *)

Lemma client_after_sends sh sh' : after_sends sh sh' -> client sh' = client sh.
Proof. intros (l & gb & pb & fs & fr & -> & _). reflexivity. Qed.

Lemma client_requestClubMembers c o sh : client (requestClubMembers c o sh).1 = client sh.
Proof.
  unfold requestClubMembers.
  match goal with |- context [setTimer _ ?ms _ _] => generalize ms; intros ms0 end.
  repeat match goal with |- context [if ?c then _ else _] => destruct c end;
    cbn [fst]; sh_simpl; try reflexivity;
    match goal with |- context [sendWS ?a ?b ?c ?d] =>
      rewrite (client_after_sends _ _ (sendWS_sends a b c d)) end;
    reflexivity.
Qed.

Lemma client_checkReady sh : client (checkReady sh).1 = client sh.
Proof.
  unfold checkReady. destruct (ready sh); [reflexivity|].
  destruct (clubSyncQueue sh).
  - destruct (0 <? unsyncedClubs sh); [reflexivity|].
    destruct (getAllUsersQueue sh) as [|q qs].
    + destruct (getAllUsersCount sh); reflexivity.
    + unfold bind, lift.
      pose proof (client_requestClubMembers (JArr (JStr <$> q :: qs)) None sh) as H.
      destruct (requestClubMembers _ _ sh) as [sh' [p|e]]; exact H.
  - cbn [fst]. sh_simpl. unfold requestClubSync.
    apply client_after_sends, sendWS_sends.
Qed.

Lemma client_chunk_collect d sh : client (chunk_collect d sh) = client sh.
Proof. unfold chunk_collect. destruct (get _ _); reflexivity. Qed.

Lemma client_chunk_resolve d sh : client (chunk_resolve d sh) = client sh.
Proof. unfold chunk_resolve. destruct (get _ _); reflexivity. Qed.

Lemma client_chunk_sweep d sh : client (chunk_sweep d sh).1 = client sh.
Proof.
  unfold chunk_sweep. destruct (has _ _); [|reflexivity].
  unfold bind, lift.
  match goal with |- context [checkReady ?x] =>
    pose proof (client_checkReady x) as H3; destruct (checkReady x) as [sh3 [u|e]] end;
    exact H3.
Qed.

(** The cache of the club after a chunk. *)
Lemma clubs_after_chunk d club sh :
  clubs (client sh) !! club_id d = Some club ->
  clubs (client (CLUB_MEMBERS_CHUNK_case d sh).1)
  = <[club_id d := match presences d with
                   | Some ps => fold_left update_presence ps
                                  (fold_left add_member (chunk_members d) club)
                   | None => fold_left add_member (chunk_members d) club
                   end]> (clubs (client sh)).
Proof.
  intros Hclub. unfold CLUB_MEMBERS_CHUNK_case. rewrite Hclub.
  unfold bind, lift, ret.
  destruct (chunk_count d - 1 <=? chunk_index d).
  - match goal with |- context [chunk_sweep d ?x] =>
      pose proof (client_chunk_sweep d x) as H3; destruct (chunk_sweep d x) as [sh3 [u|e]] end;
      cbn [fst] in *; sh_simpl; rewrite H3, client_chunk_resolve, client_chunk_collect;
      unfold chunk_cache; sh_simpl; destruct (presences d); reflexivity.
  - cbn [fst]. sh_simpl. rewrite client_chunk_collect.
    unfold chunk_cache. sh_simpl. destruct (presences d); reflexivity.
Qed.

Lemma add_member_keeps uid uid' ms :
  is_Some (ms !! uid) -> is_Some (add_member ms uid' !! uid).
Proof.
  intros H. unfold add_member. destruct (ms !! uid') eqn:E; [exact H|].
  destruct (decide (uid' = uid)) as [->|Hne].
  - rewrite lookup_insert_eq. eauto.
  - rewrite lookup_insert_ne by exact Hne. exact H.
Qed.

Lemma add_member_adds uid ms : is_Some (add_member ms uid !! uid).
Proof.
  unfold add_member. destruct (ms !! uid) eqn:E; [rewrite E; eauto|].
  rewrite lookup_insert_eq. eauto.
Qed.

Lemma add_members_keep uid l ms :
  is_Some (ms !! uid) -> is_Some (fold_left add_member l ms !! uid).
Proof.
  revert ms. induction l as [|x l IH]; intros ms H; [exact H|].
  cbn [fold_left]. apply IH, add_member_keeps, H.
Qed.

Lemma add_members_add uid l ms : In uid l -> is_Some (fold_left add_member l ms !! uid).
Proof.
  revert ms. induction l as [|x l IH]; intros ms []; cbn [fold_left].
  - subst x. apply add_members_keep, add_member_adds.
  - apply IH. assumption.
Qed.

Lemma update_presence_keeps uid p ms :
  is_Some (ms !! uid) -> is_Some (update_presence ms p !! uid).
Proof.
  intros H. unfold update_presence. destruct (ms !! p.1) eqn:E; [|exact H].
  destruct (decide (p.1 = uid)) as [->|Hne].
  - rewrite lookup_insert_eq. eauto.
  - rewrite lookup_insert_ne by exact Hne. exact H.
Qed.

Lemma update_presences_keep uid ps ms :
  is_Some (ms !! uid) -> is_Some (fold_left update_presence ps ms !! uid).
Proof.
  revert ms. induction ps as [|p ps IH]; intros ms H; [exact H|].
  cbn [fold_left]. apply IH, update_presence_keeps, H.
Qed.

(** X22.  A member chunk for a cached club fills the cache: every member of
    the chunk is cached in the club afterwards, no member cached before is
    dropped, and the caches of the other clubs are as they were.  A chunk
    that is not the last of its request also counts as a sign of life:
    the last heartbeat is taken as acknowledged. *)
Theorem member_chunk_fills_cache packet d sh :
  body packet = EVENT (CLUB_MEMBERS_CHUNK d) ->
  ~ In "CLUB_MEMBERS_CHUNK" (disableEvents (options (client sh))) ->
  is_Some (clubs (client sh) !! club_id d) ->
  let sh' := _onWSMessage packet sh in
  (forall uid, In uid (chunk_members d) -> cached uid (club_id d) sh')
  /\ (forall uid, cached uid (club_id d) sh -> cached uid (club_id d) sh')
  /\ (forall uid clubID, clubID <> club_id d -> cached uid clubID sh' <-> cached uid clubID sh)
  /\ (chunk_index d < chunk_count d - 1 -> lastHeartbeatAck sh' = true).
Proof.
  intros Hbody Hen [club Hclub]. cbn zeta.
  unfold _onWSMessage, onPacket, bind, lift.
  destruct (prologue_frame packet sh) as (l & -> & _).
  rewrite Hbody.
  assert (Hdis : bool_decide ("CLUB_MEMBERS_CHUNK" ∈ disableEvents (options (client sh)))
                 = false).
  { apply bool_decide_eq_false. intros Hin. apply Hen, list_elem_of_In, Hin. }
  cbn [t]. sh_simpl. rewrite Hdis. cbn [wsEvent].
  set (sh1 := set_seq _ _).
  assert (Hclub1 : clubs (client sh1) !! club_id d = Some club) by exact Hclub.
  pose proof (clubs_after_chunk d club sh1 Hclub1) as Hc.
  assert (Hack : chunk_index d < chunk_count d - 1 ->
                 lastHeartbeatAck (CLUB_MEMBERS_CHUNK_case d sh1).1 = true
                 /\ exists u, (CLUB_MEMBERS_CHUNK_case d sh1).2 = Ok u).
  { intros Hlt. unfold CLUB_MEMBERS_CHUNK_case. rewrite Hclub1. unfold bind, lift, ret.
    replace (chunk_count d - 1 <=? chunk_index d) with false
      by (symmetry; apply Z.leb_gt; lia).
    cbn [fst snd]. eauto. }
  set (club' := match presences d with
                | Some ps => fold_left update_presence ps
                               (fold_left add_member (chunk_members d) club)
                | None => fold_left add_member (chunk_members d) club
                end) in Hc.
  assert (Hkeep : forall uid, is_Some (club !! uid) -> is_Some (club' !! uid)).
  { intros uid H. subst club'. destruct (presences d).
    - apply update_presences_keep, add_members_keep, H.
    - apply add_members_keep, H. }
  assert (Hadd : forall uid, In uid (chunk_members d) -> is_Some (club' !! uid)).
  { intros uid H. subst club'. destruct (presences d).
    - apply update_presences_keep, add_members_add, H.
    - apply add_members_add, H. }
  assert (Hfinal : forall sh2 : Shard,
            clubs (client sh2) = <[club_id d := club']> (clubs (client sh)) ->
            (forall uid, In uid (chunk_members d) -> cached uid (club_id d) sh2)
            /\ (forall uid, cached uid (club_id d) sh -> cached uid (club_id d) sh2)
            /\ (forall uid clubID, clubID <> club_id d ->
                  cached uid clubID sh2 <-> cached uid clubID sh)).
  { intros sh2 H2. unfold cached. rewrite H2. split; [|split].
    - intros uid Hin. rewrite lookup_insert_eq. cbn. apply Hadd, Hin.
    - intros uid. rewrite lookup_insert_eq, Hclub. cbn. apply Hkeep.
    - intros uid clubID Hne. rewrite lookup_insert_ne by congruence. reflexivity. }
  destruct (CLUB_MEMBERS_CHUNK_case d sh1) as [sh2 [u|e]] eqn:E; cbn [fst snd] in *.
  - destruct (Hfinal sh2 Hc) as (A & B & C). repeat split; try apply C; auto.
    intros Hlt. apply Hack, Hlt.
  - destruct (Hfinal (emit (error e) sh2) Hc) as (A & B & C).
    repeat split; try apply C; auto.
    intros Hlt. destruct (Hack Hlt) as (_ & u & Hu). discriminate Hu.
Qed.

Lemma member_chunk_fills_cache_witness :
  cached "u1" "A"
    (_onWSMessage (Scenario.dispatch 2 (CLUB_MEMBERS_CHUNK (Scenario.chunk 0 2 ["u1"])))
       Scenario.ready_shard).
Proof.
  destruct (member_chunk_fills_cache
              (Scenario.dispatch 2 (CLUB_MEMBERS_CHUNK (Scenario.chunk 0 2 ["u1"])))
              (Scenario.chunk 0 2 ["u1"]) Scenario.ready_shard) as (H & _).
  - reflexivity.
  - vm_compute. tauto.
  - vm_compute. eauto.
  - apply H. left. reflexivity.
Defined.

End ShardCache.

(** * Joins of the voice connection manager *)

Module VoiceJoins.
Import Js VoiceConnectionManager VoiceFacts.

Ltac vcm_simpl :=
  cbn [connections pendingClubs timers fresh log set_connections set_pendingClubs
       set_timers set_fresh set_log effect clearTimeout fst snd
       ws ready channelID listeners set_listeners
       p_channelID options res timeout waiting group kind app].

Tactic Notation "vcm_simpl" "in" hyp(H) :=
  cbn [connections pendingClubs timers fresh log set_connections set_pendingClubs
       set_timers set_fresh set_log effect clearTimeout fst snd
       ws ready channelID listeners set_listeners
       p_channelID options res timeout waiting group kind app] in H.

Ltac vcm_norm :=
  cbv beta iota zeta delta
      [connections pendingClubs timers fresh log set_connections set_pendingClubs
       set_timers set_fresh set_log effect clearTimeout fst snd
       ws ready channelID listeners set_listeners
       p_channelID options res timeout waiting group kind].

Lemma same_handler_group g k1 k2 :
  same_handler {| group := g; kind := k1 |} {| group := g; kind := k2 |}
  = match k1, k2 with
    | JoinReady, JoinReady | JoinDisconnect, JoinDisconnect | JoinError, JoinError
    | PendingReady _, PendingReady _ | PendingDisconnect _, PendingDisconnect _
    | PendingError _, PendingError _ => true
    | _, _ => false
    end.
Proof. unfold same_handler. cbn [group kind]. rewrite Nat.eqb_refl. reflexivity. Qed.

(** X23.  [join] for a club whose session is connected and ready switches
    the channel and resolves at once with that session: no pending entry
    is recorded, no timer is armed and no listener is attached. *)
Theorem join_ready_session_resolves clubID channelID_ o c m :
  connections m !! clubID = Some c -> ws c = true -> ready c = true ->
  let m' := (join clubID channelID_ o m).1 in
  let promise := (join clubID channelID_ o m).2 in
  log m' = log m ++ [SwitchChannel clubID channelID_; Resolve promise clubID]
  /\ pendingClubs m' = pendingClubs m /\ timers m' = timers m
  /\ connections m' = connections m.
Proof.
  intros Hc Hws Hrd. cbn zeta. unfold join. cbn [connections set_fresh].
  rewrite Hc. destruct c as [w r ch ls]. cbn in Hws, Hrd. subst w r.
  cbn. rewrite <- app_assoc. auto.
Qed.

Lemma join_ready_session_resolves_witness :
  let m := set_connections {["g" := {| ws := true; ready := true; channelID := Some "c0";
                                       listeners := [] |}]} new in
  log (join "g" "c1" None m).1 = [SwitchChannel "g" "c1"; Resolve 0 "g"].
Proof.
  cbn zeta.
  destruct (join_ready_session_resolves "g" "c1" None
              {| ws := true; ready := true; channelID := Some "c0"; listeners := [] |}
              (set_connections {["g" := {| ws := true; ready := true; channelID := Some "c0";
                                           listeners := [] |}]} new)) as (H & _).
  - reflexivity.
  - reflexivity.
  - reflexivity.
  - exact H.
Defined.

(** The manager after [join] found no session and the VOICE_SERVER_UPDATE
    for the club came in. *)
Lemma join_then_update clubID channelID_ o data m :
  connections m !! clubID = None -> club_id data = clubID ->
  let opts := default {| opusOnly := JUndefined; shared := JUndefined |} o in
  voiceServerUpdate data (join clubID channelID_ o m).1
  = mkManager
      (<[clubID := {| ws := false; ready := false; channelID := None;
                      listeners := [("ready", {| group := S (S (fresh m));
                                                 kind := PendingReady clubID |});
                                    ("disconnect", {| group := S (S (fresh m));
                                                      kind := PendingDisconnect clubID |});
                                    ("error", {| group := S (S (fresh m));
                                                 kind := PendingError clubID |})] |}]>
         (connections m))
      (<[clubID := {| p_channelID := channelID_; options := opts; res := fresh m;
                      timeout := None; waiting := true |}]> (pendingClubs m))
      (drop_timer (S (fresh m)) (timers m ++ [(S (fresh m), (10000, clubID, fresh m))]))
      (S (S (S (fresh m))))
      (log m ++ [Construct clubID (shard data) (opusOnly opts) (shared opts);
                 Connect clubID (Some channelID_) data]).
Proof.
  intros Hc <-. cbn zeta. unfold join. cbn [connections set_fresh]. rewrite Hc.
  unfold voiceServerUpdate, once.
  repeat (vcm_simpl; rewrite ?lookup_insert_eq, ?Hc).
  vcm_norm. rewrite !insert_insert_eq, <- ?app_assoc. reflexivity.
Qed.

(** X24.  The whole of a first join: [join] finds no session, the
    VOICE_SERVER_UPDATE constructs and connects one with the channel and
    options of the join and clears the join's timer, and the session's
    first event settles the promise and removes the pending entry:
    "ready" resolves it with the session, "disconnect" rejects it with
    "Disconnected", "error" disconnects the session and rejects it with
    the error.  Afterwards no listener of the join is left. *)
Theorem join_settles_on_first_event clubID channelID_ o data err m :
  connections m !! clubID = None -> club_id data = clubID -> handles_fresh m ->
  let opts := default {| opusOnly := JUndefined; shared := JUndefined |} o in
  let promise := (join clubID channelID_ o m).2 in
  let m1 := voiceServerUpdate data (join clubID channelID_ o m).1 in
  let started := log m ++ [Construct clubID (shard data) (opusOnly opts) (shared opts);
                           Connect clubID (Some channelID_) data] in
  let settled m2 := pendingClubs m2 !! clubID = None
                    /\ (listeners <$> connections m2 !! clubID) = Some []
                    /\ find_timer (S (fresh m)) (timers m2) = None in
  log m1 = started
  /\ (let m2 := session_emits clubID "ready" err m1 in
      log m2 = started ++ [Resolve promise clubID] /\ settled m2)
  /\ (let m2 := session_emits clubID "disconnect" err m1 in
      log m2 = started ++ [Reject promise {| message := "Disconnected" |}] /\ settled m2)
  /\ (let m2 := session_emits clubID "error" err m1 in
      log m2 = started ++ [Disconnect clubID; Reject promise err] /\ settled m2).
Proof.
  intros Hc Hd Hfr. cbn zeta.
  rewrite (join_then_update clubID channelID_ o data m Hc Hd).
  assert (Hp : (join clubID channelID_ o m).2 = fresh m).
  { unfold join. cbn [connections set_fresh]. rewrite Hc. reflexivity. }
  rewrite Hp.
  assert (Ht : find_timer (S (fresh m))
                 (drop_timer (S (fresh m)) (timers m ++ [(S (fresh m), (10000, clubID, fresh m))]))
               = None) by apply timer_gone_after_drop.
  split; [reflexivity|].
  split; [|split];
    unfold session_emits; vcm_simpl; rewrite lookup_insert_eq;
    cbn [List.filter listeners fst snd String.eqb Ascii.eqb Bool.eqb negb fold_left];
    unfold handle, removeListener;
    repeat (vcm_simpl; rewrite ?lookup_insert_eq;
            cbn [remove_first String.eqb Ascii.eqb Bool.eqb andb];
            rewrite ?same_handler_group);
    vcm_norm; rewrite ?insert_insert_eq, ?lookup_delete_eq, ?lookup_insert_eq, <- ?app_assoc;
    cbn [fmap option_fmap option_map listeners app];
    (repeat split; try reflexivity; exact Ht).
Qed.

Lemma join_settles_on_first_event_witness :
  let m1 := voiceServerUpdate Scenario.update_g (join "g" "c" None new).1 in
  log (session_emits "g" "ready" {| message := "" |} m1)
  = [Construct "g" 0 JUndefined JUndefined; Connect "g" (Some "c") Scenario.update_g;
     Resolve 0 "g"].
Proof.
  cbn zeta.
  destruct (join_settles_on_first_event "g" "c" None Scenario.update_g {| message := "" |} new)
    as (_ & (H & _) & _).
  - reflexivity.
  - reflexivity.
  - intros h _. reflexivity.
  - exact H.
Defined.

(** X25.  A VOICE_SERVER_UPDATE for a join that already waits for its
    session only reconnects the session: no second set of listeners is
    attached, so the join is still settled once. *)
Theorem repeated_update_attaches_nothing data p c m :
  pendingClubs m !! club_id data = Some p -> waiting p = true ->
  connections m !! club_id data = Some c ->
  let m' := voiceServerUpdate data m in
  connections m' = connections m
  /\ log m' = log m ++ [Connect (club_id data) (Some (p_channelID p)) data]
  /\ pendingClubs m' !! club_id data
     = Some {| p_channelID := p_channelID p; options := options p; res := res p;
               timeout := None; waiting := true |}.
Proof.
  intros Hp Hw Hc. cbn zeta. unfold voiceServerUpdate. rewrite Hp.
  destruct p as [ch op rs [h|] wt]; cbn in Hw; subst wt.
  - repeat (vcm_simpl; rewrite ?lookup_insert_eq, ?Hc). auto.
  - repeat (vcm_simpl; rewrite ?Hp, ?Hc). auto.
Qed.

Lemma repeated_update_attaches_nothing_witness :
  let m1 := voiceServerUpdate Scenario.update_g (join "g" "c" None new).1 in
  connections (voiceServerUpdate Scenario.update_g m1) = connections m1.
Proof.
  cbn zeta.
  destruct (repeated_update_attaches_nothing Scenario.update_g
              {| p_channelID := "c";
                 options := {| opusOnly := JUndefined; shared := JUndefined |};
                 res := 0; timeout := None; waiting := true |}
              {| ws := false; ready := false; channelID := None;
                 listeners := [("ready", {| group := 2; kind := PendingReady "g" |});
                               ("disconnect", {| group := 2; kind := PendingDisconnect "g" |});
                               ("error", {| group := 2; kind := PendingError "g" |})] |}
              (voiceServerUpdate Scenario.update_g (join "g" "c" None new).1))
    as (H & _).
  - vm_compute. reflexivity.
  - reflexivity.
  - vm_compute. reflexivity.
  - exact H.
Defined.

(** X26.  A second [join] for a club does not disarm the timer of the
    first: both timers stay armed, and when the first comes due it
    rejects the first promise and removes the entry of the second join,
    after which a VOICE_SERVER_UPDATE for the club finds nothing to
    serve. *)
Theorem second_join_keeps_first_timer clubID ch1 ch2 o1 o2 data m :
  connections m !! clubID = None -> handles_fresh m -> club_id data = clubID ->
  let m1 := (join clubID ch1 o1 m).1 in
  let m2 := (join clubID ch2 o2 m1).1 in
  let p1 := fresh m in
  let h1 := S (fresh m) in
  (res <$> pendingClubs m2 !! clubID) = Some (S (S (fresh m)))
  /\ find_timer h1 (timers m2) = Some (10000, clubID, p1)
  /\ pendingClubs (fire h1 m2) !! clubID = None
  /\ log (fire h1 m2) = log m ++ [Reject p1 {| message := "Voice connection timeout" |}]
  /\ voiceServerUpdate data (fire h1 m2) = fire h1 m2.
Proof.
  intros Hc Hfr <-. cbn zeta.
  assert (H1 : find_timer (S (fresh m)) (timers m) = None) by (apply Hfr; lia).
  assert (Hfind : find_timer (S (fresh m))
                    ((timers m ++ [(S (fresh m), (10000, club_id data, fresh m))])
                     ++ [(S (S (S (fresh m))), (10000, club_id data, S (S (fresh m))))])
                  = Some (10000, club_id data, fresh m)).
  { rewrite <- app_assoc. clear -H1. induction (timers m) as [|[i y] l IH]; simpl in *.
    - rewrite Nat.eqb_refl. reflexivity.
    - destruct (Nat.eqb i (S (fresh m))); [discriminate | auto]. }
  unfold join. repeat (vcm_simpl; rewrite ?Hc, ?lookup_insert_eq).
  cbn [fmap option_fmap option_map res].
  split; [reflexivity|]. split; [exact Hfind|].
  unfold fire. vcm_simpl. rewrite Hfind. unfold join_timeout. vcm_simpl.
  rewrite lookup_delete_eq.
  split; [reflexivity|]. split; [reflexivity|].
  unfold voiceServerUpdate. repeat (vcm_simpl; rewrite ?lookup_delete_eq, ?Hc).
  reflexivity.
Qed.

Lemma second_join_keeps_first_timer_witness :
  let m2 := (join "g" "c2" None (join "g" "c1" None new).1).1 in
  pendingClubs (fire 1 m2) !! "g" = None
  /\ voiceServerUpdate Scenario.update_g (fire 1 m2) = fire 1 m2.
Proof.
  cbn zeta.
  destruct (second_join_keeps_first_timer "g" "c1" "c2" None None Scenario.update_g new)
    as (_ & _ & H1 & _ & H2).
  - reflexivity.
  - intros h _. reflexivity.
  - reflexivity.
  - split; [exact H1 | exact H2].
Defined.

(** ** A join on a session that is still connecting *)

Lemma filter_remove_other g ev h l :
  group h <> g ->
  List.filter (fun x : string * Handler => Nat.eqb (group x.2) g) (remove_first ev h l)
  = List.filter (fun x : string * Handler => Nat.eqb (group x.2) g) l.
Proof.
  intros Hg. induction l as [|[e x] l IH]; [reflexivity|].
  cbn [remove_first]. destruct ((e =? ev)%string && same_handler x h) eqn:E.
  - apply andb_true_iff in E as [_ E]. unfold same_handler in E.
    apply andb_true_iff in E as [E _]. apply Nat.eqb_eq in E.
    cbn [List.filter snd]. replace (Nat.eqb (group x) g) with false; [reflexivity|].
    symmetry. apply Nat.eqb_neq. congruence.
  - cbn [List.filter snd]. rewrite IH. reflexivity.
Qed.

Lemma filter_remove_own g ev k pre x rest l :
  List.filter (fun x : string * Handler => Nat.eqb (group x.2) g) l = pre ++ x :: rest ->
  (forall y, In y pre ->
     (y.1 =? ev)%string && same_handler y.2 {| group := g; kind := k |} = false) ->
  (x.1 =? ev)%string && same_handler x.2 {| group := g; kind := k |} = true ->
  List.filter (fun x : string * Handler => Nat.eqb (group x.2) g)
    (remove_first ev {| group := g; kind := k |} l)
  = pre ++ rest.
Proof.
  intros Hl Hpre Hx. revert pre Hl Hpre.
  induction l as [|[e y] l IH]; intros pre Hl Hpre.
  - destruct pre; discriminate Hl.
  - cbn [List.filter snd] in Hl. cbn [remove_first].
    destruct (Nat.eqb (group y) g) eqn:Eg.
    + destruct pre as [|p pre].
      * injection Hl as <- Hl. cbn [fst snd] in Hx. rewrite Hx. exact Hl.
      * injection Hl as <- Hl.
        pose proof (Hpre (e, y) (or_introl eq_refl)) as Hy. cbn [fst snd] in Hy. rewrite Hy.
        cbn [List.filter snd]. rewrite Eg. cbn [app]. f_equal.
        apply IH; [exact Hl|]. intros z Hz. apply Hpre. right. exact Hz.
    + replace ((e =? ev)%string && same_handler y {| group := g; kind := k |}) with false.
      * cbn [List.filter snd]. rewrite Eg. apply IH; assumption.
      * symmetry. apply andb_false_iff. right. unfold same_handler. cbn [group].
        rewrite Eg. reflexivity.
Qed.

Lemma listeners_of_removeListener_other g clubID club ev h m :
  group h <> g ->
  listeners_of g clubID (removeListener club ev h m) = listeners_of g clubID m.
Proof.
  intros Hg. unfold listeners_of, removeListener.
  destruct (connections m !! club) as [c|] eqn:Ec; [|reflexivity].
  vcm_simpl. destruct (decide (club = clubID)) as [->|Hne].
  - rewrite lookup_insert_eq, Ec. vcm_simpl. apply filter_remove_other, Hg.
  - rewrite lookup_insert_ne by exact Hne. reflexivity.
Qed.

Lemma listeners_of_effect g clubID e m :
  listeners_of g clubID (effect e m) = listeners_of g clubID m.
Proof. reflexivity. Qed.

Lemma listeners_of_set_pendingClubs g clubID v m :
  listeners_of g clubID (set_pendingClubs v m) = listeners_of g clubID m.
Proof. reflexivity. Qed.

Lemma listeners_of_handle_other g clubID on h err m :
  group h <> g -> listeners_of g clubID (handle on h err m) = listeners_of g clubID m.
Proof.
  intros Hg. unfold handle.
  destruct (kind h); vcm_simpl;
    repeat match goal with
           | |- context [match pendingClubs ?x !! ?k with _ => _ end] =>
               destruct (pendingClubs x !! k)
           | |- context [match connections ?x !! ?k with Some _ => effect _ _ | None => _ end] =>
               destruct (connections x !! k)
           end;
    rewrite ?listeners_of_set_pendingClubs, ?listeners_of_effect,
      ?listeners_of_removeListener_other by exact Hg;
    reflexivity.
Qed.

Lemma listeners_of_fold_other g clubID err (due : list (string * Handler)) m :
  (forall x, In x due -> group x.2 <> g) ->
  listeners_of g clubID (fold_left (fun m l => handle clubID l.2 err m) due m)
  = listeners_of g clubID m.
Proof.
  revert m. induction due as [|x due IH]; intros m H; [reflexivity|].
  cbn [fold_left]. rewrite IH by (intros y Hy; apply H; right; exact Hy).
  apply listeners_of_handle_other, H. left. reflexivity.
Qed.


Lemma log_removeListener club ev h m : log (removeListener club ev h m) = log m.
Proof. unfold removeListener. destruct (connections m !! club); reflexivity. Qed.

Lemma log_handle on h err m : exists l, log (handle on h err m) = log m ++ l.
Proof.
  unfold handle.
  destruct (kind h); vcm_simpl;
    repeat match goal with
           | |- context [match pendingClubs ?x !! ?k with _ => _ end] =>
               destruct (pendingClubs x !! k)
           | |- context [match connections ?x !! ?k with Some _ => effect _ _ | None => _ end] =>
               destruct (connections x !! k)
           end;
    vcm_simpl; rewrite ?log_removeListener, <- ?app_assoc;
    first [eexists; reflexivity | exists []; rewrite app_nil_r; reflexivity].
Qed.

Lemma log_fold_handle clubID err (due : list (string * Handler)) m :
  exists l, log (fold_left (fun m l => handle clubID l.2 err m) due m) = log m ++ l.
Proof.
  revert m. induction due as [|x due IH]; intros m.
  - exists []. rewrite app_nil_r. reflexivity.
  - cbn [fold_left]. destruct (IH (handle clubID x.2 err m)) as (l2 & ->).
    destruct (log_handle clubID x.2 err m) as (l1 & ->).
    exists (l1 ++ l2). rewrite app_assoc. reflexivity.
Qed.

Lemma listeners_of_removeListener_own g clubID ev k pre x rest m :
  listeners_of g clubID m = pre ++ x :: rest ->
  (forall y, In y pre ->
     (y.1 =? ev)%string && same_handler y.2 {| group := g; kind := k |} = false) ->
  (x.1 =? ev)%string && same_handler x.2 {| group := g; kind := k |} = true ->
  listeners_of g clubID (removeListener clubID ev {| group := g; kind := k |} m) = pre ++ rest.
Proof.
  intros Hl Hpre Hx. unfold listeners_of, removeListener in *.
  destruct (connections m !! clubID) as [c|] eqn:Ec; [|destruct pre; discriminate Hl].
  vcm_simpl. rewrite lookup_insert_eq. vcm_simpl.
  eapply filter_remove_own; eassumption.
Qed.

Lemma filter_none g (l : list (string * Handler)) :
  (forall x, In x l -> group x.2 <> g) ->
  List.filter (fun x : string * Handler => Nat.eqb (group x.2) g) l = [].
Proof.
  induction l as [|x l IH]; intros H; [reflexivity|].
  cbn [List.filter]. replace (Nat.eqb (group x.2) g) with false.
  - apply IH. intros y Hy. apply H. right. exact Hy.
  - symmetry. apply Nat.eqb_neq, H. left. reflexivity.
Qed.

(** One of the listeners a closure holds is taken off by the closure
    itself. *)
Ltac taken_off k pre H :=
  eapply (listeners_of_removeListener_own _ _ _ k pre _ _ _ H);
  [intros y Hy; repeat (destruct Hy as [<-|Hy]; [reflexivity|]); destruct Hy
  |cbn [fst snd String.eqb Ascii.eqb Bool.eqb]; rewrite same_handler_group; reflexivity].

(** [join] on a session that has a socket and is not ready yet. *)
Lemma join_connecting clubID channelID_ o c m :
  connections m !! clubID = Some c -> ws c = true -> ready c = false ->
  join clubID channelID_ o m
  = (mkManager
       (<[clubID := set_listeners
                      (listeners c
                       ++ [("ready", {| group := fresh m; kind := JoinReady |});
                           ("disconnect", {| group := fresh m; kind := JoinDisconnect |});
                           ("error", {| group := fresh m; kind := JoinError |})]) c]>
          (connections m))
       (pendingClubs m) (timers m) (S (fresh m))
       (log m ++ [SwitchChannel clubID channelID_]),
     fresh m).
Proof.
  intros Hc Hws Hrd. destruct c as [w r ch0 L]. cbn in Hws, Hrd. subst w r.
  unfold join, once. repeat (vcm_simpl; rewrite ?Hc, ?lookup_insert_eq).
  vcm_norm. rewrite !insert_insert_eq, <- !app_assoc. reflexivity.
Qed.

(** The session emits an event: the listeners attached earlier run first,
    then those of the join. *)
Lemma session_emits_after_join clubID ev err c L own conns pend tm fr lg :
  let m1 := mkManager (<[clubID := set_listeners (L ++ own) c]> conns) pend tm fr lg in
  session_emits clubID ev err m1
  = fold_left (fun m l => handle clubID l.2 err m)
      (List.filter (fun l => (l.1 =? ev)%string) own)
      (fold_left (fun m l => handle clubID l.2 err m)
         (List.filter (fun l => (l.1 =? ev)%string) L)
         (mkManager
            (<[clubID := set_listeners
                           (List.filter (fun l => negb (l.1 =? ev)%string) L
                            ++ List.filter (fun l => negb (l.1 =? ev)%string) own) c]> conns)
            pend tm fr lg)).
Proof.
  cbn zeta. unfold session_emits. vcm_simpl. rewrite lookup_insert_eq. vcm_simpl.
  rewrite !List.filter_app, fold_left_app. vcm_norm. rewrite insert_insert_eq.
  destruct c; reflexivity.
Qed.

(** X27.  A [join] on a session that has a socket but is not ready yet
    waits for the session: it attaches three listeners, and the first
    "ready", "disconnect" or "error" of the session settles the promise
    (resolved with the session, rejected with "Disconnected", or the
    session disconnected and the promise rejected with the error) and
    takes the join's other listeners off, so the promise is settled
    once. *)
Theorem connecting_join_settles_once clubID channelID_ o c err m :
  connections m !! clubID = Some c -> ws c = true -> ready c = false ->
  (forall x, In x (listeners c) -> group x.2 <> fresh m) ->
  let promise := (join clubID channelID_ o m).2 in
  let m1 := (join clubID channelID_ o m).1 in
  let settles event outcome :=
    (exists l, log (session_emits clubID event err m1)
               = log m ++ [SwitchChannel clubID channelID_] ++ l ++ outcome)
    /\ listeners_of promise clubID (session_emits clubID event err m1) = [] in
  pendingClubs m1 = pendingClubs m /\ timers m1 = timers m
  /\ length (listeners_of promise clubID m1) = 3%nat
  /\ settles "ready" [Resolve promise clubID]
  /\ settles "disconnect" [Reject promise {| message := "Disconnected" |}]
  /\ settles "error" [Disconnect clubID; Reject promise err].
Proof.
  intros Hc Hws Hrd HL. cbn zeta.
  rewrite (join_connecting clubID channelID_ o c m Hc Hws Hrd). cbn [fst snd].
  set (g := fresh m) in *.
  split; [reflexivity|]. split; [reflexivity|]. split.
  { unfold listeners_of. vcm_simpl. rewrite lookup_insert_eq. vcm_simpl.
    rewrite List.filter_app, (filter_none g (listeners c) HL).
    cbn [List.filter snd group app]. rewrite Nat.eqb_refl. reflexivity. }
  assert (Hkeep : forall ev, forall x,
            In x (List.filter (fun l : string * Handler => negb (l.1 =? ev)%string) (listeners c))
            -> group x.2 <> g).
  { intros ev x Hx. apply filter_In in Hx as [Hx _]. apply HL, Hx. }
  assert (Hdue : forall ev, forall x,
            In x (List.filter (fun l : string * Handler => (l.1 =? ev)%string) (listeners c))
            -> group x.2 <> g).
  { intros ev x Hx. apply filter_In in Hx as [Hx _]. apply HL, Hx. }
  split; [|split];
    rewrite session_emits_after_join;
    cbn [List.filter fst snd String.eqb Ascii.eqb Bool.eqb negb];
    match goal with |- context [fold_left ?f ?due ?X] =>
      lazymatch due with
      | List.filter _ (listeners c) =>
          pose proof (listeners_of_fold_other g clubID err due X (Hdue _)) as Hmine;
          destruct (log_fold_handle clubID err due X) as (l & Hlog);
          set (Y := fold_left f due X) in *
      end
    end;
    unfold listeners_of at 2 in Hmine; vcm_simpl in Hmine; rewrite lookup_insert_eq in Hmine;
    vcm_simpl in Hmine; rewrite List.filter_app, (filter_none g _ (Hkeep _)) in Hmine;
    cbn [List.filter snd group app] in Hmine; rewrite Nat.eqb_refl in Hmine;
    vcm_simpl in Hlog;
    cbn [fold_left snd]; unfold handle; cbn [kind group].
  - split.
    + exists l. vcm_simpl. rewrite !log_removeListener, Hlog, <- !app_assoc. reflexivity.
    + rewrite listeners_of_effect.
      eassert (H1 : listeners_of g clubID (removeListener clubID "disconnect" _ Y) = [_])
        by taken_off JoinDisconnect (@nil (string * Handler)) Hmine.
      taken_off JoinError (@nil (string * Handler)) H1.
  - split.
    + exists l. vcm_simpl. rewrite !log_removeListener, Hlog, <- !app_assoc. reflexivity.
    + rewrite listeners_of_effect.
      eassert (H1 : listeners_of g clubID (removeListener clubID "ready" _ Y) = [_])
        by taken_off JoinReady (@nil (string * Handler)) Hmine.
      taken_off JoinError (@nil (string * Handler)) H1.
  - split.
    + exists l. vcm_simpl. rewrite !log_removeListener, Hlog, <- !app_assoc. reflexivity.
    + rewrite !listeners_of_effect.
      eassert (H1 : listeners_of g clubID (removeListener clubID "disconnect" _ Y) = [_])
        by taken_off JoinDisconnect [("ready", {| group := g; kind := JoinReady |})] Hmine.
      taken_off JoinReady (@nil (string * Handler)) H1.
Qed.

Lemma connecting_join_settles_once_witness :
  let m := set_connections {["g" := {| ws := true; ready := false; channelID := Some "c0";
                                       listeners := [] |}]} new in
  let m1 := (join "g" "c1" None m).1 in
  listeners_of 0 "g" (session_emits "g" "disconnect" {| message := "" |} m1) = [].
Proof.
  cbn zeta.
  destruct (connecting_join_settles_once "g" "c1" None
              {| ws := true; ready := false; channelID := Some "c0"; listeners := [] |}
              {| message := "" |}
              (set_connections {["g" := {| ws := true; ready := false; channelID := Some "c0";
                                           listeners := [] |}]} new))
    as (_ & _ & _ & _ & (_ & H) & _).
  - reflexivity.
  - reflexivity.
  - reflexivity.
  - intros x [].
  - exact H.
Defined.

End VoiceJoins.
